(** * A shallow embedding of the 2D engine core

    The development follows the layout of [src/engine]: Python floats are
    IEEE binary64 numbers ([PrimFloat]), [pygame.Rect] carries integer
    fields ([Z]), Python sets of game objects are finite sets of object
    identities ([gset]), dictionaries iterated in insertion order are
    association lists, and raising code returns in the [result] monad. *)

From Stdlib Require Import ZArith List Bool Lia Floats.
From stdpp Require Import gmap.
Import ListNotations.

Set Default Proof Using "Type".
#[local] Set Warnings "-clear-no-such-hyp,-register-all".
Local Open Scope Z_scope.

(* ===================================================================== *)
(** * Outcomes of Python code *)
(* ===================================================================== *)

(** The exceptions the modelled code can raise. *)
Inductive exn : Type :=
  | NotImplementedError
  | ZeroDivisionError
  | ValueError
  | KeyError
  | AttributeError.

#[global] Instance exn_eq_dec : EqDecision exn.
Proof. solve_decision. Defined.

(** [Ok a]: normal return; [Raise e]: an exception propagates;
    [Timeout]: the recursion budget of the model ran out (never the case
    for the budgets the theorems use). *)
Inductive result (A : Type) : Type :=
  | Ok (a : A)
  | Raise (e : exn)
  | Timeout.
Arguments Ok {A} a.
Arguments Raise {A} e.
Arguments Timeout {A}.

Definition bind {A B : Type} (m : result A) (k : A -> result B) : result B :=
  match m with
  | Ok a => k a
  | Raise e => Raise e
  | Timeout => Timeout
  end.

Notation "'let*' x ':=' m 'in' k" := (bind m (fun x => k))
  (at level 10, x pattern, m at level 100, k at level 200).

(** [try: ... except e: handler]. *)
Definition try_except {A : Type} (m : result A) (e : exn) (handler : result A) : result A :=
  match m with
  | Raise e' => if decide (e = e') then handler else Raise e'
  | r => r
  end.

(* ===================================================================== *)
(** * Python floats *)
(* ===================================================================== *)

Module PyFloat.
Local Open Scope float_scope.

(** [x / y] on Python floats raises on a zero divisor. *)
Definition div (x y : float) : result float :=
  if y =? 0 then Raise ZeroDivisionError else Ok (x / y).

(** Built-in [max(a, b)] and [min(a, b)] keep the first argument unless
    the second compares strictly beyond it. *)
Definition max (a b : float) : float := if a <? b then b else a.
Definition min (a b : float) : float := if b <? a then b else a.

Definition inf : float := infinity.

(** A float that is neither infinite nor NaN. *)
Definition is_finite (x : float) : bool :=
  match Prim2SF x with
  | S754_zero _ | S754_finite _ _ _ => true
  | _ => false
  end.

Definition is_nan (x : float) : bool :=
  match Prim2SF x with
  | S754_nan => true
  | _ => false
  end.
End PyFloat.

(** A Python [int] used where a float is expected. The fields of a
    [pygame.Rect] are C ints, for which the conversion is exact. *)
Definition float_of_int (z : Z) : float :=
  if z <? 0
  then PrimFloat.opp (PrimFloat.of_uint63 (Uint63.of_Z (- z)))
  else PrimFloat.of_uint63 (Uint63.of_Z z).

(* ===================================================================== *)
(** * pygame.Vector2 *)
(* ===================================================================== *)

Module Vector2.
Local Open Scope float_scope.

Record t : Type := mk { x : float; y : float }.

(** [Vector2()] *)
Definition zero : t := mk 0 0.

Definition add (a b : t) : t := mk (x a + x b) (y a + y b).
Definition sub (a b : t) : t := mk (x a - x b) (y a - y b).
Definition neg (a : t) : t := mk (- x a) (- y a).
(** [v * s] *)
Definition scale (a : t) (s : float) : t := mk (x a * s) (y a * s).
(** [v / s]; a zero divisor raises. No statement below depends on how
    the quotient is rounded. *)
Definition div (a : t) (s : float) : result t :=
  if s =? 0 then Raise ZeroDivisionError else Ok (mk (x a / s) (y a / s)).
(** [v / n] for a Python int [n]: the divisor converts to [0.0], and
    the division raises, exactly when [n] is [0]. *)
Definition div_int (a : t) (n : Z) : result t :=
  if (n =? 0)%Z then Raise ZeroDivisionError
  else Ok (mk (x a / float_of_int n) (y a / float_of_int n)).
Definition dot (a b : t) : float := x a * x b + y a * y b.
Definition length (a : t) : float := PrimFloat.sqrt (dot a a).
(** [v.normalize()] raises on a vector of length zero. *)
Definition normalize (a : t) : result t :=
  let len := length a in
  if len =? 0 then Raise ValueError else Ok (mk (x a / len) (y a / len)).

(** pygame compares vectors coordinate by coordinate with a tolerance
    of 1e-6; a NaN difference counts as different. *)
Definition epsilon : float := 0x1.0c6f7a0b5ed8dp-20.
Definition coord_differs (u v : float) : bool :=
  let diff := u - v in
  negb (diff =? diff) || (epsilon <=? PrimFloat.abs diff).
Definition ne (a b : t) : bool :=
  coord_differs (x a) (x b) || coord_differs (y a) (y b).

(** [sum(vs, start)] *)
Definition sum (vs : list t) (start : t) : t := fold_left add vs start.
End Vector2.

(* ===================================================================== *)
(** * pygame.Rect *)
(* ===================================================================== *)

Module Rect.
Record t : Type := mk { x : Z; y : Z; width : Z; height : Z }.

Definition left (r : t) : Z := x r.
Definition top (r : t) : Z := y r.
Definition right (r : t) : Z := x r + width r.
Definition bottom (r : t) : Z := y r + height r.

(** [a.colliderect(b)]: rectangles of zero width or height collide with
    nothing; edges that merely touch do not count as overlap. *)
Definition colliderect (a b : t) : bool :=
  if (width a =? 0) || (height a =? 0) || (width b =? 0) || (height b =? 0)
  then false
  else (Z.min (x a) (x a + width a) <? Z.max (x b) (x b + width b))
       && (Z.min (y a) (y a + height a) <? Z.max (y b) (y b + height b))
       && (Z.min (x b) (x b + width b) <? Z.max (x a) (x a + width a))
       && (Z.min (y b) (y b + height b) <? Z.max (y a) (y a + height a)).

(** pygame keeps the four fields of a [Rect] in C ints and forms the
    edges [x + width] and [y + height] in C int arithmetic, which wraps
    around at [2^31]. [right], [bottom] and [colliderect] above are
    written on mathematical integers; they are pygame's for the
    rectangles that [fits] describes: the four fields and the two edge
    sums lie in the range of a C int. *)
Definition in_c_int (z : Z) : bool := (- 2 ^ 31 <=? z) && (z <? 2 ^ 31).

Definition fits (r : t) : bool :=
  in_c_int (x r) && in_c_int (y r) && in_c_int (width r) && in_c_int (height r)
  && in_c_int (x r + width r) && in_c_int (y r + height r).

(** The value a C int holds for the mathematical result [z], and the
    edges and the overlap test as C int arithmetic gives them. *)
Definition c_int (z : Z) : Z := (z + 2 ^ 31) mod 2 ^ 32 - 2 ^ 31.

Definition c_right (r : t) : Z := c_int (x r + width r).
Definition c_bottom (r : t) : Z := c_int (y r + height r).

Definition c_colliderect (a b : t) : bool :=
  if (width a =? 0) || (height a =? 0) || (width b =? 0) || (height b =? 0)
  then false
  else (Z.min (x a) (c_right a) <? Z.max (x b) (c_right b))
       && (Z.min (y a) (c_bottom a) <? Z.max (y b) (c_bottom b))
       && (Z.min (x b) (c_right b) <? Z.max (x a) (c_right a))
       && (Z.min (y b) (c_bottom b) <? Z.max (y a) (c_bottom a)).
End Rect.

(* ===================================================================== *)
(** * engine/interfaces.py: result records *)
(* ===================================================================== *)

Record RaycastHit : Type := mkRaycastHit {
  hit_point : Vector2.t;
  hit_normal : Vector2.t;
  hit_distance : float
}.

Record GameObjectUpdateRes : Type := mkUpdateRes { object_moved : bool }.

(* ===================================================================== *)
(** * engine/physics.py *)
(* ===================================================================== *)

Module PhysicsBody.
Local Open Scope float_scope.

Record t : Type := mk {
  position : Vector2.t;
  velocity : Vector2.t;
  acceleration : Vector2.t;
  mass : float;
  drag : float;
  friction : float;
  is_static : bool;
  rotation : float;
  angular_velocity : float;
  angular_drag : float;
  enable_rotation : bool;
  forces : Vector2.t;
  torque : float;
  inverse_mass : float
}.

(** The dataclass constructor followed by [__post_init__]: [forces] is
    not an init argument and starts as [Vector2()]. *)
Definition init (position velocity acceleration : Vector2.t)
    (mass drag friction : float) (is_static : bool)
    (rotation angular_velocity angular_drag : float) (enable_rotation : bool)
    (torque : float) : result t :=
  let* inverse_mass :=
    (if is_static || (mass <=? 0) then Ok 0 else PyFloat.div 1 mass) in
  Ok (mk position velocity acceleration mass drag friction is_static
         rotation angular_velocity angular_drag enable_rotation
         Vector2.zero torque inverse_mass).

Definition set_forces (b : t) (f : Vector2.t) : t :=
  mk (position b) (velocity b) (acceleration b) (mass b) (drag b) (friction b)
     (is_static b) (rotation b) (angular_velocity b) (angular_drag b)
     (enable_rotation b) f (torque b) (inverse_mass b).

Definition set_velocity (b : t) (v : Vector2.t) : t :=
  mk (position b) v (acceleration b) (mass b) (drag b) (friction b)
     (is_static b) (rotation b) (angular_velocity b) (angular_drag b)
     (enable_rotation b) (forces b) (torque b) (inverse_mass b).

Definition apply_force (b : t) (force : Vector2.t) : t :=
  if negb (is_static b) then set_forces b (Vector2.add (forces b) force) else b.

Definition apply_impulse (b : t) (impulse : Vector2.t) : t :=
  if negb (is_static b)
  then set_velocity b (Vector2.add (velocity b) (Vector2.scale impulse (inverse_mass b)))
  else b.

Definition integrate (b : t) (dt : float) : t * GameObjectUpdateRes :=
  if is_static b then (b, mkUpdateRes false)
  else
    let prev_position := Vector2.mk (Vector2.x (position b)) (Vector2.y (position b)) in
    let prev_rotation := rotation b in
    let acc := Vector2.scale (forces b) (inverse_mass b) in
    let acc := if 0 <? friction b
               then Vector2.sub acc (Vector2.scale (velocity b) (friction b)) else acc in
    let acc := if 0 <? drag b
               then Vector2.sub acc (Vector2.scale (velocity b) (drag b)) else acc in
    let velocity' := Vector2.add (velocity b) (Vector2.scale acc dt) in
    let position' := Vector2.add (position b) (Vector2.scale velocity' dt) in
    let angular_velocity' :=
      if enable_rotation b
      then angular_velocity b * PyFloat.max 0 (1 - angular_drag b * dt)
      else angular_velocity b in
    let rotation' :=
      if enable_rotation b then rotation b + angular_velocity' * dt else rotation b in
    let position_changed := Vector2.ne position' prev_position in
    let rotation_changed :=
      enable_rotation b && negb (rotation' =? prev_rotation) in
    (mk position' velocity' acc (mass b) (drag b) (friction b) (is_static b)
        rotation' angular_velocity' (angular_drag b) (enable_rotation b)
        Vector2.zero (torque b) (inverse_mass b),
     mkUpdateRes (position_changed || rotation_changed)).
End PhysicsBody.

(* ===================================================================== *)
(** * engine/primitives.py *)
(* ===================================================================== *)

(** How pygame turns a float argument of [Rect(...)] into an integer
    field. pygame does this in C; the embedding leaves it a parameter. *)
Class RectCoord : Type := rect_coord : float -> Z.

Definition Rect_of_floats `{RectCoord} (x y w h : float) : Rect.t :=
  Rect.mk (rect_coord x) (rect_coord y) (rect_coord w) (rect_coord h).

Module CircleShape.
Local Open Scope float_scope.

Record t : Type := mk { position : Vector2.t; radius : float }.

Definition get_bounding_rect `{RectCoord} (self : t) : Rect.t :=
  Rect_of_floats (Vector2.x (position self) - radius self)
                 (Vector2.y (position self) - radius self)
                 (radius self * 2) (radius self * 2).

(** The two candidate ray parameters [t1], [t2] of the quadratic, and
    its discriminant, as [intersects_ray] computes them. *)
Definition quad_a (direction : Vector2.t) : float := Vector2.dot direction direction.
Definition quad_b (self : t) (origin direction : Vector2.t) : float :=
  2 * Vector2.dot (Vector2.sub origin (position self)) direction.
Definition quad_c (self : t) (origin : Vector2.t) : float :=
  let oc := Vector2.sub origin (position self) in
  Vector2.dot oc oc - radius self * radius self.
Definition discriminant (self : t) (origin direction : Vector2.t) : float :=
  let a := quad_a direction in
  let b := quad_b self origin direction in
  let c := quad_c self origin in
  b * b - 4 * a * c.
Definition root1 (self : t) (origin direction : Vector2.t) : result float :=
  PyFloat.div (- quad_b self origin direction
               - PrimFloat.sqrt (discriminant self origin direction))
              (2 * quad_a direction).
Definition root2 (self : t) (origin direction : Vector2.t) : result float :=
  PyFloat.div (- quad_b self origin direction
               + PrimFloat.sqrt (discriminant self origin direction))
              (2 * quad_a direction).

(** [t >= 0 and t <= max_distance] *)
Definition admissible (t max_distance : float) : bool :=
  (0 <=? t) && (t <=? max_distance).

Definition intersects_ray (self : t) (origin direction : Vector2.t)
    (max_distance : float) : result (option RaycastHit) :=
  if discriminant self origin direction <? 0 then Ok None
  else
    let* t1 := root1 self origin direction in
    let* t2 := root2 self origin direction in
    let t := if admissible t1 max_distance then Some t1
             else if admissible t2 max_distance then Some t2
             else None in
    match t with
    | None => Ok None
    | Some t =>
        let hit_point := Vector2.add origin (Vector2.scale direction t) in
        let* normal := Vector2.normalize (Vector2.sub hit_point (position self)) in
        Ok (Some (mkRaycastHit hit_point normal t))
    end.
End CircleShape.

Module RectShape.
Local Open Scope float_scope.

Record t : Type := mk { position : Vector2.t; rect : Rect.t }.

(** [RectShape(rect)]: the reference position is [rect.center]. *)
Definition init (rect : Rect.t) : t :=
  mk (Vector2.mk (float_of_int (Rect.x rect + Z.quot (Rect.width rect) 2))
                 (float_of_int (Rect.y rect + Z.quot (Rect.height rect) 2)))
     rect.

Definition get_bounding_rect (self : t) : Rect.t := rect self.

Definition tiny : float := 0x1.0c6f7a0b5ed8dp-20.

(** One axis of the slab method: [None] when the ray misses the slab,
    otherwise the entry and exit parameters. *)
Definition slab (lo hi : Z) (o d : float) : option (float * float) :=
  if negb (d =? 0) then
    let t_min := (float_of_int lo - o) / d in
    let t_max := (float_of_int hi - o) / d in
    if t_max <? t_min then Some (t_max, t_min) else Some (t_min, t_max)
  else
    if (o <? float_of_int lo) || (float_of_int hi <? o) then None
    else Some (neg_infinity, infinity).

Definition intersects_ray (self : t) (origin direction : Vector2.t)
    (max_distance : float) : result (option RaycastHit) :=
  let r := rect self in
  if (Vector2.x direction =? 0) && (Vector2.y direction =? 0) then Ok None
  else
    match slab (Rect.left r) (Rect.right r) (Vector2.x origin) (Vector2.x direction) with
    | None => Ok None
    | Some (t_min_x, t_max_x) =>
      match slab (Rect.top r) (Rect.bottom r) (Vector2.y origin) (Vector2.y direction) with
      | None => Ok None
      | Some (t_min_y, t_max_y) =>
        let t_min := PyFloat.max t_min_x t_min_y in
        let t_max := PyFloat.min t_max_x t_max_y in
        if (t_max <? 0) || (t_max <? t_min) then Ok None
        else
          let t := if 0 <=? t_min then t_min else t_max in
          if max_distance <? t then Ok None
          else
            let hit_point := Vector2.add origin (Vector2.scale direction t) in
            let normal :=
              if PrimFloat.abs (Vector2.x hit_point - float_of_int (Rect.left r)) <? tiny
              then Vector2.mk (-1) 0
              else if PrimFloat.abs (Vector2.x hit_point - float_of_int (Rect.right r)) <? tiny
              then Vector2.mk 1 0
              else if PrimFloat.abs (Vector2.y hit_point - float_of_int (Rect.top r)) <? tiny
              then Vector2.mk 0 (-1)
              else if PrimFloat.abs (Vector2.y hit_point - float_of_int (Rect.bottom r)) <? tiny
              then Vector2.mk 0 1
              else Vector2.mk 0 0 in
            Ok (Some (mkRaycastHit hit_point normal t))
      end
    end.
End RectShape.

(** The ray/segment test shared by [LineShape.intersects_ray] and the edge
    loop of [PolygonShape.intersects_ray]: the ray parameter of the
    crossing with the segment [v1 v2], when the segment is not parallel to
    the ray, the crossing lies on the segment and [ahead] accepts its
    orientation value. *)
Definition ray_segment (v1 v2 origin direction : Vector2.t)
    (ahead : float -> bool) : option float :=
  let edge_dir := Vector2.sub v2 v1 in
  let h := Vector2.mk (PrimFloat.opp (Vector2.y direction)) (Vector2.x direction) in
  let a := Vector2.dot edge_dir h in
  if PrimFloat.ltb (PrimFloat.abs a) 0x1.b7cdfd9d7bdbbp-34 then None
  else
    let f := PrimFloat.div 1 a in
    let s := Vector2.sub origin v1 in
    let u := PrimFloat.mul f (Vector2.dot s h) in
    if PrimFloat.ltb u 0 || PrimFloat.ltb 1 u then None
    else
      let q := Vector2.mk (PrimFloat.opp (Vector2.y edge_dir)) (Vector2.x edge_dir) in
      let v := PrimFloat.mul f (Vector2.dot direction q) in
      if ahead v then Some (PrimFloat.mul f (Vector2.dot s q)) else None.

Module PolygonShape.
Local Open Scope float_scope.

Record t : Type := mk { position : Vector2.t; vertices : list Vector2.t }.

(** [PolygonShape(vertices)]: the reference position is the mean of the
    vertices, [sum(vertices, Vector2(0, 0)) / len(vertices)]. *)
Definition init (vertices : list Vector2.t) : result t :=
  let* center := Vector2.div_int (Vector2.sum vertices (Vector2.mk 0 0))
                                 (Z.of_nat (List.length vertices)) in
  Ok (mk center vertices).

(** [min(f(v) for v in vs)] over a non-empty list. *)
Definition min_of (f : Vector2.t -> float) (v0 : Vector2.t) (vs : list Vector2.t) : float :=
  fold_left (fun m v => PyFloat.min m (f v)) vs (f v0).
Definition max_of (f : Vector2.t -> float) (v0 : Vector2.t) (vs : list Vector2.t) : float :=
  fold_left (fun m v => PyFloat.max m (f v)) vs (f v0).

Definition get_bounding_rect `{RectCoord} (self : t) : Rect.t :=
  match vertices self with
  | [] => Rect.mk 0 0 0 0
  | v0 :: vs =>
      let min_x := min_of Vector2.x v0 vs in
      let max_x := max_of Vector2.x v0 vs in
      let min_y := min_of Vector2.y v0 vs in
      let max_y := max_of Vector2.y v0 vs in
      Rect_of_floats min_x min_y (max_x - min_x) (max_y - min_y)
  end.

(** [self.vertices[(i + 1) % n]] for the edge starting at index [i]. *)
Definition edges (vs : list Vector2.t) : list (Vector2.t * Vector2.t) :=
  match vs with
  | [] => []
  | v0 :: rest => combine vs (rest ++ [v0])
  end.

(** One iteration of the edge loop on the state [(min_t, hit_normal)]. *)
Definition edge_step (self : t) (origin direction : Vector2.t) (max_distance : float)
    (st : float * Vector2.t) (e : Vector2.t * Vector2.t) : result (float * Vector2.t) :=
  let '(min_t, hit_normal) := st in
  let '(v1, v2) := e in
  match ray_segment v1 v2 origin direction (fun v => 0 <? v) with
  | None => Ok st
  | Some t =>
      if (t <? min_t) && (t <=? max_distance) then
        let edge_dir := Vector2.sub v2 v1 in
        let* edge_normal :=
          Vector2.normalize (Vector2.mk (- Vector2.y edge_dir) (Vector2.x edge_dir)) in
        let* edge_center := Vector2.div (Vector2.add v1 v2) 2 in
        let to_center := Vector2.sub (position self) edge_center in
        let edge_normal :=
          if Vector2.dot edge_normal to_center <? 0
          then Vector2.neg edge_normal else edge_normal in
        Ok (t, edge_normal)
      else Ok st
  end.

Fixpoint edge_loop (self : t) (origin direction : Vector2.t) (max_distance : float)
    (st : float * Vector2.t) (es : list (Vector2.t * Vector2.t)) : result (float * Vector2.t) :=
  match es with
  | [] => Ok st
  | e :: es' =>
      let* st' := edge_step self origin direction max_distance st e in
      edge_loop self origin direction max_distance st' es'
  end.

Definition intersects_ray (self : t) (origin direction : Vector2.t)
    (max_distance : float) : result (option RaycastHit) :=
  let* st := edge_loop self origin direction max_distance
               (infinity, Vector2.mk 0 0) (edges (vertices self)) in
  let '(min_t, hit_normal) := st in
  if min_t =? infinity then Ok None
  else Ok (Some (mkRaycastHit (Vector2.add origin (Vector2.scale direction min_t))
                              hit_normal min_t)).
End PolygonShape.

Module LineShape.
Local Open Scope float_scope.

Record t : Type := mk { position : Vector2.t; start : Vector2.t; end_ : Vector2.t }.

(** [width or 1]: a zero extent is replaced by the integer [1]. *)
Definition extent_or_1 `{RectCoord} (w : float) : Z :=
  if w =? 0 then 1%Z else rect_coord w.

Definition get_bounding_rect `{RectCoord} (self : t) : Rect.t :=
  let left := PyFloat.min (Vector2.x (start self)) (Vector2.x (end_ self)) in
  let top := PyFloat.min (Vector2.y (start self)) (Vector2.y (end_ self)) in
  let width := PrimFloat.abs (Vector2.x (start self) - Vector2.x (end_ self)) in
  let height := PrimFloat.abs (Vector2.y (start self) - Vector2.y (end_ self)) in
  Rect.mk (rect_coord left) (rect_coord top) (extent_or_1 width) (extent_or_1 height).

Definition intersects_ray (self : t) (origin direction : Vector2.t)
    (max_distance : float) : result (option RaycastHit) :=
  match ray_segment (start self) (end_ self) origin direction
          (fun v => negb (v <=? 0)) with
  | None => Ok None
  | Some t =>
      if max_distance <? t then Ok None
      else
        let line_dir := Vector2.sub (end_ self) (start self) in
        let hit_point := Vector2.add origin (Vector2.scale direction t) in
        let* normal :=
          Vector2.normalize (Vector2.mk (- Vector2.y line_dir) (Vector2.x line_dir)) in
        Ok (Some (mkRaycastHit hit_point normal t))
  end.
End LineShape.

(** A collision shape is one of the four concrete classes; the methods of
    the abstract base class dispatch on the class. *)
Inductive CollisionShape : Type :=
  | Circle (s : CircleShape.t)
  | Rectangle (s : RectShape.t)
  | Polygon (s : PolygonShape.t)
  | Line (s : LineShape.t).

Definition get_bounding_rect `{RectCoord} (shape : CollisionShape) : Rect.t :=
  match shape with
  | Circle s => CircleShape.get_bounding_rect s
  | Rectangle s => RectShape.get_bounding_rect s
  | Polygon s => PolygonShape.get_bounding_rect s
  | Line s => LineShape.get_bounding_rect s
  end.

Definition intersects_ray (shape : CollisionShape) (origin direction : Vector2.t)
    (max_distance : float) : result (option RaycastHit) :=
  match shape with
  | Circle s => CircleShape.intersects_ray s origin direction max_distance
  | Rectangle s => RectShape.intersects_ray s origin direction max_distance
  | Polygon s => PolygonShape.intersects_ray s origin direction max_distance
  | Line s => LineShape.intersects_ray s origin direction max_distance
  end.

(* ===================================================================== *)
(** * engine/collision.py *)
(* ===================================================================== *)

(** A Python number: the penetration of a rectangle pair is an [int]
    computed from [Rect] fields, other tests produce floats. *)
Inductive number : Type :=
  | Int (z : Z)
  | Float (f : float).

Record CollisionInfo : Type := mkCollisionInfo {
  contact_points : list Vector2.t;
  normal : Vector2.t;
  penetration : number
}.

(** [min(xs)] on a non-empty list of ints and [xs.index(v)]. *)
Definition int_list_min (x0 : Z) (xs : list Z) : Z :=
  fold_left (fun m v => if v <? m then v else m) xs x0.

Fixpoint list_index (v : Z) (xs : list Z) : nat :=
  match xs with
  | [] => O
  | x :: xs' => if x =? v then O else S (list_index v xs')
  end.

Section RectRect.
Variables s1 s2 : RectShape.t.

Let r1 : Rect.t := RectShape.rect s1.
Let r2 : Rect.t := RectShape.rect s2.

Definition left_overlap : Z := (Rect.x r1 + Rect.width r1) - Rect.x r2.
Definition right_overlap : Z := (Rect.x r2 + Rect.width r2) - Rect.x r1.
Definition top_overlap : Z := (Rect.y r1 + Rect.height r1) - Rect.y r2.
Definition bottom_overlap : Z := (Rect.y r2 + Rect.height r2) - Rect.y r1.

Definition min_penetration : Z :=
  int_list_min left_overlap [right_overlap; top_overlap; bottom_overlap].

Definition min_idx : nat :=
  list_index min_penetration [left_overlap; right_overlap; top_overlap; bottom_overlap].

(** [a + b / 2] with [a], [b] ints: true division, then a float sum. *)
Let half_from (a b : Z) : float :=
  PrimFloat.add (float_of_int a) (PrimFloat.div (float_of_int b) 2).

Definition rect_intersects_rect : option CollisionInfo :=
  if (Rect.x r1 + Rect.width r1 <? Rect.x r2)
     || (Rect.x r2 + Rect.width r2 <? Rect.x r1)
     || (Rect.y r1 + Rect.height r1 <? Rect.y r2)
     || (Rect.y r2 + Rect.height r2 <? Rect.y r1)
  then None
  else
    let '(normal, contact_point) :=
      match min_idx with
      | 0%nat => (Vector2.mk (-1) 0,
                  Vector2.mk (float_of_int (Rect.x r2))
                             (half_from (Rect.y r1) (Rect.height r1)))
      | 1%nat => (Vector2.mk 1 0,
                  Vector2.mk (float_of_int (Rect.x r2 + Rect.width r2))
                             (half_from (Rect.y r1) (Rect.height r1)))
      | 2%nat => (Vector2.mk 0 (-1),
                  Vector2.mk (half_from (Rect.x r1) (Rect.width r1))
                             (float_of_int (Rect.y r2)))
      | _ => (Vector2.mk 0 1,
              Vector2.mk (half_from (Rect.x r1) (Rect.width r1))
                         (float_of_int (Rect.y r2 + Rect.height r2)))
      end in
    Some (mkCollisionInfo [contact_point] normal (Int min_penetration)).
End RectRect.

(** Identity of a Python object. *)
Definition ObjRef : Type := nat.

(** The classes [type(x)] can return for the values handed to the
    dispatcher: the four shape classes, or a [GameObject] subclass. *)
Inductive pytype : Type :=
  | CircleShapeT
  | RectShapeT
  | PolygonShapeT
  | LineShapeT
  | GameObjectT (cls : nat).

#[global] Instance pytype_eq_dec : EqDecision pytype.
Proof. solve_decision. Defined.

Definition pytype_code (ty : pytype) : nat :=
  match ty with
  | CircleShapeT => 0
  | RectShapeT => 1
  | PolygonShapeT => 2
  | LineShapeT => 3
  | GameObjectT cls => 4 + cls
  end.

Definition pytype_of_code (n : nat) : pytype :=
  match n with
  | 0%nat => CircleShapeT
  | 1%nat => RectShapeT
  | 2%nat => PolygonShapeT
  | 3%nat => LineShapeT
  | S (S (S (S cls))) => GameObjectT cls
  end.

#[global] Program Instance pytype_countable : Countable pytype :=
  inj_countable' pytype_code pytype_of_code _.
Next Obligation. intros []; reflexivity. Qed.

(** The values [detect] is called on. *)
Inductive pyval : Type :=
  | VShape (shape : CollisionShape)
  | VGameObject (cls : nat) (ref : ObjRef).

Definition type_of (v : pyval) : pytype :=
  match v with
  | VShape (Circle _) => CircleShapeT
  | VShape (Rectangle _) => RectShapeT
  | VShape (Polygon _) => PolygonShapeT
  | VShape (Line _) => LineShapeT
  | VGameObject cls _ => GameObjectT cls
  end.

(** A registered detection function. *)
Abbreviation Handler := (pyval -> pyval -> result (option CollisionInfo)).

(** [rect_intersects_rect] as a registry entry. *)
Definition rect_rect_handler : Handler := fun a b =>
  match a, b with
  | VShape (Rectangle s1), VShape (Rectangle s2) => Ok (rect_intersects_rect s1 s2)
  | _, _ => Raise AttributeError
  end.

Module CollisionDetector.
Abbreviation registry := (gmap (pytype * pytype) Handler).

(** [add] is a class method: it updates the one class-level registry. *)
Definition add (reg : registry) (type_a type_b : pytype) (handler : Handler) : registry :=
  <[(type_b, type_a) := fun b a => handler a b]> (<[(type_a, type_b) := handler]> reg).

Definition init (reg : registry)
    (default_detectors : list (pytype * pytype * Handler)) : registry :=
  fold_left (fun r d => add r d.1.1 d.1.2 d.2) default_detectors reg.

Definition detect (reg : registry) (a b : pyval) : result (option CollisionInfo) :=
  match reg !! (type_of a, type_of b) with
  | None => Raise NotImplementedError
  | Some handler => handler a b
  end.
End CollisionDetector.

(** The registration list at the end of [collision.py]. Only the
    rectangle pair test is spelled out in this development; the other
    nine detection functions are parameters. *)
Record Detectors : Type := mkDetectors {
  circle_intersects_circle : Handler;
  rect_intersects_circle : Handler;
  line_intersects_circle : Handler;
  polygon_intersects_circle : Handler;
  rect_intersects_line : Handler;
  rect_intersects_polygon : Handler;
  line_intersects_line : Handler;
  line_intersects_polygon : Handler;
  polygon_intersects_polygon : Handler
}.

Definition default_detectors (d : Detectors) : list (pytype * pytype * Handler) :=
  [ (CircleShapeT, CircleShapeT, circle_intersects_circle d);
    (RectShapeT, CircleShapeT, rect_intersects_circle d);
    (LineShapeT, CircleShapeT, line_intersects_circle d);
    (PolygonShapeT, CircleShapeT, polygon_intersects_circle d);
    (RectShapeT, RectShapeT, rect_rect_handler);
    (RectShapeT, LineShapeT, rect_intersects_line d);
    (RectShapeT, PolygonShapeT, rect_intersects_polygon d);
    (LineShapeT, LineShapeT, line_intersects_line d);
    (LineShapeT, PolygonShapeT, line_intersects_polygon d);
    (PolygonShapeT, PolygonShapeT, polygon_intersects_polygon d) ].

(* ===================================================================== *)
(** * engine/spatial.py *)
(* ===================================================================== *)

Module SpatialQuadTree.

(** A node. [objects] is the Python set of stored game objects;
    [node0] .. [node3] are the four slots of the list [nodes]
    (NE, NW, SW, SE), each [None] until the node splits. Where the code
    iterates over a set, the embedding visits it in the order of
    [elements]; no statement below depends on that order. *)
Inductive t : Type := mk {
  bounds : Rect.t;
  max_objects : Z;
  max_levels : Z;
  level : Z;
  objects : gset ObjRef;
  node0 : option t;
  node1 : option t;
  node2 : option t;
  node3 : option t;
  vertical_mid : Z;
  horizontal_mid : Z
}.

(** [SpatialQuadTree(bounds, max_objects, max_levels, level)] *)
Definition init (bounds : Rect.t) (max_objects max_levels level : Z) : t :=
  mk bounds max_objects max_levels level ∅ None None None None 0 0.

(** [SpatialQuadTree(bounds)] with the default arguments. *)
Definition init_default (bounds : Rect.t) : t := init bounds 10 5 0.

Definition set_objects (self : t) (objs : gset ObjRef) : t :=
  mk (bounds self) (max_objects self) (max_levels self) (level self) objs
     (node0 self) (node1 self) (node2 self) (node3 self)
     (vertical_mid self) (horizontal_mid self).

(** [self.nodes[index]] and [self.nodes[index] = node] for [index] in 0..3. *)
Definition node_at (self : t) (index : Z) : option t :=
  if index =? 0 then node0 self
  else if index =? 1 then node1 self
  else if index =? 2 then node2 self
  else node3 self.

Definition set_node (self : t) (index : Z) (node : t) : t :=
  mk (bounds self) (max_objects self) (max_levels self) (level self) (objects self)
     (if index =? 0 then Some node else node0 self)
     (if index =? 1 then Some node else node1 self)
     (if index =? 2 then Some node else node2 self)
     (if (index =? 0) || (index =? 1) || (index =? 2) then node3 self else Some node)
     (vertical_mid self) (horizontal_mid self).

Definition split (self : t) : t :=
  let sub_width := Rect.width (bounds self) / 2 in
  let sub_height := Rect.height (bounds self) / 2 in
  let x := Rect.x (bounds self) in
  let y := Rect.y (bounds self) in
  let vertical_mid := x + sub_width in
  let horizontal_mid := y + sub_height in
  let child (r : Rect.t) := init r (max_objects self) (max_levels self) (level self + 1) in
  mk (bounds self) (max_objects self) (max_levels self) (level self) (objects self)
     (Some (child (Rect.mk vertical_mid y sub_width sub_height)))
     (Some (child (Rect.mk x y sub_width sub_height)))
     (Some (child (Rect.mk x horizontal_mid sub_width sub_height)))
     (Some (child (Rect.mk vertical_mid horizontal_mid sub_width sub_height)))
     vertical_mid horizontal_mid.

Definition get_index (self : t) (rect : Rect.t) : Z :=
  let in_left := Rect.right rect <=? vertical_mid self in
  let in_right := vertical_mid self <=? Rect.left rect in
  let in_top := Rect.bottom rect <=? horizontal_mid self in
  let in_bottom := horizontal_mid self <=? Rect.top rect in
  if in_left then
    if in_top then 1
    else if in_bottom then 2
    else -1
  else if in_right then
    if in_top then 0
    else if in_bottom then 3
    else -1
  else -1.

Section WithObjects.
(** What the index reads from a stored object at the time of a call:
    the bounding rectangle of its current collision shape, or [None]
    when [get_collision_shape()] returns [None]. *)
Variable bounding : ObjRef -> option Rect.t.

(** The loop [for obj in list(self.objects)] that follows a split;
    [ins] is the recursive [insert] on a child. *)
Fixpoint redistribute (ins : t -> ObjRef -> result t) (self : t)
    (snapshot : list ObjRef) : result t :=
  match snapshot with
  | [] => Ok self
  | obj :: rest =>
      match bounding obj with
      | None => redistribute ins self rest
      | Some obj_rect =>
          let index := get_index self obj_rect in
          if index =? -1 then redistribute ins self rest
          else
            match node_at self index with
            | None => redistribute ins self rest
            | Some node =>
                let* node' := ins node obj in
                if bool_decide (obj ∈ objects self)
                then redistribute ins
                       (set_objects (set_node self index node') (objects self ∖ {[obj]}))
                       rest
                else Raise KeyError
            end
      end
  end.

(** [insert], with a bound on the depth of the recursion. *)
Fixpoint insert_within (depth : nat) (self : t) (obj : ObjRef) : result t :=
  match depth with
  | O => Timeout
  | S depth' =>
      match bounding obj with
      | None => Ok self
      | Some obj_rect =>
          if negb (Rect.colliderect (bounds self) obj_rect) then Ok self
          else
            let into_child :=
              match node0 self with
              | None => None
              | Some _ =>
                  let index := get_index self obj_rect in
                  if index =? -1 then None
                  else match node_at self index with
                       | None => None
                       | Some node => Some (index, node)
                       end
              end in
            match into_child with
            | Some (index, node) =>
                let* node' := insert_within depth' node obj in
                Ok (set_node self index node')
            | None =>
                let self1 := set_objects self ({[obj]} ∪ objects self) in
                if (max_objects self1 <? Z.of_nat (size (objects self1)))
                   && (level self1 <? max_levels self1)
                then
                  let self2 := match node0 self1 with
                               | None => split self1
                               | Some _ => self1
                               end in
                  redistribute (insert_within depth') self2 (elements (objects self2))
                else Ok self1
            end
      end
  end.

(** A node at level [l] never recurses deeper than the levels left
    below it. *)
Definition depth_budget (self : t) : nat :=
  S (Z.to_nat (max_levels self - level self)).

Definition insert (self : t) (obj : ObjRef) : result t :=
  insert_within (depth_budget self) self obj.

Fixpoint _remove_recursive (self : t) (obj : ObjRef) (obj_rect : Rect.t) : t :=
  match self with
  | mk b mo ml l objs n0 n1 n2 n3 vm hm =>
      if negb (Rect.colliderect b obj_rect) then self
      else
        let objs' := objs ∖ {[obj]} in
        match n0 with
        | None => mk b mo ml l objs' n0 n1 n2 n3 vm hm
        | Some _ =>
            let rec (n : option t) :=
              match n with
              | None => None
              | Some node => Some (_remove_recursive node obj obj_rect)
              end in
            mk b mo ml l objs' (rec n0) (rec n1) (rec n2) (rec n3) vm hm
        end
  end.

Definition remove (self : t) (obj : ObjRef) : t :=
  match bounding obj with
  | None => self
  | Some obj_rect => _remove_recursive self obj obj_rect
  end.

Definition update_object (self : t) (obj : ObjRef) : result t :=
  insert (remove self obj) obj.
End WithObjects.

Fixpoint retrieve (self : t) (obj_rect : Rect.t) : gset ObjRef :=
  match self with
  | mk b mo ml l objs n0 n1 n2 n3 vm hm =>
      if negb (Rect.colliderect b obj_rect) then ∅
      else
        let rec (n : option t) : gset ObjRef :=
          match n with
          | None => ∅
          | Some node => retrieve node obj_rect
          end in
        match n0 with
        | None => objs
        | Some _ =>
            let index := get_index self obj_rect in
            if index =? -1 then objs ∪ rec n0 ∪ rec n1 ∪ rec n2 ∪ rec n3
            else if index =? 0 then objs ∪ rec n0
            else if index =? 1 then objs ∪ rec n1
            else if index =? 2 then objs ∪ rec n2
            else objs ∪ rec n3
        end
  end.
End SpatialQuadTree.

(* ===================================================================== *)
(** * engine/interfaces.py: game objects *)
(* ===================================================================== *)

(** The state of a game object the engine reads: its [_id], its Python
    class, and what [getType()], [is_collidable()] and
    [get_collision_shape()] return. *)
Record GameObject : Type := mkGameObject {
  obj_id : Z;
  obj_class : nat;
  obj_type : Z;
  is_collidable : bool;
  collision_shape : option CollisionShape
}.

Definition setId (g : GameObject) (new_id : Z) : GameObject :=
  mkGameObject new_id (obj_class g) (obj_type g) (is_collidable g) (collision_shape g).

(** The objects of the process, by identity. *)
Definition Heap : Type := ObjRef -> GameObject.

Definition heap_set (heap : Heap) (ref : ObjRef) (g : GameObject) : Heap :=
  fun r => if Nat.eqb r ref then g else heap r.

(** [obj.get_collision_shape()] followed by [shape.get_bounding_rect()]. *)
Definition bounding_of `{RectCoord} (heap : Heap) : ObjRef -> option Rect.t :=
  fun ref => option_map get_bounding_rect (collision_shape (heap ref)).

(** The [update] methods of the game object classes are supplied by the
    game: given the object and [dt] they return the object after the call
    and the returned [GameObjectUpdateRes | None]. *)
Class GameClasses : Type :=
  update_method : nat -> GameObject -> float -> GameObject * option GameObjectUpdateRes.

(* ===================================================================== *)
(** * engine/raycast.py *)
(* ===================================================================== *)

Section Raycast.
Context `{RectCoord}.

Definition create_ray_bounds (start end_ : Vector2.t) : Rect.t :=
  let min_x := PyFloat.min (Vector2.x start) (Vector2.x end_) in
  let min_y := PyFloat.min (Vector2.y start) (Vector2.y end_) in
  let max_x := PyFloat.max (Vector2.x start) (Vector2.x end_) in
  let max_y := PyFloat.max (Vector2.y start) (Vector2.y end_) in
  Rect_of_floats min_x min_y (PrimFloat.sub max_x min_x) (PrimFloat.sub max_y min_y).

(** The loop [for obj in potential_objects], started with the hits
    accumulated so far. *)
Fixpoint raycast_loop (heap : Heap) (origin direction : Vector2.t)
    (max_distance : float) (hits_lim : Z) (ignore_obj_tpyes : gset Z)
    (hits : list (ObjRef * RaycastHit)) (potential_objects : list ObjRef)
    : result (list (ObjRef * RaycastHit)) :=
  match potential_objects with
  | [] => Ok hits
  | obj :: rest =>
      let continue h :=
        raycast_loop heap origin direction max_distance hits_lim ignore_obj_tpyes h rest in
      if hits_lim <=? Z.of_nat (List.length hits) then Ok hits
      else if bool_decide (obj_type (heap obj) ∈ ignore_obj_tpyes) then continue hits
      else if negb (is_collidable (heap obj)) then continue hits
      else
        match collision_shape (heap obj) with
        | None => continue hits
        | Some shape =>
            let* hit := intersects_ray shape origin direction max_distance in
            match hit with
            | Some h => continue (hits ++ [(obj, h)])
            | None => continue hits
            end
        end
  end.

Definition raycast (spatial_tree : SpatialQuadTree.t) (heap : Heap)
    (origin direction : Vector2.t) (max_distance : float) (hits_lim : Z)
    (ignore_obj_tpyes : gset Z) : result (list (ObjRef * RaycastHit)) :=
  let end_point := Vector2.add origin (Vector2.scale direction max_distance) in
  let ray_bounds := create_ray_bounds origin end_point in
  let potential_objects := SpatialQuadTree.retrieve spatial_tree ray_bounds in
  raycast_loop heap origin direction max_distance hits_lim ignore_obj_tpyes []
               (elements potential_objects).

(** The call with [max_distance], [hits_lim] and [ignore_obj_tpyes]
    left at their defaults [float('inf')], [-1], [set()]. *)
Definition raycast_default (spatial_tree : SpatialQuadTree.t) (heap : Heap)
    (origin direction : Vector2.t) : result (list (ObjRef * RaycastHit)) :=
  raycast spatial_tree heap origin direction PyFloat.inf (-1) ∅.
End Raycast.

(* ===================================================================== *)
(** * Python dictionaries, in insertion order *)
(* ===================================================================== *)

Module Dict.
Definition t (V : Type) : Type := list (Z * V).

Fixpoint get {V : Type} (d : t V) (k : Z) : option V :=
  match d with
  | [] => None
  | (k', v) :: d' => if k' =? k then Some v else get d' k
  end.

(** [d[k] = v]: an existing key keeps its place. *)
Fixpoint set {V : Type} (d : t V) (k : Z) (v : V) : t V :=
  match d with
  | [] => [(k, v)]
  | (k', v') :: d' => if k' =? k then (k, v) :: d' else (k', v') :: set d' k v
  end.

(** [del d[k]] for a key that is present. *)
Fixpoint del {V : Type} (d : t V) (k : Z) : t V :=
  match d with
  | [] => []
  | (k', v') :: d' => if k' =? k then d' else (k', v') :: del d' k
  end.

Definition values {V : Type} (d : t V) : list V := map snd d.
End Dict.

(* ===================================================================== *)
(** * engine/engine.py *)
(* ===================================================================== *)

Module Engine.

(** The attributes assigned in the body of [class Engine]. They live on
    the class object: every instance that has not rebound the name on
    itself reads and mutates these. *)
Record class_attrs : Type := mkClass {
  class_next_obj_id : Z;
  game_objs : Dict.t ObjRef;
  game_objs_by_type : Dict.t (Dict.t ObjRef);
  collision_detector : CollisionDetector.registry
}.

(** The class object right after the class body ran. *)
Definition class_init (d : Detectors) : class_attrs :=
  mkClass 0 [] [] (CollisionDetector.init ∅ (default_detectors d)).

(** The attributes of one instance. [__init__] assigns [spatial_tree];
    [next_obj_id] appears on the instance at the first
    [self.next_obj_id += 1]. *)
Record t : Type := mk {
  next_obj_id : option Z;
  spatial_tree : SpatialQuadTree.t
}.

(** [Engine(world_bounds)] *)
Definition init (world_bounds : Rect.t) : t :=
  mk None (SpatialQuadTree.init_default world_bounds).

(** One [on_collision(engine, other, collision)] call on [self]. *)
Record CollisionCall : Type := mkCall {
  call_self : ObjRef;
  call_other : ObjRef;
  call_info : CollisionInfo
}.

(** The state of the process: the class object, the game objects, and
    the collision callbacks made so far. *)
Record World : Type := mkWorld {
  cls : class_attrs;
  heap : Heap;
  calls : list CollisionCall
}.

Definition set_cls (w : World) (c : class_attrs) : World := mkWorld c (heap w) (calls w).

Definition set_dicts (c : class_attrs) (objs : Dict.t ObjRef)
    (by_type : Dict.t (Dict.t ObjRef)) : class_attrs :=
  mkClass (class_next_obj_id c) objs by_type (collision_detector c).

Definition _next_id (w : World) (self : t) : t * Z :=
  let _id := match next_obj_id self with
             | Some n => n
             | None => class_next_obj_id (cls w)
             end in
  (mk (Some (_id + 1)) (spatial_tree self), _id).

Definition add_game_object (w : World) (self : t) (obj : ObjRef) : World * t * Z :=
  let '(self', new_id) := _next_id w self in
  let heap' := heap_set (heap w) obj (setId (heap w obj) new_id) in
  let ty := obj_type (heap' obj) in
  let bucket := match Dict.get (game_objs_by_type (cls w)) ty with
                | Some d => d
                | None => []
                end in
  let by_type' := Dict.set (game_objs_by_type (cls w)) ty (Dict.set bucket new_id obj) in
  let objs' := Dict.set (game_objs (cls w)) new_id obj in
  (mkWorld (set_dicts (cls w) objs' by_type') heap' (calls w), self', new_id).

Definition remove_game_object (w : World) (self : t) (id : Z) : World * t :=
  match Dict.get (game_objs (cls w)) id with
  | None => (w, self)
  | Some obj_to_remove =>
      let ty := obj_type (heap w obj_to_remove) in
      let by_type' :=
        match Dict.get (game_objs_by_type (cls w)) ty with
        | None => game_objs_by_type (cls w)
        | Some bucket =>
            match Dict.get bucket id with
            | None => game_objs_by_type (cls w)
            | Some _ =>
                let bucket' := Dict.del bucket id in
                match bucket' with
                | [] => Dict.del (game_objs_by_type (cls w)) ty
                | _ => Dict.set (game_objs_by_type (cls w)) ty bucket'
                end
            end
        end in
      (set_cls w (set_dicts (cls w) (Dict.del (game_objs (cls w)) id) by_type'), self)
  end.

Definition get_game_objects_by_type (w : World) (self : t) (ty : Z) : option (Dict.t ObjRef) :=
  Dict.get (game_objs_by_type (cls w)) ty.

Definition get_game_object_by_id (w : World) (self : t) (id : Z) : option ObjRef :=
  Dict.get (game_objs (cls w)) id.

Definition get_objects_in_rect (w : World) (self : t) (rect : Rect.t) : gset ObjRef :=
  SpatialQuadTree.retrieve (spatial_tree self) rect.

Section Tick.
Context `{RectCoord} `{GameClasses}.

(** "Update objects": calls [update] on every registered object and
    collects those that report a move. *)
Fixpoint update_objects (h : Heap) (dt : float) (objs : list ObjRef)
    : Heap * list ObjRef :=
  match objs with
  | [] => (h, [])
  | game_obj :: rest =>
      let '(g', objUpd) := update_method (obj_class (h game_obj)) (h game_obj) dt in
      let '(h', moved) := update_objects (heap_set h game_obj g') dt rest in
      match objUpd with
      | Some r => if object_moved r then (h', game_obj :: moved) else (h', moved)
      | None => (h', moved)
      end
  end.

(** "Update moved objects in spatial tree" *)
Fixpoint update_tree (h : Heap) (tree : SpatialQuadTree.t) (objs_moved : list ObjRef)
    : result SpatialQuadTree.t :=
  match objs_moved with
  | [] => Ok tree
  | moved_obj :: rest =>
      let* tree' := SpatialQuadTree.update_object (bounding_of h) tree moved_obj in
      update_tree h tree' rest
  end.

Definition Collision : Type := CollisionInfo * (ObjRef * ObjRef).

(** The inner loop of "Collision detection" for one moved object. The
    dispatcher is handed the two game objects. *)
Fixpoint detect_against (reg : CollisionDetector.registry) (h : Heap)
    (moved_obj : ObjRef) (collisions : list Collision) (collision_objs : list ObjRef)
    : result (list Collision) :=
  match collision_objs with
  | [] => Ok collisions
  | collision_obj :: rest =>
      if Nat.eqb moved_obj collision_obj
      then detect_against reg h moved_obj collisions rest
      else
        let* collision :=
          CollisionDetector.detect reg
            (VGameObject (obj_class (h moved_obj)) moved_obj)
            (VGameObject (obj_class (h collision_obj)) collision_obj) in
        match collision with
        | None => detect_against reg h moved_obj collisions rest
        | Some c =>
            detect_against reg h moved_obj
              (collisions ++ [(c, (moved_obj, collision_obj))]) rest
        end
  end.

Fixpoint detect_collisions (reg : CollisionDetector.registry) (h : Heap)
    (tree : SpatialQuadTree.t) (collisions : list Collision) (objs_moved : list ObjRef)
    : result (list Collision) :=
  match objs_moved with
  | [] => Ok collisions
  | moved_obj :: rest =>
      match collision_shape (h moved_obj) with
      | None => detect_collisions reg h tree collisions rest
      | Some shape =>
          let shape_bounding_rect := get_bounding_rect shape in
          let collision_objs := SpatialQuadTree.retrieve tree shape_bounding_rect in
          let* collisions' :=
            detect_against reg h moved_obj collisions (elements collision_objs) in
          detect_collisions reg h tree collisions' rest
      end
  end.

(** "Handle collisions": both objects of a pair get the callback. *)
Definition handle_collisions (collisions : list Collision) : list CollisionCall :=
  flat_map (fun c => [mkCall c.2.1 c.2.2 c.1; mkCall c.2.2 c.2.1 c.1]) collisions.

(** [Engine.update], for an engine whose [screen] has been assigned, as
    [EngineView] and the benchmarks assign it before the first tick, and
    for [update] and [on_collision] methods that return: the first are
    the functions of [GameClasses], the calls of the second are recorded
    in [calls]. *)
Definition update (w : World) (self : t) (dt : float) : result (World * t) :=
  let '(heap1, objs_moved) :=
    update_objects (heap w) dt (Dict.values (game_objs (cls w))) in
  let* tree := update_tree heap1 (spatial_tree self) objs_moved in
  let* collisions :=
    detect_collisions (collision_detector (cls w)) heap1 tree [] objs_moved in
  Ok (mkWorld (cls w) heap1 (calls w ++ handle_collisions collisions),
      mk (next_obj_id self) tree).
End Tick.
End Engine.

(* ===================================================================== *)
(** * engine/benchmarks/tree_collisions.py *)
(* ===================================================================== *)

(** [QuadTreeEngine(Engine)] overrides registration and the tick; of
    the tick, the detection loop is embedded here, and its two other
    loops are [Engine.handle_collisions] and [Engine.update_tree]. *)
Module QuadTreeEngine.
Section Methods.
Context `{RectCoord}.

Definition add_game_object (w : Engine.World) (self : Engine.t) (obj : ObjRef)
    : result (Engine.World * Engine.t * Z) :=
  let '(w', self', new_id) := Engine.add_game_object w self obj in
  let* tree := SpatialQuadTree.insert (bounding_of (Engine.heap w'))
                 (Engine.spatial_tree self') obj in
  Ok (w', Engine.mk (Engine.next_obj_id self') tree, new_id).

Definition remove_game_object (w : Engine.World) (self : Engine.t) (id : Z)
    : Engine.World * Engine.t :=
  let self' :=
    match Engine.get_game_object_by_id w self id with
    | Some obj =>
        Engine.mk (Engine.next_obj_id self)
          (SpatialQuadTree.remove (bounding_of (Engine.heap w))
             (Engine.spatial_tree self) obj)
    | None => self
    end in
  Engine.remove_game_object w self' id.

(** The candidate loop of the benchmark tick: the dispatcher gets the
    two shapes, and an unsupported pair is skipped. *)
Fixpoint detect_against (reg : CollisionDetector.registry) (h : Heap)
    (moved_obj : ObjRef) (shape_a : CollisionShape)
    (collisions : list Engine.Collision) (candidates : list ObjRef)
    : result (list Engine.Collision) :=
  match candidates with
  | [] => Ok collisions
  | other_obj :: rest =>
      if Nat.eqb moved_obj other_obj || negb (is_collidable (h other_obj))
      then detect_against reg h moved_obj shape_a collisions rest
      else
        match collision_shape (h other_obj) with
        | None => detect_against reg h moved_obj shape_a collisions rest
        | Some shape_b =>
            let* collision :=
              try_except
                (CollisionDetector.detect reg (VShape shape_a) (VShape shape_b))
                NotImplementedError (Ok None) in
            match collision with
            | None => detect_against reg h moved_obj shape_a collisions rest
            | Some c =>
                detect_against reg h moved_obj shape_a
                  (collisions ++ [(c, (moved_obj, other_obj))]) rest
            end
        end
  end.

Fixpoint detect_collisions (reg : CollisionDetector.registry) (h : Heap)
    (tree : SpatialQuadTree.t) (collisions : list Engine.Collision)
    (objs_moved : list ObjRef) : result (list Engine.Collision) :=
  match objs_moved with
  | [] => Ok collisions
  | moved_obj :: rest =>
      match collision_shape (h moved_obj) with
      | None => detect_collisions reg h tree collisions rest
      | Some shape_a =>
          let candidates := SpatialQuadTree.retrieve tree (get_bounding_rect shape_a) in
          let* collisions' :=
            detect_against reg h moved_obj shape_a collisions (elements candidates) in
          detect_collisions reg h tree collisions' rest
      end
  end.

End Methods.
End QuadTreeEngine.

(* ===================================================================== *)
(** * Sample objects and worlds *)
(* ===================================================================== *)

Module Samples.
(** The C cast [(int)f] on finite values in range: truncation toward
    zero. *)
Definition c_int_cast : RectCoord := fun f =>
  match Prim2SF f with
  | S754_finite s m e =>
      let v := if 0 <=? e then Z.pos m * 2 ^ e else Z.quot (Z.pos m) (2 ^ (- e)) in
      if s then - v else v
  | _ => 0
  end.

(** [DummyGameObject] of the benchmarks is class 0: its [update]
    always reports a move and changes nothing. Objects of any other
    class here behave like [Wall]: [update] returns [None]. *)
Definition classes : GameClasses := fun cls g dt =>
  match cls with
  | O => (g, Some (mkUpdateRes true))
  | _ => (g, None)
  end.

(** [DummyGameObject(pos, radius, obj_type)] *)
Definition DummyGameObject (pos : Vector2.t) (radius : float) (obj_type : Z) : GameObject :=
  mkGameObject 0 0 obj_type true (Some (Circle (CircleShape.mk pos radius))).

(** An object without a collision shape, used for unallocated identities. *)
Definition no_object : GameObject := mkGameObject 0 1 0 false None.

Definition world_bounds : Rect.t := Rect.mk 0 0 1024 1024.

(** Two overlapping dummies, identities 1 and 2. *)
Definition dummy_a : GameObject := DummyGameObject (Vector2.mk 100 100) 10 1.
Definition dummy_b : GameObject := DummyGameObject (Vector2.mk 105 100) 10 1.

Definition two_dummies : Heap := fun ref =>
  match ref with
  | 1%nat => dummy_a
  | 2%nat => dummy_b
  | _ => no_object
  end.

(** Stand-ins for the nine detection functions that are parameters of
    this development, for statements that do not depend on what a
    handler answers. *)
Definition no_contact : Handler := fun _ _ => Ok None.
Definition stand_in_detectors : Detectors :=
  mkDetectors no_contact no_contact no_contact no_contact no_contact
              no_contact no_contact no_contact no_contact.

Definition fresh_world (d : Detectors) : Engine.World :=
  Engine.mkWorld (Engine.class_init d) two_dummies [].

(** A circle of radius 5 centred at [(30, 40)], identity 1, and an index
    that stores it. *)
Definition ray_target : GameObject := DummyGameObject (Vector2.mk 30 40) 5 1.
Definition ray_heap : Heap := fun ref =>
  match ref with
  | 1%nat => ray_target
  | _ => no_object
  end.
Definition ray_tree : SpatialQuadTree.t :=
  SpatialQuadTree.set_objects
    (SpatialQuadTree.init_default (Rect.mk (-64) (-64) 128 128)) {[ 1%nat ]}.

(** One engine instance on a fresh class object; object 1 registered;
    then one tick. *)
Definition engine0 : Engine.t := Engine.init world_bounds.

Definition registered_one (d : Detectors) : Engine.World * Engine.t * Z :=
  Engine.add_game_object (fresh_world d) engine0 1%nat.

Definition registered_two (d : Detectors) : Engine.World * Engine.t * Z :=
  Engine.add_game_object (registered_one d).1.1 (registered_one d).1.2 2%nat.

Definition ticked_once (d : Detectors) (dt : float) : result (Engine.World * Engine.t) :=
  @Engine.update c_int_cast classes (registered_one d).1.1 (registered_one d).1.2 dt.

(** The index over [world_bounds] after object 1 was inserted while its
    bounding rectangle was [old_rect]; the object then moves to
    [new_rect], or out of the region to [far_rect]. *)
Definition old_rect : Rect.t := Rect.mk 10 10 20 20.
Definition new_rect : Rect.t := Rect.mk 500 500 20 20.
Definition far_rect : Rect.t := Rect.mk 2000 2000 20 20.

Definition placed (rect : Rect.t) : ObjRef -> option Rect.t := fun ref =>
  match ref with
  | 1%nat => Some rect
  | _ => None
  end.

Definition index_one : SpatialQuadTree.t :=
  SpatialQuadTree.set_objects (SpatialQuadTree.init_default world_bounds) {[ 1%nat ]}.

(** Two objects in an index of capacity one: object 1 in the north-west
    corner, object 2 in the south-east corner; then object 1 moves next
    to object 2. *)
Definition two_placed (rect1 : Rect.t) : ObjRef -> option Rect.t := fun ref =>
  match ref with
  | 1%nat => Some rect1
  | 2%nat => Some (Rect.mk 600 600 20 20)
  | _ => None
  end.

Definition small_index : SpatialQuadTree.t := SpatialQuadTree.init world_bounds 1 5 0.

(** A region of odd width and height, capacity one, one level. *)
Definition odd_index : SpatialQuadTree.t := SpatialQuadTree.init (Rect.mk 0 0 3 3) 1 1 0.
Definition odd_placed : ObjRef -> option Rect.t := fun ref =>
  match ref with
  | 1%nat => Some (Rect.mk 0 0 1 1)
  | 2%nat => Some (Rect.mk 2 2 1 1)
  | _ => None
  end.

(** Rectangles for the rectangle pair test. *)
Definition tall_rect : RectShape.t := RectShape.init (Rect.mk 0 0 2 4).
Definition square_a : RectShape.t := RectShape.init (Rect.mk 0 0 4 4).
Definition square_b : RectShape.t := RectShape.init (Rect.mk 3 1 4 4).


Definition static_body : PhysicsBody.t :=
  PhysicsBody.mk (Vector2.mk 3 4) (Vector2.mk 1 0) Vector2.zero 2
                 0x1.999999999999ap-4 0x1.999999999999ap-3 true
                 0 0 0x1.999999999999ap-4 false (Vector2.mk 5 6) 0 0.
End Samples.

(* ===================================================================== *)
(** * Notions used in the statements *)
(* ===================================================================== *)

(** Two floats are the same value when they are bit-identical or compare
    equal (the two zeros). *)
Definition same_value (u v : float) : Prop := u = v \/ PrimFloat.eqb u v = true.

(** The closed intervals [[a1, a2]] and [[b1, b2]] share a point. *)
Definition intervals_meet (a1 a2 b1 b2 : Z) : Prop :=
  exists p, (a1 <= p <= a2) /\ (b1 <= p <= b2).

Definition overlap_on_x (a b : Rect.t) : Prop :=
  intervals_meet (Rect.left a) (Rect.right a) (Rect.left b) (Rect.right b).
Definition overlap_on_y (a b : Rect.t) : Prop :=
  intervals_meet (Rect.top a) (Rect.bottom a) (Rect.top b) (Rect.bottom b).

(** [n' == -n] as pygame compares vectors. *)
Definition mirrored (n n' : Vector2.t) : Prop := Vector2.ne n' (Vector2.neg n) = false.

(** The overlap measured in the direction opposite to the one
    [rect_intersects_rect] selects. *)
Definition opposite_overlap (s1 s2 : RectShape.t) : Z :=
  match min_idx s1 s2 with
  | 0%nat => right_overlap s1 s2
  | 1%nat => left_overlap s1 s2
  | 2%nat => bottom_overlap s1 s2
  | _ => top_overlap s1 s2
  end.

(** Closes a decidable closed goal by evaluating its decision procedure. *)
Ltac by_computation :=
  match goal with
  | |- ?P => apply (bool_decide_unpack P); vm_compute; exact I
  end.

(* ===================================================================== *)
(** * Shape of a spatial index *)
(* ===================================================================== *)

Module IndexShape.
Import SpatialQuadTree.

Definition rect_eqb (a b : Rect.t) : bool :=
  (Rect.x a =? Rect.x b) && (Rect.y a =? Rect.y b)
  && (Rect.width a =? Rect.width b) && (Rect.height a =? Rect.height b).

(** The region [split] gives to child [i] of a node with region [b]. *)
Definition quadrant (b : Rect.t) (i : Z) : Rect.t :=
  let sub_width := Rect.width b / 2 in
  let sub_height := Rect.height b / 2 in
  if i =? 0 then Rect.mk (Rect.x b + sub_width) (Rect.y b) sub_width sub_height
  else if i =? 1 then Rect.mk (Rect.x b) (Rect.y b) sub_width sub_height
  else if i =? 2 then Rect.mk (Rect.x b) (Rect.y b + sub_height) sub_width sub_height
  else Rect.mk (Rect.x b + sub_width) (Rect.y b + sub_height) sub_width sub_height.

(** Child [i] is what [split] of a node with these fields creates, up
    to its contents. *)
Definition child_ok (b : Rect.t) (mo ml l : Z) (i : Z) (c : t) : bool :=
  rect_eqb (bounds c) (quadrant b i)
  && (max_objects c =? mo) && (max_levels c =? ml) && (level c =? l + 1).

(** The shape every index has that was built by the constructor and
    modified by [insert], [remove] and [update_object] only: a node has
    either no child or all four, created by [split] below the level
    limit. *)
Fixpoint well_formed (self : t) : bool :=
  match self with
  | mk b mo ml l objs n0 n1 n2 n3 vm hm =>
      match n0, n1, n2, n3 with
      | None, None, None, None => true
      | Some c0, Some c1, Some c2, Some c3 =>
          (l <? ml)
          && (vm =? Rect.x b + Rect.width b / 2)
          && (hm =? Rect.y b + Rect.height b / 2)
          && child_ok b mo ml l 0 c0 && child_ok b mo ml l 1 c1
          && child_ok b mo ml l 2 c2 && child_ok b mo ml l 3 c3
          && well_formed c0 && well_formed c1 && well_formed c2 && well_formed c3
      | _, _, _, _ => false
      end
  end.

Definition has_children (self : t) : Prop := node0 self <> None.

(** The region has positive width and height, both multiples of two to
    the number of levels left below the node, so that halving never
    leaves a remainder. *)
Definition aligned (self : t) : bool :=
  let k := Z.max 0 (max_levels self - level self) in
  (0 <? Rect.width (bounds self)) && (0 <? Rect.height (bounds self))
  && (Rect.width (bounds self) mod 2 ^ k =? 0)
  && (Rect.height (bounds self) mod 2 ^ k =? 0).
End IndexShape.

Module IndexRel.
Import SpatialQuadTree.

(** Two nodes with the same region, limits and level. *)
Definition same_frame (a b : t) : Prop :=
  bounds a = bounds b /\ max_objects a = max_objects b
  /\ max_levels a = max_levels b /\ level a = level b.

(** Every object that a query over its own bounding rectangle finds in
    [a] is found by the same query in [b]. *)
Definition keeps (bounding : ObjRef -> option Rect.t) (a b : t) : Prop :=
  forall obj rect,
    bounding obj = Some rect -> 0 <= Rect.width rect -> 0 <= Rect.height rect ->
    obj ∈ retrieve a rect -> obj ∈ retrieve b rect.

(** A query over the bounding rectangle of [obj] finds [obj] in [a]
    whenever that rectangle meets [region]. *)
Definition finds (bounding : ObjRef -> option Rect.t) (region : Rect.t) (a : t)
    (obj : ObjRef) : Prop :=
  forall rect,
    bounding obj = Some rect -> 0 <= Rect.width rect -> 0 <= Rect.height rect ->
    Rect.colliderect region rect = true -> obj ∈ retrieve a rect.

(** Every bounding rectangle the index can read lies in the C int
    range, where the edge sums of the embedding are the ones pygame
    forms. *)
Definition boxes_fit (bounding : ObjRef -> option Rect.t) : Prop :=
  forall obj rect, bounding obj = Some rect -> Rect.fits rect = true.

(** What one call of [insert] with recursion budget [depth] achieves on
    a well-formed, aligned node whose remaining levels fit the budget:
    it returns a node of the same frame and shape that finds the
    inserted object and keeps the others. *)
Definition insert_ok (bounding : ObjRef -> option Rect.t) (depth : nat) : Prop :=
  forall node obj,
    IndexShape.well_formed node = true -> IndexShape.aligned node = true ->
    (Z.to_nat (max_levels node - level node) < depth)%nat ->
    exists node',
      insert_within bounding depth node obj = Ok node'
      /\ same_frame node node' /\ IndexShape.well_formed node' = true
      /\ finds bounding (bounds node) node' obj
      /\ keeps bounding node node'.

(** The indexes a program can hold: made by the constructor over an
    aligned region, then changed through [insert], [remove] and
    [update_object] only, the objects moving freely in between. *)
Inductive built : t -> Prop :=
  | built_init region mo ml :
      IndexShape.aligned (init region mo ml 0) = true -> built (init region mo ml 0)
  | built_insert bounding self obj self' :
      built self -> insert bounding self obj = Ok self' -> built self'
  | built_remove bounding self obj :
      built self -> built (remove bounding self obj)
  | built_update bounding self obj self' :
      built self -> update_object bounding self obj = Ok self' -> built self'.
End IndexRel.

(* ===================================================================== *)
(** * Further notions *)
(* ===================================================================== *)

(** The classes of the four shapes. *)
Definition shape_type (shape : CollisionShape) : pytype := type_of (VShape shape).

(** A registry none of whose keys names a [GameObject] subclass on both
    sides. *)
Definition shape_keys_only (reg : CollisionDetector.registry) : Prop :=
  forall c1 c2, reg !! (GameObjectT c1, GameObjectT c2) = None.

(** What the registry built from [default_detectors] answers for two
    shapes: each detection function receives the shape of its first
    declared kind first; a pair of one kind is passed in swapped order,
    since the mirrored entry is stored last under the same key. *)
Definition dispatch_table (d : Detectors) (s1 s2 : CollisionShape)
    : result (option CollisionInfo) :=
  let a := VShape s1 in
  let b := VShape s2 in
  match s1, s2 with
  | Circle _, Circle _ => circle_intersects_circle d b a
  | Rectangle _, Circle _ => rect_intersects_circle d a b
  | Circle _, Rectangle _ => rect_intersects_circle d b a
  | Line _, Circle _ => line_intersects_circle d a b
  | Circle _, Line _ => line_intersects_circle d b a
  | Polygon _, Circle _ => polygon_intersects_circle d a b
  | Circle _, Polygon _ => polygon_intersects_circle d b a
  | Rectangle r1, Rectangle r2 => Ok (rect_intersects_rect r2 r1)
  | Rectangle _, Line _ => rect_intersects_line d a b
  | Line _, Rectangle _ => rect_intersects_line d b a
  | Rectangle _, Polygon _ => rect_intersects_polygon d a b
  | Polygon _, Rectangle _ => rect_intersects_polygon d b a
  | Line _, Line _ => line_intersects_line d b a
  | Line _, Polygon _ => line_intersects_polygon d a b
  | Polygon _, Line _ => line_intersects_polygon d b a
  | Polygon _, Polygon _ => polygon_intersects_polygon d b a
  end.



(** A moved object has no shape, or a query of the index over its
    bounding rectangle returns nothing but the object itself. *)
Definition alone_in_index `{RectCoord} (h : Heap) (tree : SpatialQuadTree.t)
    (moved_obj : ObjRef) : bool :=
  match collision_shape (h moved_obj) with
  | None => true
  | Some shape =>
      forallb (Nat.eqb moved_obj)
        (elements (SpatialQuadTree.retrieve tree (get_bounding_rect shape)))
  end.

(** The loop of [raycast] without its [break]: every candidate is
    examined, in the order of the iteration. *)
Fixpoint collect_hits (heap : Heap) (origin direction : Vector2.t) (max_distance : float)
    (ignore_obj_tpyes : gset Z) (potential_objects : list ObjRef)
    : result (list (ObjRef * RaycastHit)) :=
  match potential_objects with
  | [] => Ok []
  | obj :: rest =>
      let continue := collect_hits heap origin direction max_distance ignore_obj_tpyes rest in
      if bool_decide (obj_type (heap obj) ∈ ignore_obj_tpyes) then continue
      else if negb (is_collidable (heap obj)) then continue
      else
        match collision_shape (heap obj) with
        | None => continue
        | Some shape =>
            let* hit := intersects_ray shape origin direction max_distance in
            let* later := continue in
            Ok (match hit with
                | Some h => (obj, h) :: later
                | None => later
                end)
        end
  end.

(** Classes of float values used below. *)
Definition sf_not_positive (x : spec_float) : Prop :=
  match x with
  | S754_infinity false | S754_finite false _ _ => False
  | _ => True
  end.

Definition sf_negative (x : spec_float) : Prop :=
  match x with
  | S754_zero _ | S754_infinity true | S754_finite true _ _ => True
  | _ => False
  end.

(** [a] and [d] are opposite values: both NaN, both a zero, or one the
    sign flip of the other. *)
Definition sf_opposite (a d : spec_float) : Prop :=
  (a = S754_nan /\ d = S754_nan)
  \/ (exists s s', a = S754_zero s /\ d = S754_zero s')
  \/ d = SFopp a.

(** The determinant [a = line_dir.dot(h)] of the ray/segment test. *)
Definition ray_determinant (v1 v2 direction : Vector2.t) : float :=
  Vector2.dot (Vector2.sub v2 v1)
    (Vector2.mk (PrimFloat.opp (Vector2.y direction)) (Vector2.x direction)).

Definition sf_zero_or_nan (x : spec_float) : Prop :=
  match x with
  | S754_zero _ | S754_nan => True
  | _ => False
  end.

(* ===================================================================== *)
(** * Notions for the spatial index as a whole *)
(* ===================================================================== *)

Module IndexCover.
Import SpatialQuadTree.

(** [clear()]: the local set is emptied, each child is cleared and its
    slot set to [None]. *)
Fixpoint clear (self : t) : t :=
  match self with
  | mk b mo ml l objs n0 n1 n2 n3 vm hm =>
      let drop (n : option t) : option t :=
        match n with
        | None => None
        | Some node => let _ := clear node in None
        end in
      mk b mo ml l ∅ (drop n0) (drop n1) (drop n2) (drop n3) vm hm
  end.

(** Every object stored in some node of the index. *)
Fixpoint all_objects (self : t) : gset ObjRef :=
  match self with
  | mk b mo ml l objs n0 n1 n2 n3 vm hm =>
      let rec (n : option t) : gset ObjRef :=
        match n with
        | None => ∅
        | Some node => all_objects node
        end in
      objs ∪ rec n0 ∪ rec n1 ∪ rec n2 ∪ rec n3
  end.

(** Every node stores only objects whose bounding rectangle, as
    [bounding] gives it, meets the region of the node. *)
Fixpoint tidy (bounding : ObjRef -> option Rect.t) (self : t) : Prop :=
  match self with
  | mk b mo ml l objs n0 n1 n2 n3 vm hm =>
      let rec (n : option t) : Prop :=
        match n with
        | None => True
        | Some node => tidy bounding node
        end in
      (forall o, o ∈ objs ->
         exists r, bounding o = Some r /\ Rect.colliderect b r = true)
      /\ rec n0 /\ rec n1 /\ rec n2 /\ rec n3
  end.

(** A rectangle of non-negative width and height whose fields and edges
    lie in the C int range. *)
Definition proper (r : Rect.t) : Prop :=
  0 <= Rect.width r /\ 0 <= Rect.height r /\ Rect.fits r = true.

(** The index answers for [obj]: every query that meets the region of
    the index and overlaps the bounding rectangle of [obj] returns
    [obj], provided that rectangle meets the region. *)
Definition answers (bounding : ObjRef -> option Rect.t) (a : t) (obj : ObjRef) : Prop :=
  forall r q,
    bounding obj = Some r -> proper r -> proper q ->
    Rect.colliderect (bounds a) r = true ->
    Rect.colliderect (bounds a) q = true ->
    Rect.colliderect r q = true ->
    obj ∈ retrieve a q.

(** Whatever a query overlapping an object's rectangle returned from
    [a], it returns from [b]. *)
Definition retains (bounding : ObjRef -> option Rect.t) (a b : t) : Prop :=
  forall obj r q,
    bounding obj = Some r -> proper r -> proper q ->
    Rect.colliderect r q = true ->
    obj ∈ retrieve a q -> obj ∈ retrieve b q.

(** One call of [insert] with recursion budget [depth] on a well-formed,
    aligned and tidy node. *)
Definition insert_covers (bounding : ObjRef -> option Rect.t) (depth : nat) : Prop :=
  forall node obj,
    IndexShape.well_formed node = true -> IndexShape.aligned node = true ->
    tidy bounding node ->
    (Z.to_nat (max_levels node - level node) < depth)%nat ->
    exists node',
      insert_within bounding depth node obj = Ok node'
      /\ IndexRel.same_frame node node' /\ IndexShape.well_formed node' = true
      /\ tidy bounding node'
      /\ answers bounding node' obj
      /\ retains bounding node node'
      /\ all_objects node' ⊆ {[obj]} ∪ all_objects node.

(** The indexes grown from the constructor over an aligned region by
    [insert], [remove], [update_object] and [clear] while the objects
    keep their places,
    together with the set of objects inserted and not removed since. *)
Inductive grown (bounding : ObjRef -> option Rect.t) : gset ObjRef -> t -> Prop :=
  | grown_init region mo ml :
      IndexShape.aligned (init region mo ml 0) = true ->
      grown bounding ∅ (init region mo ml 0)
  | grown_insert present self obj self' :
      grown bounding present self -> insert bounding self obj = Ok self' ->
      grown bounding ({[obj]} ∪ present) self'
  | grown_remove present self obj :
      grown bounding present self ->
      grown bounding (present ∖ {[obj]}) (remove bounding self obj)
  | grown_update present self obj self' :
      grown bounding present self -> update_object bounding self obj = Ok self' ->
      grown bounding ({[obj]} ∪ present) self'
  | grown_clear present self :
      grown bounding present self -> grown bounding ∅ (clear self).
End IndexCover.


Definition sf_zero (x : spec_float) : Prop :=
  match x with
  | S754_zero _ => True
  | _ => False
  end.

Definition sf_finite (x : spec_float) : Prop :=
  match x with
  | S754_zero _ | S754_finite _ _ _ => True
  | _ => False
  end.

(** A vector both of whose coordinates compare equal to zero. *)
Definition is_zero_vector (v : Vector2.t) : bool :=
  PrimFloat.eqb (Vector2.x v) 0 && PrimFloat.eqb (Vector2.y v) 0.

(** A body that is not static, does not rotate, has no velocity and no
    accumulated force, and whose position and coefficients are finite. *)
Definition at_rest (b : PhysicsBody.t) : Prop :=
  PhysicsBody.is_static b = false
  /\ PhysicsBody.enable_rotation b = false
  /\ is_zero_vector (PhysicsBody.velocity b) = true
  /\ is_zero_vector (PhysicsBody.forces b) = true
  /\ PyFloat.is_finite (PhysicsBody.inverse_mass b) = true
  /\ PyFloat.is_finite (PhysicsBody.friction b) = true
  /\ PyFloat.is_finite (PhysicsBody.drag b) = true
  /\ PyFloat.is_finite (Vector2.x (PhysicsBody.position b)) = true
  /\ PyFloat.is_finite (Vector2.y (PhysicsBody.position b)) = true.

(* ===================================================================== *)
(** * engine/collision.py: the circle pair test *)
(* ===================================================================== *)

Module Collision.
Local Open Scope float_scope.

Definition circle_intersects_circle (s1 s2 : CircleShape.t)
    : result (option CollisionInfo) :=
  let distance_vector := Vector2.sub (CircleShape.position s2) (CircleShape.position s1) in
  let distance := Vector2.length distance_vector in
  let combined_radius := CircleShape.radius s1 + CircleShape.radius s2 in
  if combined_radius <? distance then Ok None
  else
    let* np :=
      (if distance <? 0x1.0c6f7a0b5ed8dp-20
       then Ok (Vector2.mk 1 0, combined_radius)
       else
         let* normal := Vector2.div distance_vector distance in
         Ok (normal, combined_radius - distance)) in
    let contact_point :=
      Vector2.add (CircleShape.position s1) (Vector2.scale np.1 (CircleShape.radius s1)) in
    Ok (Some (mkCollisionInfo [contact_point] np.1 (Float np.2))).

(** The distance of the centres and the sum of the radii, as the test
    computes them. *)
Definition centre_distance (s1 s2 : CircleShape.t) : float :=
  Vector2.length (Vector2.sub (CircleShape.position s2) (CircleShape.position s1)).
Definition combined_radius (s1 s2 : CircleShape.t) : float :=
  CircleShape.radius s1 + CircleShape.radius s2.
End Collision.


(** What makes a pair [(obj, hit)] a genuine hit of the ray on one of
    the [candidates]. *)
Definition genuine_hit (heap : Heap) (origin direction : Vector2.t) (max_distance : float)
    (ignore_obj_tpyes : gset Z) (candidates : gset ObjRef)
    (x : ObjRef * RaycastHit) : Prop :=
  x.1 ∈ candidates
  /\ (obj_type (heap x.1) ∉ ignore_obj_tpyes)
  /\ is_collidable (heap x.1) = true
  /\ exists shape,
       collision_shape (heap x.1) = Some shape
       /\ intersects_ray shape origin direction max_distance = Ok (Some x.2)
       /\ forall p, shape <> Polygon p.

(* ===================================================================== *)
(** * engine/primitives.py: points on a line; engine/spatial.py: radius queries *)
(* ===================================================================== *)

Module Vector2More.
Local Open Scope float_scope.
(** [a.cross(b)] and [a.length_squared()] of pygame. *)
Definition cross (a b : Vector2.t) : float :=
  Vector2.x a * Vector2.y b - Vector2.y a * Vector2.x b.
Definition length_squared (a : Vector2.t) : float :=
  Vector2.x a * Vector2.x a + Vector2.y a * Vector2.y a.
End Vector2More.

Module LineShapeMore.
Local Open Scope float_scope.

(** [LineShape.contains_point] *)
Definition contains_point (self : LineShape.t) (point : Vector2.t) : bool :=
  let line := Vector2.sub (LineShape.end_ self) (LineShape.start self) in
  let to_point := Vector2.sub point (LineShape.start self) in
  let cross := PrimFloat.abs (Vector2More.cross line to_point) in
  if 0x1.0c6f7a0b5ed8dp-20 <? cross then false
  else
    let dot := Vector2.dot to_point line in
    if (dot <? 0) || (Vector2More.length_squared line <? dot) then false
    else true.
End LineShapeMore.

(** [shape.position], set by the constructor of each shape class. *)
Definition shape_position (shape : CollisionShape) : Vector2.t :=
  match shape with
  | Circle s => CircleShape.position s
  | Rectangle s => RectShape.position s
  | Polygon s => PolygonShape.position s
  | Line s => LineShape.position s
  end.

Module RadiusQuery.
Local Open Scope float_scope.

(** The test of the set comprehension in [retrieve_in_radius]. *)
Definition within (heap : Heap) (center : Vector2.t) (radius : float) (obj : ObjRef) : bool :=
  match collision_shape (heap obj) with
  | None => false
  | Some shape => Vector2.length (Vector2.sub (shape_position shape) center) <=? radius
  end.

Definition query_rect `{RectCoord} (center : Vector2.t) (radius : float) : Rect.t :=
  Rect_of_floats (Vector2.x center - radius) (Vector2.y center - radius)
                 (radius * 2) (radius * 2).

(** [SpatialQuadTree.retrieve_in_radius] *)
Definition retrieve_in_radius `{RectCoord} (heap : Heap) (self : SpatialQuadTree.t)
    (center : Vector2.t) (radius : float) : gset ObjRef :=
  let candidates := SpatialQuadTree.retrieve self (query_rect center radius) in
  filter (fun obj => within heap center radius obj = true) candidates.
End RadiusQuery.

Definition sf_not_negative (x : spec_float) : Prop :=
  match x with
  | S754_infinity true | S754_finite true _ _ => False
  | _ => True
  end.

(* ===================================================================== *)
(** * engine/collision.py: polygon against circle *)
(* ===================================================================== *)

Module PolygonCircle.
Local Open Scope float_scope.

(** The loop state: [min_penetration], [collision_normal],
    [contact_point]. *)
Definition state : Type := float * Vector2.t * Vector2.t.

(** "Project polygon onto normal": starts from the first vertex of the
    edge and visits [s1.vertices[1:]]. *)
Definition project (normal v1 : Vector2.t) (others : list Vector2.t) : float * float :=
  fold_left
    (fun (mm : float * float) vertex =>
       let proj := Vector2.dot vertex normal in
       (PyFloat.min mm.1 proj, PyFloat.max mm.2 proj))
    others (Vector2.dot v1 normal, Vector2.dot v1 normal).

(** One iteration of the edge loop; [None] is the early [return None]. *)
Definition edge_step (s1 : PolygonShape.t) (s2 : CircleShape.t) (st : state)
    (e : Vector2.t * Vector2.t) : result (option state) :=
  let '(v1, v2) := e in
  let edge := Vector2.sub v2 v1 in
  let* normal := Vector2.normalize (Vector2.mk (- Vector2.y edge) (Vector2.x edge)) in
  let '(poly_min, poly_max) := project normal v1 (tl (PolygonShape.vertices s1)) in
  let circle_center_proj := Vector2.dot (CircleShape.position s2) normal in
  let circle_min := circle_center_proj - CircleShape.radius s2 in
  let circle_max := circle_center_proj + CircleShape.radius s2 in
  if (poly_max <? circle_min) || (circle_max <? poly_min) then Ok None
  else
    let penetration := PyFloat.min (poly_max - circle_min) (circle_max - poly_min) in
    if penetration <? st.1.1 then
      let line_to_circle := Vector2.sub (CircleShape.position s2) v1 in
      let* q := PyFloat.div (Vector2.dot line_to_circle edge)
                            (Vector2More.length_squared edge) in
      let t := PyFloat.max 0 (PyFloat.min 1 q) in
      Ok (Some (penetration, normal, Vector2.add v1 (Vector2.scale edge t)))
    else Ok (Some st).

Fixpoint edge_loop (s1 : PolygonShape.t) (s2 : CircleShape.t) (st : state)
    (es : list (Vector2.t * Vector2.t)) : result (option state) :=
  match es with
  | [] => Ok (Some st)
  | e :: es' =>
      let* r := edge_step s1 s2 st e in
      match r with
      | None => Ok None
      | Some st' => edge_loop s1 s2 st' es'
      end
  end.

(** One iteration of "Check if circle center is closest to a vertex". *)
Definition vertex_step (s2 : CircleShape.t) (st : state) (vertex : Vector2.t)
    : result state :=
  let to_vertex := Vector2.sub vertex (CircleShape.position s2) in
  let distance := Vector2.length to_vertex in
  if distance <? CircleShape.radius s2 then
    let penetration := CircleShape.radius s2 - distance in
    if penetration <? st.1.1 then
      let* collision_normal :=
        (if 0x1.0c6f7a0b5ed8dp-20 <? distance then Vector2.normalize to_vertex
         else Ok (Vector2.mk 1 0)) in
      Ok (penetration, collision_normal, vertex)
    else Ok st
  else Ok st.

Fixpoint vertex_loop (s2 : CircleShape.t) (st : state) (vs : list Vector2.t)
    : result state :=
  match vs with
  | [] => Ok st
  | vertex :: vs' =>
      let* st' := vertex_step s2 st vertex in
      vertex_loop s2 st' vs'
  end.

Definition polygon_intersects_circle (s1 : PolygonShape.t) (s2 : CircleShape.t)
    : result (option CollisionInfo) :=
  let* r := edge_loop s1 s2 (infinity, Vector2.mk 0 0, Vector2.mk 0 0)
              (PolygonShape.edges (PolygonShape.vertices s1)) in
  match r with
  | None => Ok None
  | Some st =>
      let* st' := vertex_loop s2 st (PolygonShape.vertices s1) in
      Ok (Some (mkCollisionInfo [st'.2] st'.1.2 (Float st'.1.1)))
  end.
End PolygonCircle.

(* ===================================================================== *)
(** * Rounding: the place of a quotient between two integers *)
(* ===================================================================== *)

Module Rounding.






End Rounding.


(* ===================================================================== *)
(** * Physics integrator *)
(* ===================================================================== *)

Section PhysicsFacts.
Import PhysicsBody.

(** C7. A static body ignores forces and integration: [apply_force]
    returns the body unchanged (in particular its force buffer), and
    [integrate] reports "did not move" and returns the very same body,
    so its position is bit-identical. *)
Theorem static_body_is_inert (b : PhysicsBody.t) (force : Vector2.t) (dt : float) :
  is_static b = true ->
  forces (apply_force b force) = forces b
  /\ apply_force b force = b
  /\ snd (integrate (apply_force b force) dt) = mkUpdateRes false
  /\ position (fst (integrate (apply_force b force) dt)) = position b
  /\ fst (integrate b dt) = b.
Proof.
  intros Hs. unfold apply_force, integrate. rewrite Hs. cbn [negb fst snd].
  rewrite Hs. cbn [fst snd]. repeat split; reflexivity.
Qed.

Lemma static_body_is_inert_witness :
  is_static Samples.static_body = true
  /\ apply_force Samples.static_body (Vector2.mk 7 7) = Samples.static_body
  /\ snd (integrate (apply_force Samples.static_body (Vector2.mk 7 7)) 1)
     = mkUpdateRes false.
Proof.
  split; [reflexivity |].
  pose proof (static_body_is_inert Samples.static_body (Vector2.mk 7 7) 1 eq_refl)
    as (_ & H2 & H3 & _).
  split; assumption.
Defined.
End PhysicsFacts.

Section FloatFacts.
Local Open Scope float_scope.

Lemma leb_false_eqb_false (m : float) : (m <=? 0) = false -> (m =? 0) = false.
Proof.
  rewrite leb_spec, FloatAxioms.eqb_spec. unfold SFleb, SFeqb.
  destruct (SFcompare (Prim2SF m) (Prim2SF 0)) as [[]|]; congruence.
Qed.

Lemma Prim2SF_zero : Prim2SF 0 = S754_zero false.
Proof. reflexivity. Qed.

Lemma Prim2SF_inj' (u v : float) : Prim2SF u = Prim2SF v -> u = v.
Proof. intros E. rewrite <- (SF2Prim_Prim2SF u), <- (SF2Prim_Prim2SF v), E. reflexivity. Qed.

(** A finite value times zero is a zero. *)
Lemma mul_zero_finite (i : float) :
  PyFloat.is_finite i = true -> exists s, Prim2SF (i * 0) = S754_zero s.
Proof.
  unfold PyFloat.is_finite. intros Hf. rewrite mul_spec, Prim2SF_zero.
  destruct (Prim2SF i) as [s| | |s m e]; try discriminate; cbn; eauto.
Qed.

(** An infinite or NaN value times zero is NaN. *)
Lemma mul_zero_not_finite (i : float) :
  PyFloat.is_finite i = false -> Prim2SF (i * 0) = S754_nan.
Proof.
  unfold PyFloat.is_finite. intros Hf. rewrite mul_spec, Prim2SF_zero.
  destruct (Prim2SF i) as [s| | |s m e]; try discriminate; reflexivity.
Qed.

Lemma add_zero_same (v z : float) (s : bool) :
  Prim2SF z = S754_zero s -> same_value (v + z) v.
Proof.
  intros Hz. unfold same_value.
  destruct (Prim2SF v) as [sv|sv| |sv m e] eqn:Hv.
  - right. rewrite FloatAxioms.eqb_spec, add_spec, Hz, Hv. unfold SF64add, SFadd.
    destruct sv, s; reflexivity.
  - left. apply Prim2SF_inj'. rewrite add_spec, Hz, Hv. reflexivity.
  - left. apply Prim2SF_inj'. rewrite add_spec, Hz, Hv. reflexivity.
  - left. apply Prim2SF_inj'. rewrite add_spec, Hz, Hv. reflexivity.
Qed.

Lemma add_nan (v z : float) : Prim2SF z = S754_nan -> PyFloat.is_nan (v + z) = true.
Proof.
  intros Hz. unfold PyFloat.is_nan. rewrite add_spec, Hz.
  destruct (Prim2SF v); reflexivity.
Qed.
End FloatFacts.

Section InverseMass.
Import PhysicsBody.
Local Open Scope float_scope.

Lemma init_returns (position velocity acceleration : Vector2.t)
    (mass drag friction : float) (is_static : bool)
    (rotation angular_velocity angular_drag : float) (enable_rotation : bool)
    (torque : float) :
  init position velocity acceleration mass drag friction is_static rotation
       angular_velocity angular_drag enable_rotation torque
  = Ok (mk position velocity acceleration mass drag friction is_static rotation
           angular_velocity angular_drag enable_rotation Vector2.zero torque
           (if is_static || (mass <=? 0) then 0 else 1 / mass)).
Proof.
  unfold init. destruct (is_static || (mass <=? 0)) eqn:E; [reflexivity |].
  apply orb_false_iff in E as [_ E]. unfold PyFloat.div.
  rewrite (leb_false_eqb_false _ E). reflexivity.
Qed.

(** C10, as amended. Construction always succeeds and sets
    [inverse_mass] to [0] when the body is static or [mass <= 0], and to
    [1 / mass] otherwise. For a body built with [mass <= 0], static or
    not, [apply_impulse] with an impulse of finite components leaves each
    velocity component the same value (bit-identical, or a zero that
    stays a zero); a component of the impulse that is infinite or NaN
    turns the matching velocity component of a non-static body into NaN. *)
Theorem inverse_mass_and_impulse (position velocity acceleration : Vector2.t)
    (mass drag friction : float) (is_static : bool)
    (rotation angular_velocity angular_drag : float) (enable_rotation : bool)
    (torque : float) :
  exists b,
    init position velocity acceleration mass drag friction is_static rotation
         angular_velocity angular_drag enable_rotation torque = Ok b
    /\ inverse_mass b = (if is_static || (mass <=? 0) then 0 else 1 / mass)
    /\ ((mass <=? 0) = true ->
        forall impulse,
          (PyFloat.is_finite (Vector2.x impulse) = true ->
           same_value (Vector2.x (PhysicsBody.velocity (apply_impulse b impulse)))
                      (Vector2.x velocity))
          /\ (PyFloat.is_finite (Vector2.y impulse) = true ->
              same_value (Vector2.y (PhysicsBody.velocity (apply_impulse b impulse)))
                         (Vector2.y velocity))
          /\ (is_static = false -> PyFloat.is_finite (Vector2.x impulse) = false ->
              PyFloat.is_nan (Vector2.x (PhysicsBody.velocity (apply_impulse b impulse)))
              = true)
          /\ (is_static = false -> PyFloat.is_finite (Vector2.y impulse) = false ->
              PyFloat.is_nan (Vector2.y (PhysicsBody.velocity (apply_impulse b impulse)))
              = true)).
Proof.
  eexists. split; [apply init_returns |]. split; [reflexivity |].
  intros Hm impulse. unfold apply_impulse. cbn [PhysicsBody.is_static inverse_mass].
  rewrite Hm, orb_true_r.
  destruct is_static; cbn [negb set_velocity PhysicsBody.velocity Vector2.add Vector2.scale
                             Vector2.x Vector2.y].
  - repeat split; try (intros; left; reflexivity); intros; discriminate.
  - repeat split.
    + intros Hf. destruct (mul_zero_finite _ Hf) as [s Hs]. eapply add_zero_same, Hs.
    + intros Hf. destruct (mul_zero_finite _ Hf) as [s Hs]. eapply add_zero_same, Hs.
    + intros _ Hf. apply add_nan, mul_zero_not_finite, Hf.
    + intros _ Hf. apply add_nan, mul_zero_not_finite, Hf.
Qed.

(** Against C10 as stated. A massless, non-static body hit by an
    impulse with an infinite component: the velocity does not stay what
    it was. *)
Lemma impulse_on_massless_body_changes_velocity :
  exists b,
    init Vector2.zero (Vector2.mk 1 0) Vector2.zero 0 0 0 false 0 0 0 false 0 = Ok b
    /\ (PhysicsBody.mass b <=? 0) = true
    /\ PhysicsBody.is_static b = false
    /\ PhysicsBody.velocity b = Vector2.mk 1 0
    /\ PhysicsBody.velocity (apply_impulse b (Vector2.mk infinity 0)) = Vector2.mk nan 0
    /\ PhysicsBody.velocity (apply_impulse b (Vector2.mk infinity 0)) <> PhysicsBody.velocity b.
Proof.
  eexists. split; [apply init_returns |].
  repeat split; try reflexivity.
  intros E. apply (f_equal (fun v => Vector2.x v =? 1)) in E. vm_compute in E. discriminate.
Qed.

Lemma inverse_mass_and_impulse_witness :
  exists b,
    init Vector2.zero (Vector2.mk 1 0) Vector2.zero 0 0 0 false 0 0 0 false 0 = Ok b
    /\ same_value (Vector2.x (PhysicsBody.velocity (apply_impulse b (Vector2.mk 3 4)))) 1.
Proof.
  destruct (inverse_mass_and_impulse Vector2.zero (Vector2.mk 1 0) Vector2.zero
              0 0 0 false 0 0 0 false 0) as (b & Hb & _ & H).
  exists b. split; [exact Hb |].
  exact (proj1 (H eq_refl (Vector2.mk 3 4)) eq_refl).
Defined.
End InverseMass.

(* ===================================================================== *)
(** * Polygon construction *)
(* ===================================================================== *)

Section PolygonConstruction.

(** Against C8 as stated. A polygon of two vertices is constructed
    without complaint. *)
Lemma polygon_of_two_vertices_is_accepted :
  PolygonShape.init [Vector2.mk 0 0; Vector2.mk 2 0]
  = Ok (PolygonShape.mk (Vector2.mk 1 0) [Vector2.mk 0 0; Vector2.mk 2 0])
  /\ (List.length [Vector2.mk 0 0; Vector2.mk 2 0] < 3)%nat.
Proof. split; [vm_compute; reflexivity | cbn; lia]. Qed.

(** C8, as amended. [PolygonShape(vertices)] fails at construction time
    exactly for the empty vertex list (the mean divides by zero); every
    non-empty list, also one of one or two vertices, yields a polygon
    that keeps the list as given. *)
Theorem polygon_construction (vertices : list Vector2.t) :
  (vertices = [] -> PolygonShape.init vertices = Raise ZeroDivisionError)
  /\ (vertices <> [] ->
      exists p, PolygonShape.init vertices = Ok p /\ PolygonShape.vertices p = vertices).
Proof.
  unfold PolygonShape.init, Vector2.div_int. split.
  - intros ->. reflexivity.
  - intros Hne. destruct vertices as [|v vs]; [congruence |].
    destruct (Z.eqb_spec (Z.of_nat (List.length (v :: vs))) 0) as [E|_].
    + cbn in E. lia.
    + cbn [bind]. eexists. split; reflexivity.
Qed.

Lemma polygon_construction_witness :
  PolygonShape.init [] = Raise ZeroDivisionError
  /\ exists p, PolygonShape.init [Vector2.mk 1 1] = Ok p
               /\ PolygonShape.vertices p = [Vector2.mk 1 1].
Proof.
  split.
  - apply (proj1 (polygon_construction [])). reflexivity.
  - apply (proj2 (polygon_construction [Vector2.mk 1 1])). discriminate.
Defined.
End PolygonConstruction.

(* ===================================================================== *)
(** * Rectangle against rectangle *)
(* ===================================================================== *)

Section RectRectFacts.

(** Which overlap [min_idx] selects: the first minimal one in the order
    left, right, top, bottom. *)
Lemma min_idx_cases (s1 s2 : RectShape.t) :
  let L := left_overlap s1 s2 in
  let R := right_overlap s1 s2 in
  let T := top_overlap s1 s2 in
  let B := bottom_overlap s1 s2 in
  (min_idx s1 s2 = 0%nat /\ min_penetration s1 s2 = L /\ L <= R /\ L <= T /\ L <= B)
  \/ (min_idx s1 s2 = 1%nat /\ min_penetration s1 s2 = R /\ R < L /\ R <= T /\ R <= B)
  \/ (min_idx s1 s2 = 2%nat /\ min_penetration s1 s2 = T /\ T < L /\ T < R /\ T <= B)
  \/ (min_idx s1 s2 = 3%nat /\ min_penetration s1 s2 = B /\ B < L /\ B < R /\ B < T).
Proof.
  cbv zeta. unfold min_idx, min_penetration, int_list_min, list_index, fold_left.
  generalize (left_overlap s1 s2) (right_overlap s1 s2) (top_overlap s1 s2) (bottom_overlap s1 s2).
  intros L R T B.
  repeat match goal with
         | |- context [?a <? ?b] => destruct (Z.ltb_spec a b)
         | |- context [?a =? ?b] => destruct (Z.eqb_spec a b)
         | H : context [?a <? ?b] |- _ => destruct (Z.ltb_spec a b)
         end; try lia.
  all: first [ left; repeat split; (reflexivity || lia)
        | right; left; repeat split; (reflexivity || lia)
        | right; right; left; repeat split; (reflexivity || lia)
        | right; right; right; repeat split; (reflexivity || lia) ].
Qed.

Lemma swapped_overlaps (s1 s2 : RectShape.t) :
  left_overlap s2 s1 = right_overlap s1 s2
  /\ right_overlap s2 s1 = left_overlap s1 s2
  /\ top_overlap s2 s1 = bottom_overlap s1 s2
  /\ bottom_overlap s2 s1 = top_overlap s1 s2.
Proof. repeat split; reflexivity. Qed.

(** The normal returned is determined by [min_idx]. *)
Lemma rect_normal (s1 s2 : RectShape.t) (ci : CollisionInfo) :
  rect_intersects_rect s1 s2 = Some ci ->
  penetration ci = Int (min_penetration s1 s2)
  /\ normal ci = match min_idx s1 s2 with
                 | 0%nat => Vector2.mk (-1) 0
                 | 1%nat => Vector2.mk 1 0
                 | 2%nat => Vector2.mk 0 (-1)
                 | _ => Vector2.mk 0 1
                 end.
Proof.
  unfold rect_intersects_rect.
  destruct (_ || _ || _ || _); [discriminate |].
  destruct (min_idx s1 s2) as [|[|[|n]]]; intros E; injection E as <-; split; reflexivity.
Qed.

Lemma rect_none_iff_test (s1 s2 : RectShape.t) :
  let r1 := RectShape.rect s1 in
  let r2 := RectShape.rect s2 in
  rect_intersects_rect s1 s2 = None <->
  (Rect.right r1 < Rect.left r2 \/ Rect.right r2 < Rect.left r1
   \/ Rect.bottom r1 < Rect.top r2 \/ Rect.bottom r2 < Rect.top r1).
Proof.
  intros r1 r2. unfold rect_intersects_rect, Rect.right, Rect.left, Rect.bottom, Rect.top.
  fold r1 r2.
  destruct (Z.ltb_spec (Rect.x r1 + Rect.width r1) (Rect.x r2));
  destruct (Z.ltb_spec (Rect.x r2 + Rect.width r2) (Rect.x r1));
  destruct (Z.ltb_spec (Rect.y r1 + Rect.height r1) (Rect.y r2));
  destruct (Z.ltb_spec (Rect.y r2 + Rect.height r2) (Rect.y r1));
  cbn [orb]; try (split; [intros _; lia | reflexivity]).
  destruct (min_idx s1 s2) as [|[|[|n]]]; (split; [discriminate | lia]).
Qed.

(** Against C5 as stated. Two identical rectangles: both argument
    orders return the normal [(-1, 0)], which is not its own mirror
    image. *)
Lemma rect_swap_keeps_normal_on_tie :
  exists ci,
    rect_intersects_rect Samples.tall_rect Samples.tall_rect = Some ci
    /\ normal ci = Vector2.mk (-1) 0
    /\ ~ mirrored (normal ci) (normal ci).
Proof.
  eexists. split; [vm_compute; reflexivity |]. split; [reflexivity |].
  unfold mirrored. vm_compute. discriminate.
Qed.

(** C5, as amended. For rectangles of non-negative width and height,
    [rect_intersects_rect] returns none exactly when the boxes fail to
    overlap on the x axis or on the y axis. Otherwise the penetration is
    the minimum of the four directional overlaps, the swapped call also
    reports a collision with the same penetration, and its normal is the
    mirrored one exactly when the selected overlap is strictly smaller
    than the overlap in the opposite direction; on such a tie both calls
    return the same normal. *)
Theorem rect_intersects_rect_spec (s1 s2 : RectShape.t) :
  let r1 := RectShape.rect s1 in
  let r2 := RectShape.rect s2 in
  0 <= Rect.width r1 -> 0 <= Rect.height r1 ->
  0 <= Rect.width r2 -> 0 <= Rect.height r2 ->
  (rect_intersects_rect s1 s2 = None <-> ~ (overlap_on_x r1 r2 /\ overlap_on_y r1 r2))
  /\ (forall ci, rect_intersects_rect s1 s2 = Some ci ->
        let m := min_penetration s1 s2 in
        penetration ci = Int m
        /\ m <= left_overlap s1 s2 /\ m <= right_overlap s1 s2
        /\ m <= top_overlap s1 s2 /\ m <= bottom_overlap s1 s2
        /\ (m = left_overlap s1 s2 \/ m = right_overlap s1 s2
            \/ m = top_overlap s1 s2 \/ m = bottom_overlap s1 s2)
        /\ exists ci',
             rect_intersects_rect s2 s1 = Some ci'
             /\ penetration ci' = penetration ci
             /\ (mirrored (normal ci) (normal ci') <-> m < opposite_overlap s1 s2)
             /\ (m = opposite_overlap s1 s2 -> normal ci' = normal ci)).
Proof.
  intros r1 r2 Hw1 Hh1 Hw2 Hh2. split.
  - rewrite rect_none_iff_test. fold r1 r2.
    unfold overlap_on_x, overlap_on_y, intervals_meet,
      Rect.right, Rect.left, Rect.bottom, Rect.top. split.
    + intros Hsep [[p Hp] [q Hq]]. lia.
    + intros Hno.
      destruct (Z_lt_dec (Rect.x r1 + Rect.width r1) (Rect.x r2)); [lia |].
      destruct (Z_lt_dec (Rect.x r2 + Rect.width r2) (Rect.x r1)); [lia |].
      destruct (Z_lt_dec (Rect.y r1 + Rect.height r1) (Rect.y r2)); [lia |].
      destruct (Z_lt_dec (Rect.y r2 + Rect.height r2) (Rect.y r1)); [lia |].
      exfalso. apply Hno. split.
      * exists (Z.max (Rect.x r1) (Rect.x r2)). lia.
      * exists (Z.max (Rect.y r1) (Rect.y r2)). lia.
  - intros ci Hci m.
    destruct (rect_normal _ _ _ Hci) as [Hpen Hn].
    destruct (rect_intersects_rect s2 s1) as [ci'|] eqn:Hci'.
    2:{ apply rect_none_iff_test in Hci'.
        assert (rect_intersects_rect s1 s2 = None) as E
          by (apply rect_none_iff_test; tauto).
        congruence. }
    destruct (rect_normal _ _ _ Hci') as [Hpen' Hn'].
    pose proof (min_idx_cases s1 s2) as C1.
    pose proof (min_idx_cases s2 s1) as C2.
    destruct (swapped_overlaps s1 s2) as (EL & ER & ET & EB).
    cbv zeta in C1, C2. rewrite EL, ER, ET, EB in C2.
    unfold opposite_overlap. fold m in C1.
    assert (min_penetration s2 s1 = m) as Em by (unfold m; lia).
    split; [exact Hpen |].
    split; [lia |]. split; [lia |]. split; [lia |]. split; [lia |].
    split; [lia |].
    exists ci'. split; [reflexivity |]. split; [rewrite Hpen, Hpen', Em; reflexivity |].
    rewrite Hn, Hn'. unfold mirrored.
    destruct C1 as [(I1 & ? & ?)|[(I1 & ? & ?)|[(I1 & ? & ?)|(I1 & ? & ?)]]];
    destruct C2 as [(I2 & ? & ?)|[(I2 & ? & ?)|[(I2 & ? & ?)|(I2 & ? & ?)]]];
    rewrite I1, I2; try lia;
    (split; [split; [intros Hm; first [lia | vm_compute in Hm; discriminate]
                    | intros Hlt; first [lia | vm_compute; reflexivity]]
            | intros Heq; first [lia | reflexivity]]).
Qed.

Lemma rect_intersects_rect_spec_witness :
  rect_intersects_rect Samples.square_a Samples.square_b <> None
  /\ forall ci, rect_intersects_rect Samples.square_a Samples.square_b = Some ci ->
               penetration ci = Int 1.
Proof.
  pose proof (rect_intersects_rect_spec Samples.square_a Samples.square_b) as H.
  cbv zeta in H.
  specialize (H ltac:(cbn; lia) ltac:(cbn; lia) ltac:(cbn; lia) ltac:(cbn; lia)).
  split.
  - vm_compute. discriminate.
  - intros ci Hci. exact (proj1 (proj2 H ci Hci)).
Defined.
End RectRectFacts.

(* ===================================================================== *)
(** * Raycaster *)
(* ===================================================================== *)

Section RaycastFacts.

Lemma raycast_loop_no_limit_is_empty `{RectCoord} (heap : Heap) (origin direction : Vector2.t)
    (max_distance : float) (ignore : gset Z) (objs : list ObjRef) :
  raycast_loop heap origin direction max_distance (-1) ignore [] objs = Ok [].
Proof. destruct objs; reflexivity. Qed.

(** C3. The call with the default arguments returns no hit at all,
    whatever the index holds: with [hits_lim = -1] the loop leaves at its
    first test [len(hits) >= hits_lim]. The same holds for any maximum
    distance. The sample index stores a circle that the ray hits at
    parameter 9 under an unbounded distance, and the raycaster reports
    that hit once a positive cap is passed. *)
Theorem raycast_default_returns_nothing :
  (forall (rc : RectCoord) tree heap origin direction,
      raycast_default tree heap origin direction = Ok [])
  /\ (forall (rc : RectCoord) tree heap origin direction max_distance ignore,
        raycast tree heap origin direction max_distance (-1) ignore = Ok [])
  /\ 1%nat ∈ SpatialQuadTree.retrieve Samples.ray_tree
               (@create_ray_bounds Samples.c_int_cast (Vector2.mk 0 0) (Vector2.mk 60 80))
  /\ CircleShape.intersects_ray (CircleShape.mk (Vector2.mk 30 40) 5)
       (Vector2.mk 0 0) (Vector2.mk 3 4) PyFloat.inf
     = Ok (Some (mkRaycastHit (Vector2.mk 27 36)
                   (Vector2.mk (-0x1.3333333333333p-1) (-0x1.999999999999ap-1)) 9))
  /\ @raycast Samples.c_int_cast Samples.ray_tree Samples.ray_heap
       (Vector2.mk 0 0) (Vector2.mk 3 4) 20 1 ∅
     = Ok [(1%nat, mkRaycastHit (Vector2.mk 27 36)
                     (Vector2.mk (-0x1.3333333333333p-1) (-0x1.999999999999ap-1)) 9)]
  /\ @raycast Samples.c_int_cast Samples.ray_tree Samples.ray_heap
       (Vector2.mk 0 0) (Vector2.mk 3 4) 20 (-1) ∅ = Ok [].
Proof.
  split; [intros; apply raycast_loop_no_limit_is_empty |].
  split; [intros; apply raycast_loop_no_limit_is_empty |].
  split; [by_computation |].
  repeat split; vm_compute; reflexivity.
Qed.
End RaycastFacts.

(* ===================================================================== *)
(** * Dispatcher and tick *)
(* ===================================================================== *)

Section DispatchFacts.
Variable d : Detectors.

Lemma detect_unregistered (reg : CollisionDetector.registry) (a b : pyval) :
  reg !! (type_of a, type_of b) = None ->
  CollisionDetector.detect reg a b = Raise NotImplementedError.
Proof. unfold CollisionDetector.detect. intros ->. reflexivity. Qed.

(** One candidate whose pair of classes has no handler ends the
    candidate loop of [Engine.update] with the exception. *)
Lemma engine_loop_raises (reg : CollisionDetector.registry) (h : Heap)
    (moved_obj collision_obj : ObjRef) (collisions : list Engine.Collision)
    (rest : list ObjRef) :
  moved_obj <> collision_obj ->
  reg !! (GameObjectT (obj_class (h moved_obj)), GameObjectT (obj_class (h collision_obj)))
  = None ->
  Engine.detect_against reg h moved_obj collisions (collision_obj :: rest)
  = Raise NotImplementedError.
Proof.
  intros Hne Hnone. cbn [Engine.detect_against].
  destruct (Nat.eqb_spec moved_obj collision_obj) as [|_]; [contradiction |].
  rewrite detect_unregistered by exact Hnone. reflexivity.
Qed.

(** The candidate loop of the benchmark's tick steps over a candidate
    whose pair of shape classes has no handler. *)
Lemma benchmark_loop_skips (reg : CollisionDetector.registry) (h : Heap)
    (moved_obj other_obj : ObjRef) (shape_a shape_b : CollisionShape)
    (collisions : list Engine.Collision) (rest : list ObjRef) :
  collision_shape (h other_obj) = Some shape_b ->
  reg !! (type_of (VShape shape_a), type_of (VShape shape_b)) = None ->
  QuadTreeEngine.detect_against reg h moved_obj shape_a collisions (other_obj :: rest)
  = QuadTreeEngine.detect_against reg h moved_obj shape_a collisions rest.
Proof.
  intros Hshape Hnone. cbn [QuadTreeEngine.detect_against].
  destruct (_ || _); [reflexivity |].
  rewrite Hshape, detect_unregistered by exact Hnone. reflexivity.
Qed.

(** C1. The dispatcher raises [NotImplementedError] for every pair whose
    classes have no registered handler; it never answers "no collision"
    for such a pair. [Engine.update] does not recover from it: with two
    overlapping registered dummies the tick hands the two game objects to
    the dispatcher, no handler is registered for their classes, and the
    whole tick ends with the exception instead of completing. *)
Theorem unsupported_pair_aborts_tick (dt : float) :
  (forall (reg : CollisionDetector.registry) (a b : pyval),
      reg !! (type_of a, type_of b) = None ->
      CollisionDetector.detect reg a b = Raise NotImplementedError
      /\ CollisionDetector.detect reg a b <> Ok None)
  /\ Engine.collision_detector (Engine.cls (Samples.registered_two d).1.1)
       !! (GameObjectT 0, GameObjectT 0) = None
  /\ @Engine.update Samples.c_int_cast Samples.classes
       (Samples.registered_two d).1.1 (Samples.registered_two d).1.2 dt
     = Raise NotImplementedError.
Proof.
  split.
  - intros reg a b Hnone. rewrite (detect_unregistered _ _ _ Hnone).
    split; [reflexivity | discriminate].
  - split; vm_compute; reflexivity.
Qed.

(** C4. [remove_game_object] never touches the spatial index of the
    engine. After registering a dummy and running one tick, which stores
    the moved dummy in the index, unregistering it makes the lookup by
    identity report "not found", but a query of the index over the
    dummy's bounding box still returns it. The overriding method of
    [QuadTreeEngine] removes it from the index as well. *)
Theorem unregister_leaves_spatial_index (dt : float) :
  (forall w self id,
      Engine.spatial_tree (Engine.remove_game_object w self id).2 = Engine.spatial_tree self)
  /\ exists w e,
       Samples.ticked_once d dt = Ok (w, e)
       /\ Engine.get_game_object_by_id w e 0 = Some 1%nat
       /\ Engine.get_game_object_by_id
            (Engine.remove_game_object w e 0).1 (Engine.remove_game_object w e 0).2 0 = None
       /\ 1%nat ∈ Engine.get_objects_in_rect
                    (Engine.remove_game_object w e 0).1 (Engine.remove_game_object w e 0).2
                    (Rect.mk 90 90 20 20)
       /\ 1%nat ∉ Engine.get_objects_in_rect
                    (@QuadTreeEngine.remove_game_object Samples.c_int_cast w e 0).1
                    (@QuadTreeEngine.remove_game_object Samples.c_int_cast w e 0).2
                    (Rect.mk 90 90 20 20).
Proof.
  split.
  - intros w self id. unfold Engine.remove_game_object.
    destruct (Dict.get _ _); reflexivity.
  - assert (match Samples.ticked_once d dt with
            | Ok (w, e) =>
                Some (Engine.get_game_object_by_id w e 0,
                      Engine.get_game_object_by_id
                        (Engine.remove_game_object w e 0).1
                        (Engine.remove_game_object w e 0).2 0,
                      bool_decide
                        (1%nat ∈ Engine.get_objects_in_rect
                                   (Engine.remove_game_object w e 0).1
                                   (Engine.remove_game_object w e 0).2
                                   (Rect.mk 90 90 20 20)),
                      bool_decide
                        (1%nat ∈ Engine.get_objects_in_rect
                           (@QuadTreeEngine.remove_game_object Samples.c_int_cast w e 0).1
                           (@QuadTreeEngine.remove_game_object Samples.c_int_cast w e 0).2
                           (Rect.mk 90 90 20 20)))
            | _ => None
            end = Some (Some 1%nat, None, true, false)) as Hobs
      by (vm_compute; reflexivity).
    destruct (Samples.ticked_once d dt) as [[w e]| |]; try discriminate.
    injection Hobs as H1 H2 H3 H4. exists w, e.
    split; [reflexivity |]. split; [exact H1 |]. split; [exact H2 |].
    split; [exact (bool_decide_eq_true_1 _ H3) | exact (bool_decide_eq_false_1 _ H4)].
Qed.

(** C9. The identity registry lives on the class object, so an object
    registered through one instance is found through every other
    instance. With two fresh instances on a fresh class object: the
    second instance finds nothing under identity 0 before, and finds the
    object registered through the first instance after; when the second
    instance then registers its own object it hands out identity 0
    again, and the first instance's lookups, by identity and by type tag,
    now answer with that object. *)
Theorem registry_is_shared_between_instances :
  (forall w e1 e2 obj,
      Engine.get_game_object_by_id
        (Engine.add_game_object w e1 obj).1.1 e2 (Engine.add_game_object w e1 obj).2
      = Some obj)
  /\ (let e1 := Engine.init Samples.world_bounds in
      let e2 := Engine.init Samples.world_bounds in
      let w0 := Samples.fresh_world d in
      let s1 := Engine.add_game_object w0 e1 1%nat in
      let s2 := Engine.add_game_object s1.1.1 e2 2%nat in
      Engine.get_game_object_by_id w0 e2 0 = None
      /\ Engine.get_game_objects_by_type w0 e2 1 = None
      /\ s1.2 = 0
      /\ Engine.get_game_object_by_id s1.1.1 e2 0 = Some 1%nat
      /\ Engine.get_game_objects_by_type s1.1.1 e2 1 = Some [(0, 1%nat)]
      /\ s2.2 = 0
      /\ Engine.get_game_object_by_id s2.1.1 s1.1.2 0 = Some 2%nat
      /\ Engine.get_game_objects_by_type s2.1.1 s1.1.2 1 = Some [(0, 2%nat)]).
Proof.
  split.
  - intros w e1 e2 obj. unfold Engine.get_game_object_by_id, Engine.add_game_object.
    cbn. generalize (Engine.game_objs (Engine.cls w)).
    generalize (match Engine.next_obj_id e1 with
                | Some n => n
                | None => Engine.class_next_obj_id (Engine.cls w)
                end).
    intros k l. induction l as [|[k' v'] l IH]; cbn.
    + rewrite Z.eqb_refl. reflexivity.
    + destruct (Z.eqb_spec k' k) as [->|Hne]; cbn.
      * rewrite Z.eqb_refl. reflexivity.
      * destruct (Z.eqb_spec k' k); [contradiction | exact IH].
  - cbv zeta. repeat split; vm_compute; reflexivity.
Qed.
End DispatchFacts.

Lemma unsupported_pair_aborts_tick_witness :
  CollisionDetector.detect
    (Engine.collision_detector
       (Engine.cls (Samples.registered_two Samples.stand_in_detectors).1.1))
    (VGameObject 0 1%nat) (VGameObject 0 2%nat)
  = Raise NotImplementedError.
Proof.
  apply (proj1 (unsupported_pair_aborts_tick Samples.stand_in_detectors 1%float)).
  vm_compute. reflexivity.
Defined.


(* ===================================================================== *)
(** * Rectangles within the C int range *)
(* ===================================================================== *)

Section RectRange.
Import SpatialQuadTree IndexShape.

Lemma in_c_int_bounds (z : Z) : Rect.in_c_int z = true <-> - 2 ^ 31 <= z < 2 ^ 31.
Proof. unfold Rect.in_c_int. rewrite andb_true_iff, Z.leb_le, Z.ltb_lt. tauto. Qed.

(** A value in range is the value the C int holds. *)
Lemma c_int_exact (z : Z) : Rect.in_c_int z = true -> Rect.c_int z = z.
Proof.
  intros Hz. apply in_c_int_bounds in Hz. unfold Rect.c_int.
  rewrite Z.mod_small by lia. lia.
Qed.

Lemma fits_fields (r : Rect.t) :
  Rect.fits r = true ->
  Rect.in_c_int (Rect.x r) = true /\ Rect.in_c_int (Rect.y r) = true
  /\ Rect.in_c_int (Rect.width r) = true /\ Rect.in_c_int (Rect.height r) = true
  /\ Rect.in_c_int (Rect.x r + Rect.width r) = true
  /\ Rect.in_c_int (Rect.y r + Rect.height r) = true.
Proof. unfold Rect.fits. rewrite !andb_true_iff. tauto. Qed.

(** For rectangles in range, the edges and the overlap test of the
    embedding are the ones C int arithmetic gives. *)
Lemma fits_edges (r : Rect.t) :
  Rect.fits r = true ->
  Rect.c_right r = Rect.right r /\ Rect.c_bottom r = Rect.bottom r.
Proof.
  intros Hr. destruct (fits_fields r Hr) as (_ & _ & _ & _ & Hx & Hy).
  unfold Rect.c_right, Rect.c_bottom, Rect.right, Rect.bottom.
  rewrite !c_int_exact by assumption. auto.
Qed.

Lemma fits_colliderect (a b : Rect.t) :
  Rect.fits a = true -> Rect.fits b = true ->
  Rect.c_colliderect a b = Rect.colliderect a b.
Proof.
  intros Ha Hb. unfold Rect.c_colliderect, Rect.colliderect.
  destruct (fits_edges a Ha) as [-> ->]. destruct (fits_edges b Hb) as [-> ->].
  reflexivity.
Qed.

(** The four regions that [split] creates inside a region in range are
    in range, and so is every child of a well-formed node. *)
Lemma fits_quadrant (b : Rect.t) (i : Z) :
  Rect.fits b = true -> 0 <= Rect.width b -> 0 <= Rect.height b ->
  Rect.fits (quadrant b i) = true.
Proof.
  intros Hb Hw Hh. destruct (fits_fields b Hb) as (Hx & Hy & Hbw & Hbh & Hr & Hbt).
  apply in_c_int_bounds in Hx, Hy, Hbw, Hbh, Hr, Hbt.
  pose proof (Z.div_pos (Rect.width b) 2 Hw ltac:(lia)) as Hw2.
  pose proof (Z.div_pos (Rect.height b) 2 Hh ltac:(lia)) as Hh2.
  pose proof (Z.mul_div_le (Rect.width b) 2 ltac:(lia)) as Hw2'.
  pose proof (Z.mul_div_le (Rect.height b) 2 ltac:(lia)) as Hh2'.
  unfold Rect.fits, quadrant.
  repeat destruct (i =? _); cbn [Rect.x Rect.y Rect.width Rect.height];
    rewrite !andb_true_iff, !in_c_int_bounds; lia.
Qed.
End RectRange.

(* ===================================================================== *)
(** * Spatial index *)
(* ===================================================================== *)

Section IndexFacts.
Import SpatialQuadTree IndexShape IndexRel.

Implicit Types (self node : SpatialQuadTree.t) (obj : ObjRef) (rect : Rect.t).

Lemma rect_eqb_eq (a b : Rect.t) : rect_eqb a b = true -> a = b.
Proof.
  destruct a, b. unfold rect_eqb. cbn. intros H.
  repeat (apply andb_prop in H as [H ?]).
  f_equal; lia.
Qed.

Lemma get_index_range self rect :
  let i := get_index self rect in i = -1 \/ i = 0 \/ i = 1 \/ i = 2 \/ i = 3.
Proof.
  unfold get_index. repeat (destruct (_ <=? _)); lia.
Qed.

(** What [child_ok] says, field by field. *)
Lemma child_ok_fields b mo ml l i node :
  child_ok b mo ml l i node = true ->
  bounds node = quadrant b i /\ max_objects node = mo
  /\ max_levels node = ml /\ level node = l + 1.
Proof.
  unfold child_ok. intros H.
  apply andb_prop in H as [H H4]. apply andb_prop in H as [H H3].
  apply andb_prop in H as [H H2].
  apply rect_eqb_eq in H. repeat split; (assumption || lia).
Qed.

(** The children of a well-formed node. *)
Lemma well_formed_children self :
  well_formed self = true -> has_children self ->
  level self < max_levels self
  /\ vertical_mid self = Rect.x (bounds self) + Rect.width (bounds self) / 2
  /\ horizontal_mid self = Rect.y (bounds self) + Rect.height (bounds self) / 2
  /\ forall i, 0 <= i <= 3 ->
       exists node, node_at self i = Some node
                    /\ child_ok (bounds self) (max_objects self) (max_levels self)
                                (level self) i node = true
                    /\ well_formed node = true.
Proof.
  destruct self as [b mo ml l objs n0 n1 n2 n3 vm hm]. unfold has_children. cbn.
  destruct n0 as [c0|]; [| congruence].
  destruct n1 as [c1|], n2 as [c2|], n3 as [c3|]; try discriminate.
  intros H _. rewrite !andb_true_iff in H.
  destruct H as ((((((((((Hl & Hv) & Hh) & K0) & K1) & K2) & K3) & W0) & W1) & W2) & W3).
  split; [lia |]. split; [lia |]. split; [lia |].
  intros i Hi. unfold node_at. cbn.
  assert (i = 0 \/ i = 1 \/ i = 2 \/ i = 3) as Hi' by lia.
  destruct Hi' as [->|[->|[->| ->]]]; cbn; eauto.
Qed.

Lemma well_formed_leaf self :
  well_formed self = true -> node0 self = None ->
  forall i, node_at self i = None.
Proof.
  destruct self as [b mo ml l objs n0 n1 n2 n3 vm hm]. cbn. intros H ->.
  destruct n1, n2, n3; try discriminate.
  intros i. unfold node_at. cbn. repeat destruct (_ =? _); reflexivity.
Qed.

(** Membership in the answer of [retrieve], one level at a time. *)
Lemma elem_of_retrieve self rect obj :
  well_formed self = true ->
  obj ∈ retrieve self rect <->
  Rect.colliderect (bounds self) rect = true
  /\ (obj ∈ objects self
      \/ exists i node,
           0 <= i <= 3 /\ node_at self i = Some node
           /\ (get_index self rect = -1 \/ get_index self rect = i)
           /\ obj ∈ retrieve node rect).
Proof.
  intros Hwf.
  destruct (node0 self) as [c|] eqn:Hn0.
  - assert (has_children self) as Hc by (unfold has_children; congruence).
    destruct (well_formed_children _ Hwf Hc) as (_ & _ & _ & Hch).
    destruct (Hch 0 ltac:(lia)) as (c0 & E0 & _).
    destruct (Hch 1 ltac:(lia)) as (c1 & E1 & _).
    destruct (Hch 2 ltac:(lia)) as (c2 & E2 & _).
    destruct (Hch 3 ltac:(lia)) as (c3 & E3 & _).
    pose proof (get_index_range self rect) as Hr. cbv zeta in Hr.
    clear Hn0 Hc Hch Hwf.
    destruct self as [b mo ml l objs n0 n1 n2 n3 vm hm].
    unfold node_at in *. cbn in E0, E1, E2, E3 |- *. subst n0 n1 n2 n3.
    set (idx := get_index _ rect) in *.
    destruct (Rect.colliderect b rect); cbn [negb].
    2:{ split; [set_solver | intros [? _]; discriminate]. }
    split.
    + intros Hin. split; [reflexivity |].
      destruct Hr as [E|[E|[E|[E|E]]]]; rewrite E in Hin; cbn in Hin;
        rewrite E; set_unfold in Hin.
      * destruct Hin as [[[[?|?]|?]|?]|?]; [left; assumption | ..].
        -- right. exists 0, c0. cbn. repeat split; auto; lia.
        -- right. exists 1, c1. cbn. repeat split; auto; lia.
        -- right. exists 2, c2. cbn. repeat split; auto; lia.
        -- right. exists 3, c3. cbn. repeat split; auto; lia.
      * destruct Hin as [?|?]; [left; assumption |].
        right. exists 0, c0. cbn. repeat split; auto; lia.
      * destruct Hin as [?|?]; [left; assumption |].
        right. exists 1, c1. cbn. repeat split; auto; lia.
      * destruct Hin as [?|?]; [left; assumption |].
        right. exists 2, c2. cbn. repeat split; auto; lia.
      * destruct Hin as [?|?]; [left; assumption |].
        right. exists 3, c3. cbn. repeat split; auto; lia.
    + intros [_ [Hin|(i & node & Hi & Hnode & Hidx & Hin)]].
      * destruct Hr as [E|[E|[E|[E|E]]]]; rewrite E; cbn; set_solver.
      * assert (i = 0 \/ i = 1 \/ i = 2 \/ i = 3) as Hi' by lia.
        destruct Hi' as [->|[->|[->| ->]]]; cbn in Hnode; injection Hnode as <-;
          destruct Hidx as [E|E]; rewrite E; cbn; set_solver.
  - pose proof (well_formed_leaf _ Hwf Hn0) as Hleaf.
    destruct self as [b mo ml l objs n0 n1 n2 n3 vm hm]. cbn in Hn0 |- *. subst n0.
    destruct (Rect.colliderect b rect); cbn [negb].
    + split; [intros ?; split; [reflexivity | left; assumption] |].
      intros [_ [?|(i & node & _ & Hnode & _)]]; [assumption |].
      rewrite Hleaf in Hnode. discriminate.
    + split; [set_solver | intros [? _]; discriminate].
Qed.

Lemma colliderect_true (a b : Rect.t) :
  Rect.colliderect a b = true <->
  Rect.width a <> 0 /\ Rect.height a <> 0 /\ Rect.width b <> 0 /\ Rect.height b <> 0
  /\ Z.min (Rect.x a) (Rect.x a + Rect.width a) < Z.max (Rect.x b) (Rect.x b + Rect.width b)
  /\ Z.min (Rect.y a) (Rect.y a + Rect.height a) < Z.max (Rect.y b) (Rect.y b + Rect.height b)
  /\ Z.min (Rect.x b) (Rect.x b + Rect.width b) < Z.max (Rect.x a) (Rect.x a + Rect.width a)
  /\ Z.min (Rect.y b) (Rect.y b + Rect.height b) < Z.max (Rect.y a) (Rect.y a + Rect.height a).
Proof.
  unfold Rect.colliderect.
  destruct (Z.eqb_spec (Rect.width a) 0), (Z.eqb_spec (Rect.height a) 0),
    (Z.eqb_spec (Rect.width b) 0), (Z.eqb_spec (Rect.height b) 0); cbn [orb];
    try (split; [discriminate | intros (? & ? & ? & ? & _); contradiction]).
  rewrite !andb_true_iff, !Z.ltb_lt. tauto.
Qed.

(** Which half-planes a rectangle lies in when [get_index] names a child. *)
Lemma get_index_sides self rect :
  let i := get_index self rect in
  (i = 0 -> vertical_mid self <= Rect.left rect /\ Rect.bottom rect <= horizontal_mid self)
  /\ (i = 1 -> Rect.right rect <= vertical_mid self /\ Rect.bottom rect <= horizontal_mid self)
  /\ (i = 2 -> Rect.right rect <= vertical_mid self /\ horizontal_mid self <= Rect.top rect)
  /\ (i = 3 -> vertical_mid self <= Rect.left rect /\ horizontal_mid self <= Rect.top rect).
Proof.
  unfold get_index.
  destruct (Z.leb_spec (Rect.right rect) (vertical_mid self)),
    (Z.leb_spec (vertical_mid self) (Rect.left rect)),
    (Z.leb_spec (Rect.bottom rect) (horizontal_mid self)),
    (Z.leb_spec (horizontal_mid self) (Rect.top rect)); cbv zeta; lia.
Qed.

Lemma aligned_fields self :
  aligned self = true ->
  0 < Rect.width (bounds self) /\ 0 < Rect.height (bounds self)
  /\ (level self < max_levels self ->
      Rect.width (bounds self) = 2 * (Rect.width (bounds self) / 2)
      /\ Rect.height (bounds self) = 2 * (Rect.height (bounds self) / 2)).
Proof.
  unfold aligned. intros H.
  apply andb_prop in H as [H H4]. apply andb_prop in H as [H H3].
  apply andb_prop in H as [H1 H2].
  apply Z.ltb_lt in H1, H2. apply Z.eqb_eq in H3, H4.
  split; [assumption |]. split; [assumption |]. intros Hl.
  assert (Z.max 0 (max_levels self - level self)
          = Z.succ (max_levels self - level self - 1)) as Ek by lia.
  rewrite Ek, Z.pow_succ_r in H3, H4 by lia.
  assert (0 < 2 ^ (max_levels self - level self - 1)) as Hp
    by (apply Z.pow_pos_nonneg; lia).
  apply Z.mod_divide in H3, H4; try lia.
  destruct H3 as [q3 E3], H4 as [q4 E4].
  split.
  - rewrite E3 at 2.
    replace (q3 * (2 * 2 ^ (max_levels self - level self - 1)))
      with ((q3 * 2 ^ (max_levels self - level self - 1)) * 2) by ring.
    rewrite Z.div_mul by lia. lia.
  - rewrite E4 at 2.
    replace (q4 * (2 * 2 ^ (max_levels self - level self - 1)))
      with ((q4 * 2 ^ (max_levels self - level self - 1)) * 2) by ring.
    rewrite Z.div_mul by lia. lia.
Qed.

(** The children of an aligned node below the level limit are aligned. *)
Lemma aligned_child self i node :
  aligned self = true -> level self < max_levels self -> 0 <= i <= 3 ->
  child_ok (bounds self) (max_objects self) (max_levels self) (level self) i node = true ->
  aligned node = true.
Proof.
  intros Ha Hl Hi Hc.
  destruct (child_ok_fields _ _ _ _ _ _ Hc) as (Eb & _ & Eml & El).
  unfold aligned in *. rewrite Eb, Eml, El.
  apply andb_prop in Ha as [Ha H4]. apply andb_prop in Ha as [Ha H3].
  apply andb_prop in Ha as [H1 H2].
  apply Z.ltb_lt in H1, H2. apply Z.eqb_eq in H3, H4.
  assert (Z.max 0 (max_levels self - level self)
          = Z.succ (Z.max 0 (max_levels self - (level self + 1)))) as Ek by lia.
  rewrite Ek, Z.pow_succ_r in H3, H4 by lia.
  set (p := 2 ^ Z.max 0 (max_levels self - (level self + 1))) in *.
  assert (0 < p) as Hp by (apply Z.pow_pos_nonneg; lia).
  apply Z.mod_divide in H3, H4; try lia.
  destruct H3 as [q3 E3], H4 as [q4 E4].
  assert (Rect.width (bounds self) / 2 = q3 * p) as Ew
    by (rewrite E3; replace (q3 * (2 * p)) with (q3 * p * 2) by ring;
        apply Z.div_mul; lia).
  assert (Rect.height (bounds self) / 2 = q4 * p) as Eh
    by (rewrite E4; replace (q4 * (2 * p)) with (q4 * p * 2) by ring;
        apply Z.div_mul; lia).
  assert (Rect.width (quadrant (bounds self) i) = q3 * p
          /\ Rect.height (quadrant (bounds self) i) = q4 * p) as [Ew' Eh'].
  { unfold quadrant. rewrite Ew, Eh. repeat destruct (_ =? _); cbn; split; reflexivity. }
  rewrite Ew', Eh'. rewrite !Z.mod_mul by lia.
  assert (0 < q3 * p) by nia. assert (0 < q4 * p) by nia.
  repeat (apply andb_true_intro; split); try apply Z.ltb_lt; try apply Z.eqb_eq; lia.
Qed.

(** A rectangle that meets the region of an aligned node and is assigned
    a child by [get_index] meets the region of that child. *)
Lemma child_collides self rect i :
  aligned self = true -> level self < max_levels self ->
  vertical_mid self = Rect.x (bounds self) + Rect.width (bounds self) / 2 ->
  horizontal_mid self = Rect.y (bounds self) + Rect.height (bounds self) / 2 ->
  0 <= Rect.width rect -> 0 <= Rect.height rect ->
  Rect.colliderect (bounds self) rect = true ->
  get_index self rect = i -> i <> -1 ->
  Rect.colliderect (quadrant (bounds self) i) rect = true.
Proof.
  intros Ha Hl Hvm Hhm Hrw Hrh Hc Hidx Hne.
  destruct (aligned_fields _ Ha) as (Hw & Hh & Heven).
  destruct (Heven Hl) as [Ew Eh].
  pose proof (get_index_sides self rect) as Hs. cbv zeta in Hs. rewrite Hidx in Hs.
  pose proof (get_index_range self rect) as Hr. cbv zeta in Hr. rewrite Hidx in Hr.
  apply colliderect_true in Hc. apply colliderect_true.
  unfold Rect.left, Rect.right, Rect.top, Rect.bottom in Hs.
  rewrite Hvm, Hhm in Hs.
  set (w2 := Rect.width (bounds self) / 2) in *.
  set (h2 := Rect.height (bounds self) / 2) in *.
  destruct Hs as (S0 & S1 & S2 & S3).
  destruct Hr as [?|[->|[->|[->| ->]]]]; [contradiction | ..];
    unfold quadrant; fold w2 h2; cbn; lia.
Qed.


Lemma node_at_set_node_same self i node :
  0 <= i <= 3 -> node_at (set_node self i node) i = Some node.
Proof.
  intros Hi. unfold node_at, set_node. cbn.
  assert (i = 0 \/ i = 1 \/ i = 2 \/ i = 3) as Hi' by lia.
  destruct Hi' as [->|[->|[->| ->]]]; reflexivity.
Qed.

Lemma node_at_set_node_other self i j node :
  0 <= i <= 3 -> 0 <= j <= 3 -> i <> j ->
  node_at (set_node self i node) j = node_at self j.
Proof.
  intros Hi Hj Hne. unfold node_at, set_node. cbn.
  assert (i = 0 \/ i = 1 \/ i = 2 \/ i = 3) as Hi' by lia.
  assert (j = 0 \/ j = 1 \/ j = 2 \/ j = 3) as Hj' by lia.
  destruct Hi' as [->|[->|[->| ->]]], Hj' as [->|[->|[->| ->]]];
    try reflexivity; lia.
Qed.

Lemma well_formed_set_objects self objs :
  well_formed (set_objects self objs) = well_formed self.
Proof. destruct self; reflexivity. Qed.

Lemma well_formed_set_node self i node :
  well_formed self = true -> has_children self -> 0 <= i <= 3 ->
  child_ok (bounds self) (max_objects self) (max_levels self) (level self) i node = true ->
  well_formed node = true ->
  well_formed (set_node self i node) = true /\ has_children (set_node self i node).
Proof.
  destruct self as [b mo ml l objs n0 n1 n2 n3 vm hm]. unfold has_children, set_node.
  cbn [node0 node1 node2 node3 bounds max_objects max_levels level objects
       vertical_mid horizontal_mid].
  intros Hwf Hc Hi Hok Hn.
  destruct n0 as [c0|]; [| congruence].
  cbn in Hwf. destruct n1 as [c1|], n2 as [c2|], n3 as [c3|]; try discriminate.
  rewrite !andb_true_iff in Hwf.
  assert (i = 0 \/ i = 1 \/ i = 2 \/ i = 3) as Hi' by lia.
  destruct Hi' as [->|[->|[->| ->]]]; cbn; (split; [| congruence]);
    rewrite !andb_true_iff; tauto.
Qed.

Lemma well_formed_split self :
  well_formed self = true -> node0 self = None -> level self < max_levels self ->
  well_formed (split self) = true /\ has_children (split self).
Proof.
  intros _ _ Hl. unfold has_children, split. cbn. split; [| congruence].
  unfold child_ok, init, quadrant, rect_eqb. cbn.
  rewrite !Z.eqb_refl. cbn. rewrite !andb_true_r. apply Z.ltb_lt. assumption.
Qed.

Lemma keeps_refl bounding self : keeps bounding self self.
Proof. intros obj rect _ _ _ H. exact H. Qed.

Lemma keeps_trans bounding a b c :
  keeps bounding a b -> keeps bounding b c -> keeps bounding a c.
Proof. intros Hab Hbc obj rect E Hw Hh H. eauto. Qed.

(** Adding to the local set of a node keeps everything. *)
Lemma keeps_more_objects bounding self objs :
  well_formed self = true -> objects self ⊆ objs ->
  keeps bounding self (set_objects self objs).
Proof.
  intros Hwf Hsub obj rect _ _ _ Hin.
  apply elem_of_retrieve in Hin; [| assumption].
  apply elem_of_retrieve; [rewrite well_formed_set_objects; assumption |].
  destruct self; cbn in *. destruct Hin as [Hc [Hin|Hin]]; (split; [assumption |]).
  - left. set_solver.
  - right. exact Hin.
Qed.

(** Splitting a leaf keeps everything. *)
Lemma keeps_split bounding self :
  well_formed self = true -> node0 self = None -> level self < max_levels self ->
  keeps bounding self (split self).
Proof.
  intros Hwf Hleaf Hl obj rect _ _ _ Hin.
  apply elem_of_retrieve in Hin; [| assumption].
  apply elem_of_retrieve; [apply well_formed_split; assumption |].
  destruct Hin as [Hc [Hin|(i & node & _ & Hnode & _)]].
  - split; [exact Hc | left; exact Hin].
  - rewrite (well_formed_leaf _ Hwf Hleaf) in Hnode. discriminate.
Qed.

(** Replacing child [i] by a node that keeps what the child held, and
    taking [obj] out of the local set when the new child finds it, keeps
    everything. *)
Lemma keeps_replace_child bounding self obj rect i node node' objs' :
  well_formed self = true -> has_children self -> aligned self = true ->
  bounding obj = Some rect ->
  get_index self rect = i -> 0 <= i <= 3 ->
  node_at self i = Some node ->
  same_frame node node' -> well_formed node' = true ->
  finds bounding (bounds node) node' obj ->
  keeps bounding node node' ->
  (forall o, o ∈ objects self -> o <> obj -> o ∈ objs') ->
  keeps bounding self (set_objects (set_node self i node') objs').
Proof.
  intros Hwf Hch Hal Hb Hidx Hi Hnode Hframe Hwf' Hfinds Hkeeps Hobjs.
  destruct (well_formed_children _ Hwf Hch) as (Hl & Hvm & Hhm & Hkids).
  destruct (Hkids i Hi) as (node_ & Hnode_ & Hok & Hwfn).
  rewrite Hnode in Hnode_. injection Hnode_ as <-.
  assert (child_ok (bounds self) (max_objects self) (max_levels self) (level self) i node'
          = true) as Hok'.
  { destruct Hframe as (E1 & E2 & E3 & E4). unfold child_ok in *.
    rewrite <- E1, <- E2, <- E3, <- E4. exact Hok. }
  destruct (well_formed_set_node _ _ _ Hwf Hch Hi Hok' Hwf') as [Hwf2 Hch2].
  intros o r Ho Hw Hh Hin.
  apply elem_of_retrieve in Hin; [| assumption].
  apply elem_of_retrieve; [rewrite well_formed_set_objects; assumption |].
  destruct Hin as [Hc Hin].
  split; [destruct self; exact Hc |].
  assert (forall r', get_index (set_objects (set_node self i node') objs') r'
                     = get_index self r') as Egi by (intros; destruct self; reflexivity).
  assert (forall j, node_at (set_objects (set_node self i node') objs') j
                    = node_at (set_node self i node') j) as Ena
    by (intros; destruct self; reflexivity).
  assert (objects (set_objects (set_node self i node') objs') = objs') as Eobj
    by (destruct self; reflexivity).
  rewrite Eobj.
  destruct Hin as [Hin|(j & c & Hj & Hc' & Hgj & Hin)].
  - destruct (decide (o = obj)) as [->|Hne].
    + right. rewrite Hb in Ho. injection Ho as <-.
      exists i, node'. split; [assumption |].
      split; [rewrite Ena; apply node_at_set_node_same; assumption |].
      split; [rewrite Egi; right; assumption |].
      apply Hfinds; try assumption.
      destruct (child_ok_fields _ _ _ _ _ _ Hok) as (Eb & _).
      rewrite Eb. apply (child_collides self rect i); try assumption. lia.
    + left. auto.
  - right. destruct (decide (j = i)) as [->|Hne].
    + rewrite Hnode in Hc'. injection Hc' as <-.
      exists i, node'. split; [assumption |].
      split; [rewrite Ena; apply node_at_set_node_same; assumption |].
      split; [rewrite Egi; assumption |].
      apply (Hkeeps o r); assumption.
    + exists j, c. split; [assumption |].
      split; [rewrite Ena, node_at_set_node_other; auto |].
      split; [rewrite Egi; assumption | assumption].
Qed.

Lemma same_frame_refl self : same_frame self self.
Proof. repeat split. Qed.

Lemma same_frame_trans a b c : same_frame a b -> same_frame b c -> same_frame a c.
Proof. unfold same_frame. intuition congruence. Qed.

Lemma same_frame_update self i node objs :
  same_frame self (set_objects (set_node self i node) objs).
Proof. destruct self. repeat split. Qed.

Lemma aligned_same_frame a b : same_frame a b -> aligned a = aligned b.
Proof. intros (E1 & _ & E3 & E4). unfold aligned. rewrite E1, E3, E4. reflexivity. Qed.

Section InsertFacts.
Variable bounding : ObjRef -> option Rect.t.

Lemma redistribute_ok (depth : nat) (IH : insert_ok bounding depth) (snapshot : list ObjRef) :
  forall self,
    well_formed self = true -> has_children self -> aligned self = true ->
    (Z.to_nat (max_levels self - level self) <= depth)%nat ->
    NoDup snapshot -> (forall o, o ∈ snapshot -> o ∈ objects self) ->
    exists self',
      redistribute bounding (insert_within bounding depth) self snapshot = Ok self'
      /\ same_frame self self' /\ well_formed self' = true
      /\ keeps bounding self self'.
Proof.
  induction snapshot as [|obj rest IHrest]; intros self Hwf Hch Hal Hd Hnd Hsub.
  - exists self. cbn. auto using same_frame_refl, keeps_refl.
  - apply NoDup_cons in Hnd as [Hnotin Hnd].
    assert (forall o, o ∈ rest -> o ∈ objects self) as Hsub'
      by (intros o Ho; apply Hsub; right; exact Ho).
    cbn [redistribute].
    destruct (bounding obj) as [obj_rect|] eqn:Hb; [| apply IHrest; assumption].
    destruct (Z.eqb_spec (get_index self obj_rect) (-1)) as [|Hidx];
      [apply IHrest; assumption |].
    destruct (node_at self (get_index self obj_rect)) as [node|] eqn:Hnode;
      [| apply IHrest; assumption].
    set (i := get_index self obj_rect) in *.
    assert (0 <= i <= 3) as Hi
      by (pose proof (get_index_range self obj_rect) as Hr; cbv zeta in Hr; fold i in Hr; lia).
    destruct (well_formed_children _ Hwf Hch) as (Hl & Hvm & Hhm & Hkids).
    destruct (Hkids i Hi) as (node_ & Hnode_ & Hok & Hwfn).
    rewrite Hnode in Hnode_. injection Hnode_ as <-.
    destruct (child_ok_fields _ _ _ _ _ _ Hok) as (Eb & Emo & Eml & El).
    destruct (IH node obj Hwfn (aligned_child _ _ _ Hal Hl Hi Hok)) as
      (node' & Hins & Hframe & Hwf' & Hfinds & Hkeeps); [rewrite Eml, El; lia |].
    rewrite Hins. cbn [bind].
    rewrite bool_decide_eq_true_2 by (apply Hsub; left).
    set (self2 := set_objects (set_node self i node') (objects self ∖ {[obj]})).
    assert (child_ok (bounds self) (max_objects self) (max_levels self) (level self) i node'
            = true) as Hok'.
    { destruct Hframe as (E1 & E2 & E3 & E4). unfold child_ok in *.
      rewrite <- E1, <- E2, <- E3, <- E4. exact Hok. }
    destruct (well_formed_set_node _ _ _ Hwf Hch Hi Hok' Hwf') as [Hwf2 Hch2].
    pose proof (same_frame_update self i node' (objects self ∖ {[obj]})) as Hsf.
    fold self2 in Hsf.
    destruct (IHrest self2) as (self' & Hred & Hframe' & Hwf'' & Hkeeps').
    + unfold self2. rewrite well_formed_set_objects. exact Hwf2.
    + unfold self2, has_children in *. destruct self; exact Hch2.
    + rewrite <- (aligned_same_frame _ _ Hsf). exact Hal.
    + destruct Hsf as (_ & _ & <- & <-). exact Hd.
    + exact Hnd.
    + intros o Ho. unfold self2. destruct self; cbn in *.
      apply elem_of_difference. split; [apply Hsub'; exact Ho |].
      intros ->%elem_of_singleton. contradiction.
    + exists self'. split; [exact Hred |].
      split; [exact (same_frame_trans _ _ _ Hsf Hframe') |].
      split; [exact Hwf'' |].
      eapply keeps_trans; [| exact Hkeeps'].
      apply (keeps_replace_child bounding self obj obj_rect i node node'); try assumption.
      * reflexivity.
      * intros o Ho Hne. set_solver.
Qed.

(** The part of [insert] after the descent into a child was not taken:
    store locally, then split and redistribute when over capacity. *)
Lemma store_locally_ok (depth : nat) (IH : insert_ok bounding depth) self obj rect :
  well_formed self = true -> aligned self = true ->
  (Z.to_nat (max_levels self - level self) < S depth)%nat ->
  bounding obj = Some rect ->
  Rect.colliderect (bounds self) rect = true ->
  exists self',
    (let self1 := set_objects self ({[obj]} ∪ objects self) in
     if (max_objects self1 <? Z.of_nat (size (objects self1)))
        && (level self1 <? max_levels self1)
     then
       let self2 := match node0 self1 with
                    | None => split self1
                    | Some _ => self1
                    end in
       redistribute bounding (insert_within bounding depth) self2 (elements (objects self2))
     else Ok self1) = Ok self'
    /\ same_frame self self' /\ well_formed self' = true
    /\ finds bounding (bounds self) self' obj
    /\ keeps bounding self self'.
Proof.
  intros Hwf Hal Hd Hb Hc. cbv zeta.
  set (self1 := set_objects self ({[obj]} ∪ objects self)).
  assert (well_formed self1 = true) as Hwf1
    by (unfold self1; rewrite well_formed_set_objects; exact Hwf).
  assert (same_frame self self1) as Hsf1 by (unfold self1; destruct self; repeat split).
  assert (keeps bounding self self1) as Hk1
    by (apply keeps_more_objects; [exact Hwf | set_solver]).
  assert (obj ∈ objects self1) as Hobj by (unfold self1; destruct self; cbn; set_solver).
  assert (forall s, well_formed s = true -> same_frame self s -> obj ∈ objects s ->
                    finds bounding (bounds self) s obj) as Hlocal.
  { intros s Hwfs (Ebs & _) Hin r Hr _ _ Hcr.
    apply elem_of_retrieve; [exact Hwfs |]. rewrite <- Ebs. auto. }
  destruct ((max_objects self1 <? Z.of_nat (size (objects self1)))
            && (level self1 <? max_levels self1)) eqn:Hcond.
  2:{ exists self1. split; [reflexivity |]. split; [exact Hsf1 |].
      split; [exact Hwf1 |]. split; [| exact Hk1].
      apply Hlocal; assumption. }
  apply andb_prop in Hcond as [_ Hlvl]. apply Z.ltb_lt in Hlvl.
  set (self2 := match node0 self1 with None => split self1 | Some _ => self1 end).
  assert (well_formed self2 = true /\ has_children self2 /\ same_frame self1 self2
          /\ keeps bounding self1 self2 /\ obj ∈ objects self2)
    as (Hwf2 & Hch2 & Hsf2 & Hk2 & Hobj2).
  { unfold self2. destruct (node0 self1) eqn:Hn0.
    - split; [exact Hwf1 |]. split; [unfold has_children; congruence |].
      split; [apply same_frame_refl |]. split; [apply keeps_refl | exact Hobj].
    - destruct (well_formed_split _ Hwf1 Hn0 Hlvl) as [? ?].
      split; [assumption |]. split; [assumption |].
      split; [destruct self1; repeat split |].
      split; [apply keeps_split; assumption | destruct self1; exact Hobj]. }
  pose proof (same_frame_trans _ _ _ Hsf1 Hsf2) as Hsf.
  destruct (redistribute_ok depth IH (elements (objects self2)) self2)
    as (self' & Hred & Hframe & Hwf' & Hkeeps); try assumption.
  - rewrite <- (aligned_same_frame _ _ Hsf). exact Hal.
  - destruct Hsf as (_ & _ & <- & <-). destruct Hsf1 as (_ & _ & E3 & E4).
    rewrite <- E3, <- E4 in Hlvl. lia.
  - apply NoDup_elements.
  - intros o Ho. apply elem_of_elements. exact Ho.
  - exists self'. split; [exact Hred |].
    split; [exact (same_frame_trans _ _ _ Hsf Hframe) |].
    split; [exact Hwf' |]. split.
    + intros r Hr Hw Hh Hcr. apply (Hkeeps obj r Hr Hw Hh).
      apply (Hlocal self2 Hwf2 Hsf Hobj2 r Hr Hw Hh Hcr).
    + eapply keeps_trans; [exact Hk1 |]. eapply keeps_trans; [exact Hk2 | exact Hkeeps].
Qed.

Lemma insert_within_ok (depth : nat) : insert_ok bounding depth.
Proof.
  induction depth as [|depth IH]; intros self obj Hwf Hal Hd; [lia |].
  cbn [insert_within].
  destruct (bounding obj) as [obj_rect|] eqn:Hb.
  2:{ exists self. split; [reflexivity |]. split; [apply same_frame_refl |].
      split; [exact Hwf |]. split; [| apply keeps_refl].
      intros r Hr. congruence. }
  destruct (Rect.colliderect (bounds self) obj_rect) eqn:Hc; cbn [negb].
  2:{ exists self. split; [reflexivity |]. split; [apply same_frame_refl |].
      split; [exact Hwf |]. split; [| apply keeps_refl].
      intros r Hr. rewrite Hb in Hr. injection Hr as <-. congruence. }
  pose proof (store_locally_ok depth IH self obj obj_rect Hwf Hal Hd Hb Hc) as Htail.
  destruct (node0 self) as [c|] eqn:Hn0; [| exact Htail].
  destruct (Z.eqb_spec (get_index self obj_rect) (-1)) as [|Hidx]; [exact Htail |].
  assert (has_children self) as Hch by (unfold has_children; congruence).
  set (i := get_index self obj_rect) in *.
  assert (0 <= i <= 3) as Hi
    by (pose proof (get_index_range self obj_rect) as Hr; cbv zeta in Hr; fold i in Hr; lia).
  destruct (well_formed_children _ Hwf Hch) as (Hl & Hvm & Hhm & Hkids).
  destruct (Hkids i Hi) as (node & Hnode & Hok & Hwfn).
  rewrite Hnode.
  destruct (child_ok_fields _ _ _ _ _ _ Hok) as (Eb & Emo & Eml & El).
  destruct (IH node obj Hwfn (aligned_child _ _ _ Hal Hl Hi Hok)) as
    (node' & Hins & Hframe & Hwf' & Hfinds & Hkeeps); [rewrite Eml, El; lia |].
  rewrite Hins. cbn [bind].
  assert (child_ok (bounds self) (max_objects self) (max_levels self) (level self) i node'
          = true) as Hok'.
  { destruct Hframe as (E1 & E2 & E3 & E4). unfold child_ok in *.
    rewrite <- E1, <- E2, <- E3, <- E4. exact Hok. }
  destruct (well_formed_set_node _ _ _ Hwf Hch Hi Hok' Hwf') as [Hwf2 Hch2].
  pose proof (keeps_replace_child bounding self obj obj_rect i node node' (objects self)
                Hwf Hch Hal Hb eq_refl Hi Hnode Hframe Hwf' Hfinds Hkeeps
                ltac:(auto)) as Hk.
  assert (set_objects (set_node self i node') (objects self) = set_node self i node') as E
    by (destruct self; reflexivity).
  rewrite E in Hk.
  exists (set_node self i node'). split; [reflexivity |].
  split; [destruct self; repeat split |]. split; [exact Hwf2 |]. split; [| exact Hk].
  intros r Hr Hw Hh Hcr. rewrite Hb in Hr. injection Hr as <-.
  apply elem_of_retrieve; [exact Hwf2 |].
  split; [destruct self; exact Hcr |]. right.
  exists i, node'. split; [exact Hi |].
  split; [apply node_at_set_node_same; exact Hi |].
  split; [right; destruct self; reflexivity |].
  apply Hfinds; try assumption.
  rewrite Eb. apply (child_collides self obj_rect i); try assumption; reflexivity.
Qed.
End InsertFacts.

Lemma child_ok_same_frame b mo ml l i node node' :
  same_frame node node' -> child_ok b mo ml l i node = child_ok b mo ml l i node'.
Proof. intros (E1 & E2 & E3 & E4). unfold child_ok. rewrite E1, E2, E3, E4. reflexivity. Qed.

(** [_remove_recursive] changes local sets only. *)
Lemma remove_recursive_shape obj rect :
  forall self,
    well_formed self = true ->
    well_formed (_remove_recursive self obj rect) = true
    /\ same_frame self (_remove_recursive self obj rect).
Proof.
  fix IH 1. intros [b mo ml l objs n0 n1 n2 n3 vm hm] Hwf.
  cbn [_remove_recursive].
  destruct (Rect.colliderect b rect); cbn [negb];
    [| split; [exact Hwf | apply same_frame_refl]].
  destruct n0 as [c0|].
  - cbn in Hwf. destruct n1 as [c1|], n2 as [c2|], n3 as [c3|]; try discriminate.
    rewrite !andb_true_iff in Hwf.
    destruct Hwf as ((((((((((Hl & Hv) & Hh) & K0) & K1) & K2) & K3) & W0) & W1) & W2) & W3).
    destruct (IH c0 W0) as (W0' & F0), (IH c1 W1) as (W1' & F1),
      (IH c2 W2) as (W2' & F2), (IH c3 W3) as (W3' & F3).
    split; [| repeat split].
    cbn [well_formed].
    rewrite <- !(child_ok_same_frame _ _ _ _ _ _ _ F0), <- !(child_ok_same_frame _ _ _ _ _ _ _ F1),
      <- !(child_ok_same_frame _ _ _ _ _ _ _ F2), <- !(child_ok_same_frame _ _ _ _ _ _ _ F3).
    rewrite !andb_true_iff. tauto.
  - split; [| repeat split]. cbn in *. exact Hwf.
Qed.

Lemma remove_shape bounding self obj :
  well_formed self = true ->
  well_formed (remove bounding self obj) = true
  /\ same_frame self (remove bounding self obj).
Proof.
  intros Hwf. unfold remove. destruct (bounding obj).
  - apply remove_recursive_shape. exact Hwf.
  - split; [exact Hwf | apply same_frame_refl].
Qed.

Lemma init_well_formed region mo ml l : well_formed (init region mo ml l) = true.
Proof. reflexivity. Qed.

(** [insert] returns, and keeps the index well-formed and aligned. *)
Lemma insert_returns bounding self obj :
  well_formed self = true -> aligned self = true ->
  exists self',
    insert bounding self obj = Ok self'
    /\ well_formed self' = true /\ aligned self' = true
    /\ finds bounding (bounds self) self' obj
    /\ keeps bounding self self'.
Proof.
  intros Hwf Hal. unfold insert, depth_budget.
  destruct (insert_within_ok bounding (S (Z.to_nat (max_levels self - level self)))
              self obj Hwf Hal ltac:(lia)) as (self' & E & Hf & Hwf' & Hfinds & Hkeeps).
  exists self'. rewrite <- (aligned_same_frame _ _ Hf). auto.
Qed.

(** After the move, [update_object] returns and the entity is found
    over its new rectangle. *)
Lemma update_object_finds (bounding : ObjRef -> option Rect.t) self obj rect :
  well_formed self = true -> aligned self = true ->
  bounding obj = Some rect ->
  0 <= Rect.width rect -> 0 <= Rect.height rect ->
  Rect.colliderect (bounds self) rect = true ->
  exists self',
    update_object bounding self obj = Ok self'
    /\ obj ∈ retrieve self' rect
    /\ well_formed self' = true /\ aligned self' = true.
Proof.
  intros Hwf Hal Hb Hw Hh Hc. unfold update_object.
  destruct (remove_shape bounding self obj Hwf) as [Hwf1 Hf1].
  destruct (insert_returns bounding (remove bounding self obj) obj Hwf1)
    as (self' & E & Hwf' & Hal' & Hfinds & _).
  - rewrite <- (aligned_same_frame _ _ Hf1). exact Hal.
  - exists self'. split; [exact E |]. split; [| auto].
    apply Hfinds; try assumption.
    destruct Hf1 as (<- & _). exact Hc.
Qed.

(** Every index a program can build is well-formed and aligned. *)
Lemma built_index_shape self :
  built self -> well_formed self = true /\ aligned self = true.
Proof.
  induction 1 as [region mo ml Hal | bounding self obj self' _ [Hwf Hal] E
                 | bounding self obj _ [Hwf Hal] | bounding self obj self' _ [Hwf Hal] E].
  - split; [reflexivity | exact Hal].
  - destruct (insert_returns bounding self obj Hwf Hal) as (s & E' & Hwf' & Hal' & _).
    rewrite E in E'. injection E' as <-. auto.
  - destruct (remove_shape bounding self obj Hwf) as [Hwf1 Hf1].
    split; [exact Hwf1 |]. rewrite <- (aligned_same_frame _ _ Hf1). exact Hal.
  - destruct (remove_shape bounding self obj Hwf) as [Hwf1 Hf1].
    destruct (insert_returns bounding (remove bounding self obj) obj Hwf1)
      as (s & E' & Hwf' & Hal' & _).
    + rewrite <- (aligned_same_frame _ _ Hf1). exact Hal.
    + unfold update_object in E. rewrite E in E'. injection E' as <-. auto.
Qed.

(** In an index a program built, a moved entity whose new rectangle
    meets the region is found over that rectangle after
    [update_object]. *)
Lemma update_object_finds_in_built (bounding : ObjRef -> option Rect.t) self obj rect :
  built self ->
  bounding obj = Some rect ->
  0 <= Rect.width rect -> 0 <= Rect.height rect ->
  Rect.colliderect (bounds self) rect = true ->
  exists self',
    update_object bounding self obj = Ok self'
    /\ obj ∈ retrieve self' rect /\ built self'.
Proof.
  intros Hb Hr Hw Hh Hc. destruct (built_index_shape _ Hb) as [Hwf Hal].
  destruct (update_object_finds bounding self obj rect Hwf Hal Hr Hw Hh Hc)
    as (self' & E & Hin & _).
  exists self'. split; [exact E |]. split; [exact Hin |].
  exact (built_update bounding self obj self' Hb E).
Qed.

(** The local set of the root is part of every answer to a query that
    meets the region. *)
Lemma root_objects_returned self q :
  well_formed self = true ->
  Rect.colliderect (bounds self) q = true ->
  objects self ⊆ retrieve self q.
Proof.
  intros Hwf Hc o Ho. apply (elem_of_retrieve self q o Hwf). split; [exact Hc | left; exact Ho].
Qed.

(** A query that does not meet the region has an empty answer. *)
Lemma retrieve_outside self q :
  Rect.colliderect (bounds self) q = false -> retrieve self q = ∅.
Proof.
  destruct self as [b mo ml l objs n0 n1 n2 n3 vm hm]. cbn. intros ->. reflexivity.
Qed.

(** [update_object] for an entity whose rectangle does not meet the
    region changes nothing: [_remove_recursive] and [insert] both return
    at their first test. *)
Lemma update_object_outside (bounding : ObjRef -> option Rect.t) self obj rect :
  bounding obj = Some rect ->
  Rect.colliderect (bounds self) rect = false ->
  update_object bounding self obj = Ok self.
Proof.
  intros Hb Hc. unfold update_object, remove. rewrite Hb.
  assert (_remove_recursive self obj rect = self) as ->.
  { destruct self as [b mo ml l objs n0 n1 n2 n3 vm hm]. cbn in Hc |- *.
    rewrite Hc. reflexivity. }
  unfold insert, depth_budget. cbn [insert_within]. rewrite Hb, Hc. reflexivity.
Qed.

(** C2, as amended. Take an index that is well-formed and aligned (its
    region has positive width and height that are multiples of two to
    the number of levels), as every index built by the constructor and
    changed through [insert], [remove] and [update_object] is, with the
    region, the bounding rectangles and the queries in the C int range.
    After an entity's shape has moved, so that its bounding rectangle is
    now [rect], of non-negative width and height, [update_object]
    returns and leaves the index well-formed and aligned over the same
    region. If [rect] meets the region, a [retrieve] over [rect] returns
    the entity. Whatever is stored in the local set of the root is
    returned to every query that meets the region, so an entity kept at
    the root is still returned by a query over its old rectangle. If
    [rect] does not meet the region, a [retrieve] over [rect] does not
    return the entity. *)
Theorem reposition_found (bounding : ObjRef -> option Rect.t) self obj rect :
  well_formed self = true -> aligned self = true ->
  Rect.fits (bounds self) = true -> boxes_fit bounding ->
  bounding obj = Some rect ->
  0 <= Rect.width rect -> 0 <= Rect.height rect ->
  exists self',
    update_object bounding self obj = Ok self'
    /\ bounds self' = bounds self
    /\ well_formed self' = true /\ aligned self' = true
    /\ (Rect.colliderect (bounds self) rect = true -> obj ∈ retrieve self' rect)
    /\ (forall q, Rect.fits q = true -> Rect.colliderect (bounds self) q = true ->
          objects self' ⊆ retrieve self' q)
    /\ (Rect.colliderect (bounds self) rect = false -> obj ∉ retrieve self' rect).
Proof.
  intros Hwf Hal _ _ Hb Hw Hh.
  destruct (remove_shape bounding self obj Hwf) as [Hwf1 Hf1].
  assert (aligned (remove bounding self obj) = true) as Hal1
    by (rewrite <- (aligned_same_frame _ _ Hf1); exact Hal).
  destruct (insert_within_ok bounding (depth_budget (remove bounding self obj))
              (remove bounding self obj) obj Hwf1 Hal1 ltac:(unfold depth_budget; lia))
    as (self' & E & Hf & Hwf' & Hfinds & _).
  pose proof (same_frame_trans _ _ _ Hf1 Hf) as Hf2.
  assert (bounds self' = bounds self) as Eb by (destruct Hf2 as (-> & _); reflexivity).
  assert (aligned self' = true) as Hal'
    by (rewrite <- (aligned_same_frame _ _ Hf2); exact Hal).
  exists self'. split; [exact E |]. split; [exact Eb |].
  split; [exact Hwf' |]. split; [exact Hal' |]. split; [| split].
  - intros Hc. apply Hfinds; try assumption. destruct Hf1 as (<- & _). exact Hc.
  - intros q _ Hc. apply root_objects_returned; [exact Hwf' |]. rewrite Eb. exact Hc.
  - intros Hc. rewrite retrieve_outside by (rewrite Eb; exact Hc). set_solver.
Qed.

Lemma placed_boxes_fit (rect : Rect.t) :
  Rect.fits rect = true -> boxes_fit (Samples.placed rect).
Proof.
  intros Hfit o r Hr. destruct o as [|[|o]]; cbn in Hr; try discriminate.
  injection Hr as <-. exact Hfit.
Qed.

Lemma reposition_found_witness :
  exists self',
    update_object (Samples.placed Samples.new_rect) Samples.index_one 1%nat = Ok self'
    /\ 1%nat ∈ retrieve self' Samples.new_rect.
Proof.
  destruct (reposition_found (Samples.placed Samples.new_rect) Samples.index_one 1%nat
              Samples.new_rect eq_refl eq_refl eq_refl
              (placed_boxes_fit Samples.new_rect eq_refl) eq_refl
              ltac:(cbn; lia) ltac:(cbn; lia))
    as (self' & E & _ & _ & _ & Hin & _).
  exists self'. split; [exact E | exact (Hin eq_refl)].
Defined.

(** Against C2 as stated. An entity that moved from [old_rect] to the
    disjoint [new_rect] is, after [update_object], still returned by a
    [retrieve] over [old_rect]: it sits in the local set of the root,
    which every query meeting the region returns. An entity that moved
    out of the region, to [far_rect], is not returned by a [retrieve]
    over its new rectangle. *)
Lemma reposition_old_query_still_answers :
  Rect.colliderect Samples.old_rect Samples.new_rect = false
  /\ insert (Samples.placed Samples.old_rect) (init_default Samples.world_bounds) 1%nat
     = Ok Samples.index_one
  /\ 1%nat ∈ retrieve Samples.index_one Samples.old_rect
  /\ (exists self',
        update_object (Samples.placed Samples.new_rect) Samples.index_one 1%nat = Ok self'
        /\ 1%nat ∈ retrieve self' Samples.new_rect
        /\ 1%nat ∈ retrieve self' Samples.old_rect)
  /\ (exists self',
        update_object (Samples.placed Samples.far_rect) Samples.index_one 1%nat = Ok self'
        /\ 1%nat ∉ retrieve self' Samples.far_rect).
Proof.
  split; [reflexivity |]. split; [vm_compute; reflexivity |].
  split; [by_computation |]. split.
  - assert (match update_object (Samples.placed Samples.new_rect) Samples.index_one 1%nat with
            | Ok self' => Some (bool_decide (1%nat ∈ retrieve self' Samples.new_rect),
                                bool_decide (1%nat ∈ retrieve self' Samples.old_rect))
            | _ => None
            end = Some (true, true)) as Hobs by (vm_compute; reflexivity).
    destruct (update_object _ _ _) as [self'| |]; try discriminate.
    injection Hobs as H1 H2. exists self'.
    split; [reflexivity |].
    split; [exact (bool_decide_eq_true_1 _ H1) | exact (bool_decide_eq_true_1 _ H2)].
  - assert (match update_object (Samples.placed Samples.far_rect) Samples.index_one 1%nat with
            | Ok self' => Some (bool_decide (1%nat ∈ retrieve self' Samples.far_rect))
            | _ => None
            end = Some false) as Hobs by (vm_compute; reflexivity).
    destruct (update_object _ _ _) as [self'| |]; try discriminate.
    injection Hobs as H1. exists self'.
    split; [reflexivity | exact (bool_decide_eq_false_1 _ H1)].
Qed.

(** [update_object] removes with the rectangle the shape has after the
    move: a copy stored in a child that the new rectangle does not meet
    stays there. Objects 1 and 2 are inserted into an index of capacity
    one, which splits; object 1 then moves from the north-west to the
    south-east quadrant, and a query over its old rectangle finds it. *)
Lemma stale_copy_after_move :
  exists t1 t2 t3,
    insert (Samples.two_placed Samples.old_rect) Samples.small_index 1%nat = Ok t1
    /\ insert (Samples.two_placed Samples.old_rect) t1 2%nat = Ok t2
    /\ update_object (Samples.two_placed (Rect.mk 700 700 20 20)) t2 1%nat = Ok t3
    /\ 1%nat ∈ retrieve t3 (Rect.mk 700 700 20 20)
    /\ 1%nat ∈ retrieve t3 Samples.old_rect
    /\ 1%nat ∉ objects t3.
Proof.
  assert (match insert (Samples.two_placed Samples.old_rect) Samples.small_index 1%nat with
          | Ok t1 =>
              match insert (Samples.two_placed Samples.old_rect) t1 2%nat with
              | Ok t2 =>
                  match update_object (Samples.two_placed (Rect.mk 700 700 20 20)) t2 1%nat with
                  | Ok t3 =>
                      Some (bool_decide (1%nat ∈ retrieve t3 (Rect.mk 700 700 20 20)),
                            bool_decide (1%nat ∈ retrieve t3 Samples.old_rect),
                            bool_decide (1%nat ∈ objects t3))
                  | _ => None
                  end
              | _ => None
              end
          | _ => None
          end = Some (true, true, false)) as Hobs by (vm_compute; reflexivity).
  destruct (insert _ Samples.small_index _) as [t1| |] eqn:E1; try discriminate.
  destruct (insert _ t1 _) as [t2| |] eqn:E2; try discriminate.
  destruct (update_object _ t2 _) as [t3| |] eqn:E3; try discriminate.
  injection Hobs as H1 H2 H3. exists t1, t2, t3.
  split; [reflexivity |]. split; [exact E2 |]. split; [exact E3 |].
  repeat split.
  - exact (bool_decide_eq_true_1 _ H1).
  - exact (bool_decide_eq_true_1 _ H2).
  - exact (bool_decide_eq_false_1 _ H3).
Qed.

(** Without alignment an insertion can lose an object: in a region of
    width and height 3 the south-east child covers one unit less than
    the quadrant [get_index] assigns to it. *)
Lemma odd_region_loses_object :
  aligned Samples.odd_index = false
  /\ (exists t1 t2,
        insert Samples.odd_placed Samples.odd_index 1%nat = Ok t1
        /\ insert Samples.odd_placed t1 2%nat = Ok t2
        /\ Rect.colliderect (bounds t2) (Rect.mk 2 2 1 1) = true
        /\ (2%nat ∉ retrieve t2 (Rect.mk 2 2 1 1))
        /\ (2%nat ∉ retrieve t2 (bounds t2))).
Proof.
  split; [reflexivity |].
  assert (match insert Samples.odd_placed Samples.odd_index 1%nat with
          | Ok t1 =>
              match insert Samples.odd_placed t1 2%nat with
              | Ok t2 =>
                  Some (Rect.colliderect (bounds t2) (Rect.mk 2 2 1 1),
                        bool_decide (2%nat ∈ retrieve t2 (Rect.mk 2 2 1 1)),
                        bool_decide (2%nat ∈ retrieve t2 (bounds t2)))
              | _ => None
              end
          | _ => None
          end = Some (true, false, false)) as Hobs by (vm_compute; reflexivity).
  destruct (insert _ Samples.odd_index _) as [t1| |] eqn:E1; try discriminate.
  destruct (insert _ t1 _) as [t2| |] eqn:E2; try discriminate.
  injection Hobs as H1 H2 H3. exists t1, t2.
  split; [reflexivity |]. split; [exact E2 |].
  repeat split.
  - exact H1.
  - exact (bool_decide_eq_false_1 _ H2).
  - exact (bool_decide_eq_false_1 _ H3).
Qed.
End IndexFacts.
(* ===================================================================== *)
(** * More on the dispatcher *)
(* ===================================================================== *)

Section RegistryFacts.

(** X1. Registration followed by lookup. After [add(type_a, type_b,
    handler)], a call on a pair of classes [(type_b, type_a)] runs the
    handler with the two arguments exchanged; a call on a pair
    [(type_a, type_b)] of two different classes runs the handler as it
    is, and for one class on both sides it too runs the handler with the
    arguments exchanged. Pairs of other classes answer as before. *)
Theorem add_then_detect (reg : CollisionDetector.registry) (handler : Handler) (a b : pyval) :
  CollisionDetector.detect
    (CollisionDetector.add reg (type_of a) (type_of b) handler) b a = handler a b
  /\ (type_of a <> type_of b ->
      CollisionDetector.detect
        (CollisionDetector.add reg (type_of a) (type_of b) handler) a b = handler a b)
  /\ (type_of a = type_of b ->
      CollisionDetector.detect
        (CollisionDetector.add reg (type_of a) (type_of b) handler) a b = handler b a)
  /\ (forall x y,
        (type_of x, type_of y) <> (type_of a, type_of b) ->
        (type_of x, type_of y) <> (type_of b, type_of a) ->
        CollisionDetector.detect
          (CollisionDetector.add reg (type_of a) (type_of b) handler) x y
        = CollisionDetector.detect reg x y).
Proof.
  unfold CollisionDetector.detect, CollisionDetector.add. repeat split.
  - rewrite lookup_insert_eq. reflexivity.
  - intros Hne. rewrite lookup_insert_ne by congruence.
    rewrite lookup_insert_eq. reflexivity.
  - intros E. rewrite E, lookup_insert_eq. reflexivity.
  - intros x y H1 H2. rewrite !lookup_insert_ne by congruence. reflexivity.
Qed.

Lemma add_then_detect_witness :
  CollisionDetector.detect
    (CollisionDetector.add ∅ RectShapeT CircleShapeT Samples.no_contact)
    (VShape (Rectangle Samples.tall_rect))
    (VShape (Circle (CircleShape.mk (Vector2.mk 0 0) 1)))
  = Ok None.
Proof.
  exact (proj1 (proj2 (add_then_detect ∅ Samples.no_contact
                         (VShape (Rectangle Samples.tall_rect))
                         (VShape (Circle (CircleShape.mk (Vector2.mk 0 0) 1)))))
           ltac:(discriminate)).
Defined.

Ltac registry_lookup :=
  unfold CollisionDetector.detect, CollisionDetector.init, default_detectors,
    CollisionDetector.add;
  cbn [fold_left fst snd type_of];
  repeat first [rewrite lookup_insert_eq | rewrite lookup_insert_ne by discriminate].

Lemma default_registry_shape_keys (d : Detectors) :
  shape_keys_only (CollisionDetector.init ∅ (default_detectors d)).
Proof.
  intros c1 c2. unfold CollisionDetector.init, default_detectors, CollisionDetector.add.
  cbn [fold_left fst snd]. rewrite !lookup_insert_ne by discriminate.
  apply lookup_empty.
Qed.

Lemma default_registry_detect (d : Detectors) (s1 s2 : CollisionShape) :
  CollisionDetector.detect (CollisionDetector.init ∅ (default_detectors d))
    (VShape s1) (VShape s2) = dispatch_table d s1 s2.
Proof. destruct s1, s2; registry_lookup; reflexivity. Qed.

(** X2. The registry of the engine has a handler for every ordered pair of
    shape classes, so the dispatcher itself never raises for two shapes,
    and it answers as [dispatch_table] says: in particular two rectangles
    reach [rect_intersects_rect] in exchanged order. It has no key for
    game object classes. *)
Theorem default_registry_dispatch (d : Detectors) (s1 s2 : CollisionShape) :
  CollisionDetector.detect (CollisionDetector.init ∅ (default_detectors d))
    (VShape s1) (VShape s2) = dispatch_table d s1 s2
  /\ is_Some (CollisionDetector.init ∅ (default_detectors d)
                !! (shape_type s1, shape_type s2))
  /\ shape_keys_only (CollisionDetector.init ∅ (default_detectors d)).
Proof.
  split; [| split].
  - apply default_registry_detect.
  - unfold shape_type. destruct s1, s2; registry_lookup; eexists; reflexivity.
  - apply default_registry_shape_keys.
Qed.
End RegistryFacts.
(* ===================================================================== *)
(** * More on the engine: registries and the tick *)
(* ===================================================================== *)

Section DictFacts.
Context {V : Type}.
Implicit Types (d : Dict.t V) (k : Z) (v : V).










End DictFacts.

Section RegistryInvariant.





End RegistryInvariant.



Lemma ok_inv {A : Type} (r : result A) :
  match r with Ok _ => true | _ => false end = true -> exists a, r = Ok a.
Proof. destruct r as [a| |]; try discriminate. eauto. Qed.

Section TickFacts.
Context `{RectCoord} `{GameClasses}.

(** With a registry that has no key for game object classes the
    candidate loop of the tick completes exactly when every candidate
    is the moved object itself, and then it adds no collision. *)
Lemma detect_against_shape_keys (reg : CollisionDetector.registry) (h : Heap)
    (moved_obj : ObjRef) (collisions : list Engine.Collision) (collision_objs : list ObjRef) :
  shape_keys_only reg ->
  Engine.detect_against reg h moved_obj collisions collision_objs
  = if forallb (Nat.eqb moved_obj) collision_objs then Ok collisions
    else Raise NotImplementedError.
Proof.
  intros Hreg. induction collision_objs as [|c rest IH]; cbn; [reflexivity |].
  destruct (moved_obj =? c)%nat; cbn; [exact IH |].
  unfold CollisionDetector.detect. cbn. rewrite Hreg. reflexivity.
Qed.

Lemma detect_collisions_shape_keys (reg : CollisionDetector.registry) (h : Heap)
    (tree : SpatialQuadTree.t) (collisions : list Engine.Collision) (objs_moved : list ObjRef) :
  shape_keys_only reg ->
  Engine.detect_collisions reg h tree collisions objs_moved
  = if forallb (alone_in_index h tree) objs_moved then Ok collisions
    else Raise NotImplementedError.
Proof.
  intros Hreg. induction objs_moved as [|m rest IH]; cbn; [reflexivity |].
  unfold alone_in_index at 1.
  destruct (collision_shape (h m)) as [shape|]; cbn; [| exact IH].
  rewrite detect_against_shape_keys by exact Hreg.
  destruct (forallb _ (elements _)); cbn; [exact IH | reflexivity].
Qed.

(** X5. The tick of [Engine] never reports a collision. Its registry has no
    handler for game object classes, so the collision phase completes
    exactly when every moved object with a shape finds nothing but itself
    in the index, and raises [NotImplementedError] otherwise. A tick that
    completes has therefore made no [on_collision] call and has left the
    class object as it was. *)
Theorem tick_makes_no_callback (w w' : Engine.World) (self self' : Engine.t) (dt : float) :
  shape_keys_only (Engine.collision_detector (Engine.cls w)) ->
  Engine.update w self dt = Ok (w', self') ->
  Engine.calls w' = Engine.calls w
  /\ Engine.cls w' = Engine.cls w
  /\ forall h tree collisions objs_moved,
       Engine.detect_collisions (Engine.collision_detector (Engine.cls w))
         h tree collisions objs_moved
       = if forallb (alone_in_index h tree) objs_moved then Ok collisions
         else Raise NotImplementedError.
Proof.
  intros Hreg Hupd. unfold Engine.update in Hupd.
  destruct (Engine.update_objects _ _ _) as [heap1 objs_moved].
  destruct (Engine.update_tree _ _ _) as [tree| |]; cbn in Hupd; try discriminate.
  rewrite detect_collisions_shape_keys in Hupd by exact Hreg.
  destruct (forallb _ _); cbn in Hupd; try discriminate.
  injection Hupd as <- <-. cbn. rewrite app_nil_r.
  split; [reflexivity |]. split; [reflexivity |].
  intros. apply detect_collisions_shape_keys. exact Hreg.
Qed.
End TickFacts.

Lemma tick_makes_no_callback_witness :
  exists w' self',
    Samples.ticked_once Samples.stand_in_detectors 0 = Ok (w', self')
    /\ Engine.calls w' = [].
Proof.
  assert (match Samples.ticked_once Samples.stand_in_detectors 0 with
          | Ok _ => true
          | _ => false
          end = true) as Hobs by (vm_compute; reflexivity).
  destruct (ok_inv (Samples.ticked_once Samples.stand_in_detectors 0) Hobs)
    as [[w' self'] E].
  exists w', self'. split; [exact E |].
  exact (proj1 (@tick_makes_no_callback Samples.c_int_cast Samples.classes
                  (Samples.registered_one Samples.stand_in_detectors).1.1 w'
                  (Samples.registered_one Samples.stand_in_detectors).1.2 self' 0
                  (default_registry_shape_keys Samples.stand_in_detectors) E)).
Defined.
(* ===================================================================== *)
(** * More on raycast: the cap on the number of hits *)
(* ===================================================================== *)

Section RaycastCap.
Variables (heap : Heap) (origin direction : Vector2.t) (max_distance : float)
  (ignore_obj_tpyes : gset Z).

Lemma raycast_loop_length (hits_lim : Z) (objs : list ObjRef) :
  forall hits r,
    Z.of_nat (length hits) <= hits_lim ->
    raycast_loop heap origin direction max_distance hits_lim ignore_obj_tpyes hits objs = Ok r ->
    Z.of_nat (length r) <= hits_lim.
Proof.
  induction objs as [|obj rest IH]; intros hits r Hlen; cbn.
  - intros [= <-]. exact Hlen.
  - destruct (Z.leb_spec hits_lim (Z.of_nat (length hits))) as [Hfull|Hroom].
    + intros [= <-]. exact Hlen.
    + destruct (bool_decide _); [apply IH; exact Hlen |].
      destruct (negb _); [apply IH; exact Hlen |].
      destruct (collision_shape _) as [shape|]; [| apply IH; exact Hlen].
      destruct (intersects_ray _ _ _ _) as [[h|]| |]; cbn; try discriminate.
      * apply IH. rewrite length_app. cbn. lia.
      * apply IH. exact Hlen.
Qed.

Lemma raycast_loop_prefix (hits_lim : Z) (objs : list ObjRef) :
  forall hits full,
    Z.of_nat (length hits) <= hits_lim ->
    collect_hits heap origin direction max_distance ignore_obj_tpyes objs = Ok full ->
    raycast_loop heap origin direction max_distance hits_lim ignore_obj_tpyes hits objs
    = Ok (firstn (Z.to_nat hits_lim) (hits ++ full)).
Proof.
  induction objs as [|obj rest IH]; intros hits full Hlen; cbn.
  - intros [= <-]. rewrite app_nil_r, firstn_all2 by lia. reflexivity.
  - destruct (Z.leb_spec hits_lim (Z.of_nat (length hits))) as [Hfull|Hroom].
    + intros _. replace (Z.to_nat hits_lim) with (length hits + 0)%nat by lia.
      rewrite firstn_app_2. cbn. rewrite app_nil_r. reflexivity.
    + destruct (bool_decide _); [apply IH; exact Hlen |].
      destruct (negb _); [apply IH; exact Hlen |].
      destruct (collision_shape _) as [shape|]; [| apply IH; exact Hlen].
      destruct (intersects_ray _ _ _ _) as [[h|]| |]; cbn; try discriminate.
      * destruct (collect_hits _ _ _ _ _ rest) as [later| |] eqn:E; cbn; try discriminate.
        intros [= <-]. rewrite (IH _ later) by (rewrite ?length_app; cbn; lia || reflexivity).
        rewrite <- app_assoc. reflexivity.
      * destruct (collect_hits _ _ _ _ _ rest) as [later| |] eqn:E; cbn; try discriminate.
        intros [= <-]. apply IH; [exact Hlen | reflexivity].
Qed.
End RaycastCap.

(** X6. With a cap [hits_lim >= 0], [raycast] returns at most [hits_lim]
    hits, and whenever examining every candidate succeeds it returns the
    first [hits_lim] of all the hits, in the order in which the index
    hands out the candidates (not by distance along the ray). *)
Theorem raycast_cap `{RectCoord} (spatial_tree : SpatialQuadTree.t) (heap : Heap)
    (origin direction : Vector2.t) (max_distance : float) (hits_lim : Z)
    (ignore_obj_tpyes : gset Z) :
  0 <= hits_lim ->
  let candidates :=
    elements (SpatialQuadTree.retrieve spatial_tree
                (create_ray_bounds origin
                   (Vector2.add origin (Vector2.scale direction max_distance)))) in
  (forall r,
      raycast spatial_tree heap origin direction max_distance hits_lim ignore_obj_tpyes = Ok r ->
      Z.of_nat (length r) <= hits_lim)
  /\ (forall full,
        collect_hits heap origin direction max_distance ignore_obj_tpyes candidates = Ok full ->
        raycast spatial_tree heap origin direction max_distance hits_lim ignore_obj_tpyes
        = Ok (firstn (Z.to_nat hits_lim) full)).
Proof.
  intros Hlim candidates. unfold raycast. fold candidates. split.
  - intros r. apply raycast_loop_length. cbn. exact Hlim.
  - intros full Hfull.
    exact (raycast_loop_prefix heap origin direction max_distance ignore_obj_tpyes
             hits_lim candidates [] full Hlim Hfull).
Qed.

Lemma raycast_cap_witness :
  exists r,
    @raycast Samples.c_int_cast Samples.ray_tree Samples.ray_heap
      (Vector2.mk 0 0) (Vector2.mk 3 4) 20 1 ∅ = Ok r
    /\ Z.of_nat (length r) <= 1.
Proof.
  assert (match @raycast Samples.c_int_cast Samples.ray_tree Samples.ray_heap
                  (Vector2.mk 0 0) (Vector2.mk 3 4) 20 1 ∅ with
          | Ok _ => true
          | _ => false
          end = true) as Hobs by (vm_compute; reflexivity).
  destruct (@raycast Samples.c_int_cast Samples.ray_tree Samples.ray_heap
              (Vector2.mk 0 0) (Vector2.mk 3 4) 20 1 ∅) as [r| |] eqn:E; try discriminate.
  exists r. split; [reflexivity |].
  exact (proj1 (@raycast_cap Samples.c_int_cast Samples.ray_tree Samples.ray_heap
                  (Vector2.mk 0 0) (Vector2.mk 3 4) 20 1 ∅ ltac:(lia)) r E).
Defined.
(* ===================================================================== *)
(** * Signs in binary64 arithmetic *)
(* ===================================================================== *)

Section SignFacts.

Lemma bra_cases (s : bool) (m e : Z) (l : location) :
  binary_round_aux prec emax s m e l = S754_nan
  \/ binary_round_aux prec emax s m e l = S754_zero s
  \/ (exists m' e', binary_round_aux prec emax s m e l = S754_finite s m' e')
  \/ binary_round_aux prec emax s m e l = S754_infinity s.
Proof.
  unfold binary_round_aux.
  destruct (shr_fexp _ _ m e l) as [mrs' e'].
  destruct (shr_fexp _ _ _ e' loc_Exact) as [mrs'' e''].
  destruct (shr_m mrs'') as [|p|p]; [tauto | | tauto].
  destruct (Z.leb _ _); eauto 6.
Qed.

Lemma bra_opp (s : bool) (m e : Z) (l : location) :
  binary_round_aux prec emax (negb s) m e l = SFopp (binary_round_aux prec emax s m e l).
Proof.
  unfold binary_round_aux.
  destruct (shr_fexp _ _ m e l) as [mrs' e'].
  destruct (shr_fexp _ _ _ e' loc_Exact) as [mrs'' e''].
  destruct (shr_m mrs'') as [|p|p]; [reflexivity | | reflexivity].
  destruct (Z.leb _ _); reflexivity.
Qed.

Lemma shr_1_nonneg (mrs : shr_record) : 0 <= shr_m mrs -> 0 <= shr_m (shr_1 mrs).
Proof. destruct mrs as [[|[p|p|]|p] r s]; cbn; lia. Qed.

Lemma iter_pos_nonneg (p : positive) :
  forall mrs, 0 <= shr_m mrs -> 0 <= shr_m (SpecFloat.iter_pos shr_1 p mrs).
Proof.
  induction p as [p IH|p IH|]; intros mrs Hm; cbn.
  - apply IH, IH, shr_1_nonneg, Hm.
  - apply IH, IH, Hm.
  - apply shr_1_nonneg, Hm.
Qed.

Lemma shr_fexp_nonneg (m e : Z) (l : location) :
  0 <= m -> 0 <= shr_m (fst (shr_fexp prec emax m e l)).
Proof.
  intros Hm. unfold shr_fexp, shr.
  assert (0 <= shr_m (shr_record_of_loc m l)) as H0 by (destruct l as [|[]]; exact Hm).
  destruct (_ - e) as [|p|p]; cbn [fst]; [exact H0 | | exact H0].
  apply iter_pos_nonneg, H0.
Qed.

Lemma round_nearest_even_nonneg (m : Z) (l : location) :
  0 <= m -> 0 <= round_nearest_even m l.
Proof. intros Hm. destruct l as [|[]]; cbn; [| destruct (Z.even m) | |]; lia. Qed.

(** Rounding a non-negative mantissa never gives NaN. *)
Lemma bra_not_nan (s : bool) (m e : Z) (l : location) :
  0 <= m -> binary_round_aux prec emax s m e l <> S754_nan.
Proof.
  intros Hm. unfold binary_round_aux.
  pose proof (shr_fexp_nonneg m e l Hm) as H1.
  destruct (shr_fexp _ _ m e l) as [mrs' e']. cbn [fst] in H1.
  pose proof (shr_fexp_nonneg _ e' loc_Exact
                (round_nearest_even_nonneg _ (loc_of_shr_record mrs') H1)) as H2.
  destruct (shr_fexp _ _ _ e' loc_Exact) as [mrs'' e'']. cbn [fst] in H2.
  destruct (shr_m mrs'') as [|p|p]; [discriminate | | lia].
  destruct (Z.leb _ _); discriminate.
Qed.

Lemma SF64mul_comm (x y : spec_float) : SF64mul x y = SF64mul y x.
Proof.
  destruct x as [sx|sx| |sx mx ex], y as [sy|sy| |sy my ey]; cbn;
    rewrite ?(xorb_comm sx sy), ?(Pos.mul_comm mx my), ?(Z.add_comm ex ey); reflexivity.
Qed.

Lemma xorb_negb_r' (a b : bool) : xorb a (negb b) = negb (xorb a b).
Proof. destruct a, b; reflexivity. Qed.

Lemma SF64mul_opp_r (x y : spec_float) : SF64mul x (SFopp y) = SFopp (SF64mul x y).
Proof.
  destruct x as [sx|sx| |sx mx ex], y as [sy|sy| |sy my ey]; cbn;
    rewrite ?xorb_negb_r'; try reflexivity.
  apply bra_opp.
Qed.

Lemma binary_normalize_opp (z e : Z) :
  z <> 0 ->
  binary_normalize prec emax (- z) e false = SFopp (binary_normalize prec emax z e false).
Proof.
  intros Hz. destruct z as [|p|p]; [contradiction | |];
    [change (- Z.pos p) with (Z.neg p) | change (- Z.neg p) with (Z.pos p)];
    unfold binary_normalize, binary_round; destruct (shl_align _ _ _) as [mz ez].
  - apply (bra_opp false).
  - rewrite (bra_opp false). destruct (binary_round_aux _ _ false _ _ _) as [[]|[]| |[] ? ?];
      reflexivity.
Qed.

(** The two sums [(-P) + Q] and [(-Q) + P] are opposite values. *)
Lemma SF64add_opposite (P Q : spec_float) :
  sf_opposite (SF64add (SFopp P) Q) (SF64add (SFopp Q) P).
Proof.
  unfold sf_opposite.
  destruct P as [sp|sp| |sp mp ep], Q as [sq|sq| |sq mq eq];
    try (left; split; reflexivity);
    try (right; left; destruct sp, sq; eexists _, _; split; reflexivity);
    try (right; right; reflexivity);
    try (right; right; destruct sp; reflexivity);
    try (right; right; destruct sq; reflexivity).
  - destruct sp, sq; cbn; auto.
  - cbn [SFopp SF64add SFadd]. rewrite (Z.min_comm eq ep).
    set (ez := Z.min ep eq).
    set (zp := Z.pos (fst (shl_align mp ep ez))).
    set (zq := Z.pos (fst (shl_align mq eq ez))).
    assert (cond_Zopp (negb sq) zq + cond_Zopp sp zp
            = - (cond_Zopp (negb sp) zp + cond_Zopp sq zq)) as ->
      by (destruct sp, sq; cbn; lia).
    destruct (Z.eq_dec (cond_Zopp (negb sp) zp + cond_Zopp sq zq) 0) as [E|Hne].
    + right. left. rewrite E. cbn. eauto.
    + right. right. apply binary_normalize_opp. exact Hne.
Qed.

Lemma SFdiv_one_finite (s : bool) (m : positive) (e : Z) :
  let f := SF64div (Prim2SF 1) (S754_finite s m e) in
  f = S754_zero s \/ (exists m' e', f = S754_finite s m' e') \/ f = S754_infinity s.
Proof.
  cbn zeta. change (Prim2SF 1) with (S754_finite false 4503599627370496 (-52)).
  unfold SF64div, SFdiv.
  destruct (SFdiv_core_binary _ _ _ _ _ _) as [[mz ez] lz] eqn:Ecore.
  assert (0 <= mz) as Hmz.
  { unfold SFdiv_core_binary in Ecore.
    match type of Ecore with
    | (let '(q, r) := Z.div_eucl ?m' ?m2 in _) = _ =>
        pose proof (Z.div_pos m' m2) as Hq; unfold Z.div in Hq;
        assert (0 <= m') as Hm'
    end.
    { destruct (_ - _ - _) as [|p|p]; [lia | | lia].
      apply Z.shiftl_nonneg. lia. }
    destruct (Z.div_eucl _ _) as [q r]. injection Ecore as <- _ _.
    apply Hq; [exact Hm' | lia]. }
  cbn [xorb]. pose proof (bra_not_nan s mz ez lz Hmz) as Hnn.
  destruct (bra_cases s mz ez lz) as [H|[H|[H|H]]]; [contradiction | tauto ..].
Qed.

(** With opposite determinants [a] and [d] and [|a| >= 1e-10], the
    orientation value [v = (1 / a) * d] is never positive. *)
Lemma orientation_not_positive (a d eps : spec_float) :
  sf_opposite a d ->
  SFltb (SFabs a) eps = false ->
  SFltb (S754_zero false) eps = true ->
  SFltb (S754_zero false) (SF64mul (SF64div (Prim2SF 1) a) d) = false.
Proof.
  intros Hopp Habs Heps.
  assert (forall s, a <> S754_zero s) as Hnz
    by (intros s ->; cbn in Habs; congruence).
  destruct Hopp as [[-> ->]|[(s & s' & -> & _)| ->]];
    [reflexivity | exfalso; exact (Hnz s eq_refl) |].
  destruct a as [s|s| |s m e]; [exfalso; exact (Hnz s eq_refl) | reflexivity | reflexivity |].
  destruct (SFdiv_one_finite s m e) as [->|[(m' & e' & ->)| ->]]; cbn [SFopp].
  - reflexivity.
  - cbn. rewrite xorb_negb_r', xorb_nilpotent. cbn.
    destruct (bra_cases true (Z.pos (m' * m)) (e' + e) loc_Exact)
      as [->|[->|[(m2 & e2 & ->)| ->]]]; reflexivity.
  - cbn. rewrite xorb_negb_r', xorb_nilpotent. reflexivity.
Qed.

(** With a finite determinant the orientation value is negative or a
    zero, never NaN. *)
Lemma orientation_negative (a d eps : spec_float) :
  sf_opposite a d ->
  SFltb (SFabs a) eps = false ->
  SFltb (S754_zero false) eps = true ->
  (match a with S754_zero _ | S754_finite _ _ _ => true | _ => false end) = true ->
  SFleb (SF64mul (SF64div (Prim2SF 1) a) d) (S754_zero false) = true.
Proof.
  intros Hopp Habs Heps Hfin.
  assert (forall s, a <> S754_zero s) as Hnz
    by (intros s ->; cbn in Habs; congruence).
  destruct a as [s|s| |s m e]; try discriminate; [exfalso; exact (Hnz s eq_refl) |].
  destruct Hopp as [[[=] _]|[(s1 & s' & [=] & _)| ->]].
  destruct (SFdiv_one_finite s m e) as [->|[(m' & e' & ->)| ->]]; cbn [SFopp].
  - reflexivity.
  - cbn. rewrite xorb_negb_r', xorb_nilpotent. cbn.
    pose proof (bra_not_nan true (Z.pos (m' * m)) (e' + e) loc_Exact ltac:(lia)) as Hnn.
    destruct (bra_cases true (Z.pos (m' * m)) (e' + e) loc_Exact)
      as [H|[->|[(m2 & e2 & ->)| ->]]]; [contradiction | reflexivity ..].
  - cbn. rewrite xorb_negb_r', xorb_nilpotent. reflexivity.
Qed.
End SignFacts.

Section CompareFacts.

Lemma SFcompare_antisym (x y : spec_float) :
  SFcompare y x = option_map CompOpp (SFcompare x y).
Proof.
  destruct x as [[]|[]| |[] mx ex], y as [[]|[]| |[] my ey]; cbn; try reflexivity;
    rewrite (Z.compare_antisym ex ey);
    destruct (ex ?= ey); cbn; try reflexivity;
    rewrite ?(Pos.compare_cont_antisym mx my Eq); reflexivity.
Qed.

Lemma SFleb_SFltb (x y : spec_float) : SFleb x y = true -> SFltb y x = false.
Proof.
  unfold SFleb, SFltb. rewrite (SFcompare_antisym x y).
  destruct (SFcompare x y) as [[]|]; cbn; congruence.
Qed.

Lemma leb_ltb (x y : float) : PrimFloat.leb x y = true -> PrimFloat.ltb y x = false.
Proof. rewrite leb_spec, ltb_spec. apply SFleb_SFltb. Qed.

Lemma eqb_zero (x : float) :
  PrimFloat.eqb x 0 = true -> exists s, Prim2SF x = S754_zero s.
Proof.
  rewrite FloatAxioms.eqb_spec. change (Prim2SF 0) with (S754_zero false).
  unfold SFeqb. destruct (Prim2SF x) as [s|[]| |[] m e]; cbn; try discriminate. eauto.
Qed.

Lemma zon_mul_r (x y : spec_float) : sf_zero_or_nan y -> sf_zero_or_nan (SF64mul x y).
Proof. destruct x as [sx|sx| |sx mx ex], y as [sy|sy| |sy my ey]; cbn; tauto. Qed.

Lemma zon_mul_l (x y : spec_float) : sf_zero_or_nan x -> sf_zero_or_nan (SF64mul x y).
Proof. destruct x as [sx|sx| |sx mx ex], y as [sy|sy| |sy my ey]; cbn; tauto. Qed.

Lemma zon_add (x y : spec_float) :
  sf_zero_or_nan x -> sf_zero_or_nan y -> sf_zero_or_nan (SF64add x y).
Proof. destruct x as [[]|sx| |sx mx ex], y as [[]|sy| |sy my ey]; cbn; tauto. Qed.

Lemma zon_sub (x y : spec_float) :
  sf_zero_or_nan x -> sf_zero_or_nan y -> sf_zero_or_nan (SF64sub x y).
Proof. destruct x as [[]|sx| |sx mx ex], y as [[]|sy| |sy my ey]; cbn; tauto. Qed.

Lemma zon_not_negative (x : spec_float) :
  sf_zero_or_nan x -> SFltb x (S754_zero false) = false.
Proof. destruct x as [sx|sx| |sx mx ex]; cbn; tauto. Qed.
End CompareFacts.
(* ===================================================================== *)
(** * Rays against polygons and lines *)
(* ===================================================================== *)

Section RaySegmentFacts.
Local Open Scope float_scope.

(** The determinant [a = edge_dir.dot(h)] and the value
    [direction.dot(q)] of the ray/segment test are opposite values. *)
Lemma ray_determinants_opposite (v1 v2 direction : Vector2.t) :
  let edge_dir := Vector2.sub v2 v1 in
  sf_opposite
    (Prim2SF (ray_determinant v1 v2 direction))
    (Prim2SF (Vector2.dot direction
                (Vector2.mk (- Vector2.y edge_dir) (Vector2.x edge_dir)))).
Proof.
  cbn zeta. unfold ray_determinant, Vector2.dot. cbn [Vector2.x Vector2.y].
  rewrite !add_spec, !mul_spec, !opp_spec, !SF64mul_opp_r.
  rewrite (SF64mul_comm (Prim2SF (Vector2.x direction))),
          (SF64mul_comm (Prim2SF (Vector2.y direction))).
  apply SF64add_opposite.
Qed.

Lemma ray_segment_polygon (v1 v2 origin direction : Vector2.t) :
  ray_segment v1 v2 origin direction (fun v => 0 <? v) = None.
Proof.
  unfold ray_segment.
  pose proof (ray_determinants_opposite v1 v2 direction) as Hopp. cbn zeta in Hopp.
  fold (ray_determinant v1 v2 direction).
  destruct (PrimFloat.abs _ <? _) eqn:Habs; [reflexivity |].
  destruct (_ || _); [reflexivity |].
  rewrite ltb_spec, abs_spec in Habs.
  rewrite ltb_spec, mul_spec, div_spec. change (Prim2SF 0) with (S754_zero false).
  rewrite (orientation_not_positive _ _ _ Hopp Habs eq_refl). reflexivity.
Qed.

Lemma ray_segment_line (v1 v2 origin direction : Vector2.t) :
  PyFloat.is_finite (ray_determinant v1 v2 direction) = true ->
  ray_segment v1 v2 origin direction (fun v => negb (v <=? 0)) = None.
Proof.
  intros Hfin. unfold ray_segment.
  pose proof (ray_determinants_opposite v1 v2 direction) as Hopp. cbn zeta in Hopp.
  fold (ray_determinant v1 v2 direction).
  destruct (PrimFloat.abs _ <? _) eqn:Habs; [reflexivity |].
  destruct (_ || _); [reflexivity |].
  rewrite ltb_spec, abs_spec in Habs.
  rewrite leb_spec, mul_spec, div_spec. change (Prim2SF 0) with (S754_zero false).
  rewrite (orientation_negative _ _ _ Hopp Habs eq_refl Hfin). reflexivity.
Qed.

Lemma edge_loop_keeps_state (self : PolygonShape.t) (origin direction : Vector2.t)
    (max_distance : float) (es : list (Vector2.t * Vector2.t)) (st : float * Vector2.t) :
  PolygonShape.edge_loop self origin direction max_distance st es = Ok st.
Proof.
  induction es as [|[v1 v2] es IH]; [reflexivity |].
  cbn [PolygonShape.edge_loop]. unfold PolygonShape.edge_step.
  destruct st as [min_t hit_normal]. rewrite ray_segment_polygon. cbn [bind]. exact IH.
Qed.

(** X7. No ray ever hits a polygon. In the ray/segment test the orientation
    value [v = f * direction.dot(q)] is [(1 / a) * (-a)], never positive,
    so the test [v > 0] rejects every edge: [intersects_ray] of a
    polygon returns [None] for every polygon, ray and maximal distance,
    and never raises. *)
Theorem polygon_ray_never_hits (self : PolygonShape.t) (origin direction : Vector2.t)
    (max_distance : float) :
  PolygonShape.intersects_ray self origin direction max_distance = Ok None
  /\ intersects_ray (Polygon self) origin direction max_distance = Ok None.
Proof.
  assert (PolygonShape.intersects_ray self origin direction max_distance = Ok None) as E.
  { unfold PolygonShape.intersects_ray. rewrite edge_loop_keeps_state. reflexivity. }
  split; exact E.
Qed.

(** X8. A ray whose determinant with a line segment is finite never hits
    the segment: the orientation value is then negative or zero and the
    test [v <= 0] rejects the crossing, wherever it lies. *)
Theorem line_ray_never_hits (self : LineShape.t) (origin direction : Vector2.t)
    (max_distance : float) :
  PyFloat.is_finite
    (ray_determinant (LineShape.start self) (LineShape.end_ self) direction) = true ->
  LineShape.intersects_ray self origin direction max_distance = Ok None.
Proof.
  intros Hfin. unfold LineShape.intersects_ray.
  rewrite (ray_segment_line _ _ _ _ Hfin). reflexivity.
Qed.
End RaySegmentFacts.

(** The segment from [(0, -1)] to [(0, 1)] and the ray from [(-1, 0)]
    along [(1, 0)], which crosses it at distance 1. *)
Lemma line_ray_never_hits_witness :
  LineShape.intersects_ray
    (LineShape.mk (Vector2.mk 0 0) (Vector2.mk 0 (-1)) (Vector2.mk 0 1))
    (Vector2.mk (-1) 0) (Vector2.mk 1 0) 10 = Ok None.
Proof.
  apply line_ray_never_hits. vm_compute. reflexivity.
Defined.
(* ===================================================================== *)
(** * More on rays against shapes *)
(* ===================================================================== *)

Section RayShapeFacts.
Local Open Scope float_scope.

Lemma quad_a_zero (direction : Vector2.t) :
  (Vector2.x direction =? 0) = true -> (Vector2.y direction =? 0) = true ->
  (2 * CircleShape.quad_a direction =? 0) = true.
Proof.
  intros Hx Hy. apply eqb_zero in Hx as [sx Hx]. apply eqb_zero in Hy as [sy Hy].
  rewrite FloatAxioms.eqb_spec, mul_spec. unfold CircleShape.quad_a, Vector2.dot.
  rewrite add_spec, !mul_spec, Hx, Hy. destruct sx, sy; reflexivity.
Qed.

Lemma discriminant_zero_direction (self : CircleShape.t) (origin direction : Vector2.t) :
  (Vector2.x direction =? 0) = true -> (Vector2.y direction =? 0) = true ->
  (CircleShape.discriminant self origin direction <? 0) = false.
Proof.
  intros Hx Hy. apply eqb_zero in Hx as [sx Hx]. apply eqb_zero in Hy as [sy Hy].
  rewrite ltb_spec. change (Prim2SF 0) with (S754_zero false).
  apply zon_not_negative.
  unfold CircleShape.discriminant, CircleShape.quad_a, CircleShape.quad_b, Vector2.dot.
  rewrite sub_spec. apply zon_sub.
  - rewrite mul_spec. apply zon_mul_r. rewrite mul_spec. apply zon_mul_r.
    rewrite add_spec, !mul_spec, Hx, Hy. apply zon_add; apply zon_mul_r; exact I.
  - rewrite mul_spec. apply zon_mul_l. rewrite mul_spec. apply zon_mul_r.
    rewrite add_spec, !mul_spec, Hx, Hy. destruct sx, sy; exact I.
Qed.

(** X9. A ray whose direction is the zero vector: a circle's
    [intersects_ray] raises [ZeroDivisionError], wherever the circle and
    the origin are, while a rectangle's returns [None]. *)
Theorem circle_zero_direction_raises (self : CircleShape.t) (origin direction : Vector2.t)
    (max_distance : float) :
  (Vector2.x direction =? 0) = true ->
  (Vector2.y direction =? 0) = true ->
  CircleShape.intersects_ray self origin direction max_distance = Raise ZeroDivisionError
  /\ forall r : RectShape.t,
       RectShape.intersects_ray r origin direction max_distance = Ok None.
Proof.
  intros Hx Hy. split.
  - unfold CircleShape.intersects_ray.
    rewrite (discriminant_zero_direction self origin direction Hx Hy).
    unfold CircleShape.root1, PyFloat.div. rewrite (quad_a_zero direction Hx Hy).
    reflexivity.
  - intros r. unfold RectShape.intersects_ray. rewrite Hx, Hy. reflexivity.
Qed.

(** X10. Every hit a shape reports lies within the maximal distance, and its
    point is the origin moved along the direction by the reported
    distance. *)
Theorem hit_within_reach (shape : CollisionShape) (origin direction : Vector2.t)
    (max_distance : float) (hit : RaycastHit) :
  intersects_ray shape origin direction max_distance = Ok (Some hit) ->
  (max_distance <? hit_distance hit) = false
  /\ hit_point hit = Vector2.add origin (Vector2.scale direction (hit_distance hit)).
Proof.
  destruct shape as [s|s|s|s]; cbn [intersects_ray].
  - unfold CircleShape.intersects_ray.
    destruct (_ <? 0); [discriminate |].
    destruct (CircleShape.root1 _ _ _) as [t1| |]; cbn [bind]; try discriminate.
    destruct (CircleShape.root2 _ _ _) as [t2| |]; cbn [bind]; try discriminate.
    assert (forall t, CircleShape.admissible t max_distance = true ->
              (let hit_point := Vector2.add origin (Vector2.scale direction t) in
               let* normal := Vector2.normalize
                                (Vector2.sub hit_point (CircleShape.position s)) in
               Ok (Some (mkRaycastHit hit_point normal t))) = Ok (Some hit) ->
              (max_distance <? hit_distance hit) = false
              /\ hit_point hit
                 = Vector2.add origin (Vector2.scale direction (hit_distance hit))) as Hcase.
    { intros t Hadm. cbn zeta.
      destruct (Vector2.normalize _) as [n| |]; cbn [bind]; try discriminate.
      intros [= <-]. cbn. split; [| reflexivity].
      unfold CircleShape.admissible in Hadm. apply andb_prop in Hadm as [_ Hle].
      apply leb_ltb. exact Hle. }
    destruct (CircleShape.admissible t1 max_distance) eqn:E1; [exact (Hcase t1 E1) |].
    destruct (CircleShape.admissible t2 max_distance) eqn:E2; [exact (Hcase t2 E2) |].
    discriminate.
  - unfold RectShape.intersects_ray.
    destruct (_ && _); [discriminate |].
    destruct (RectShape.slab _ _ (Vector2.x origin) _) as [[t_min_x t_max_x]|];
      [| discriminate].
    destruct (RectShape.slab _ _ (Vector2.y origin) _) as [[t_min_y t_max_y]|];
      [| discriminate].
    destruct (_ || _); [discriminate |].
    destruct (max_distance <? _) eqn:E; [discriminate |].
    intros [= <-]. cbn. split; [exact E | reflexivity].
  - unfold PolygonShape.intersects_ray. rewrite edge_loop_keeps_state. discriminate.
  - unfold LineShape.intersects_ray.
    destruct (ray_segment _ _ _ _ _) as [t|]; [| discriminate].
    destruct (max_distance <? t) eqn:E; [discriminate |].
    destruct (Vector2.normalize _) as [n| |]; cbn [bind]; try discriminate.
    intros [= <-]. cbn. split; [exact E | reflexivity].
Qed.
End RayShapeFacts.

Lemma circle_zero_direction_raises_witness :
  CircleShape.intersects_ray (CircleShape.mk (Vector2.mk 30 40) 5)
    (Vector2.mk 0 0) (Vector2.mk 0 0) 20 = Raise ZeroDivisionError.
Proof.
  exact (proj1 (circle_zero_direction_raises (CircleShape.mk (Vector2.mk 30 40) 5)
                  (Vector2.mk 0 0) (Vector2.mk 0 0) 20 eq_refl eq_refl)).
Defined.

Lemma hit_within_reach_witness :
  exists hit,
    intersects_ray (Circle (CircleShape.mk (Vector2.mk 30 40) 5))
      (Vector2.mk 0 0) (Vector2.mk 3 4) 20 = Ok (Some hit)
    /\ (20 <? hit_distance hit)%float = false.
Proof.
  assert (match intersects_ray (Circle (CircleShape.mk (Vector2.mk 30 40) 5))
                  (Vector2.mk 0 0) (Vector2.mk 3 4) 20 with
          | Ok (Some _) => true
          | _ => false
          end = true) as Hobs by (vm_compute; reflexivity).
  destruct (intersects_ray (Circle (CircleShape.mk (Vector2.mk 30 40) 5))
              (Vector2.mk 0 0) (Vector2.mk 3 4) 20) as [[hit|]| |] eqn:E; try discriminate.
  exists hit. split; [reflexivity |].
  exact (proj1 (hit_within_reach _ _ _ _ _ E)).
Defined.
(* ===================================================================== *)
(** * The spatial index as a whole *)
(* ===================================================================== *)

Section CoverFacts.
Import SpatialQuadTree IndexShape IndexRel IndexCover.

Implicit Types (self node : SpatialQuadTree.t) (obj : ObjRef) (rect : Rect.t).

(** Induction over the nodes of an index. *)
Lemma index_ind (P : SpatialQuadTree.t -> Prop) :
  (forall self,
      (forall i node, 0 <= i <= 3 -> node_at self i = Some node -> P node) -> P self) ->
  forall self, P self.
Proof.
  intros Hstep. fix IH 1. intros [b mo ml l objs n0 n1 n2 n3 vm hm].
  apply Hstep. intros i node Hi. unfold node_at. cbn.
  destruct (i =? 0); [destruct n0 as [c|]; [intros [= <-]; apply IH | discriminate] |].
  destruct (i =? 1); [destruct n1 as [c|]; [intros [= <-]; apply IH | discriminate] |].
  destruct (i =? 2); [destruct n2 as [c|]; [intros [= <-]; apply IH | discriminate] |].
  destruct n3 as [c|]; [intros [= <-]; apply IH | discriminate].
Qed.

Lemma elem_of_all_objects self obj :
  obj ∈ all_objects self <->
  obj ∈ objects self
  \/ exists i node, 0 <= i <= 3 /\ node_at self i = Some node /\ obj ∈ all_objects node.
Proof.
  destruct self as [b mo ml l objs n0 n1 n2 n3 vm hm]. cbn [all_objects objects].
  unfold node_at. cbn [node0 node1 node2 node3]. split.
  - rewrite !elem_of_union. intros [[[[H|H]|H]|H]|H]; [left; exact H | right ..].
    + destruct n0 as [c|]; [| set_solver]. exists 0, c. cbn. split; [lia | auto].
    + destruct n1 as [c|]; [| set_solver]. exists 1, c. cbn. split; [lia | auto].
    + destruct n2 as [c|]; [| set_solver]. exists 2, c. cbn. split; [lia | auto].
    + destruct n3 as [c|]; [| set_solver]. exists 3, c. cbn. split; [lia | auto].
  - intros [H|(i & node & Hi & Hnode & Hin)]; [set_solver |].
    assert (i = 0 \/ i = 1 \/ i = 2 \/ i = 3) as Hi' by lia.
    destruct Hi' as [->|[->|[->| ->]]]; cbn in Hnode; subst; set_solver.
Qed.

Lemma tidy_unfold bounding self :
  tidy bounding self <->
  (forall o, o ∈ objects self ->
     exists r, bounding o = Some r /\ Rect.colliderect (bounds self) r = true)
  /\ forall i node, 0 <= i <= 3 -> node_at self i = Some node -> tidy bounding node.
Proof.
  destruct self as [b mo ml l objs n0 n1 n2 n3 vm hm]. cbn [tidy objects bounds].
  unfold node_at. cbn [node0 node1 node2 node3]. split.
  - intros (Hl & H0 & H1 & H2 & H3). split; [exact Hl |].
    intros i node Hi.
    assert (i = 0 \/ i = 1 \/ i = 2 \/ i = 3) as Hi' by lia.
    destruct Hi' as [->|[->|[->| ->]]]; cbn; intros ->; assumption.
  - intros [Hl Hk]. split; [exact Hl |].
    repeat split.
    + destruct n0 as [c|]; [apply (Hk 0); [lia | reflexivity] | exact I].
    + destruct n1 as [c|]; [apply (Hk 1); [lia | reflexivity] | exact I].
    + destruct n2 as [c|]; [apply (Hk 2); [lia | reflexivity] | exact I].
    + destruct n3 as [c|]; [apply (Hk 3); [lia | reflexivity] | exact I].
Qed.

(** [retrieve] returns stored objects only. *)
Lemma retrieve_stored q : forall self, retrieve self q ⊆ all_objects self.
Proof.
  fix IH 1. intros [b mo ml l objs n0 n1 n2 n3 vm hm]. cbn [retrieve all_objects].
  destruct (negb _); [clear IH; set_solver |].
  destruct n0 as [c0|]; [pose proof (IH c0) | clear IH; set_solver].
  destruct n1 as [c1|]; [pose proof (IH c1) |];
    (destruct n2 as [c2|]; [pose proof (IH c2) |]);
    (destruct n3 as [c3|]; [pose proof (IH c3) |]);
    clear IH; repeat destruct (_ =? _); set_solver.
Qed.

(** The region of a child lies within the region of its parent. *)
Lemma quadrant_within (b : Rect.t) (i : Z) (r : Rect.t) :
  0 < Rect.width b -> 0 < Rect.height b ->
  Rect.colliderect (quadrant b i) r = true -> Rect.colliderect b r = true.
Proof.
  intros Hw Hh Hc. apply colliderect_true in Hc. apply colliderect_true.
  pose proof (Z.div_pos (Rect.width b) 2 ltac:(lia) ltac:(lia)).
  pose proof (Z.div_pos (Rect.height b) 2 ltac:(lia) ltac:(lia)).
  pose proof (Z.mul_div_le (Rect.width b) 2 ltac:(lia)).
  pose proof (Z.mul_div_le (Rect.height b) 2 ltac:(lia)).
  unfold quadrant in Hc.
  repeat destruct (_ =? _); cbn in Hc; lia.
Qed.

(** A query that overlaps a rectangle to which [get_index] assigns a
    child meets the region of that child and is sent to it. *)
Lemma query_reaches_child self r q i :
  aligned self = true -> level self < max_levels self ->
  vertical_mid self = Rect.x (bounds self) + Rect.width (bounds self) / 2 ->
  horizontal_mid self = Rect.y (bounds self) + Rect.height (bounds self) / 2 ->
  proper r -> proper q ->
  Rect.colliderect (bounds self) q = true ->
  Rect.colliderect r q = true ->
  get_index self r = i -> i <> -1 ->
  Rect.colliderect (quadrant (bounds self) i) q = true
  /\ (get_index self q = -1 \/ get_index self q = i).
Proof.
  intros Ha Hl Hvm Hhm (Hrw & Hrh & _) (Hqw & Hqh & _) Hbq Hrq Hidx Hne.
  destruct (aligned_fields _ Ha) as (Hw & Hh & Heven).
  destruct (Heven Hl) as [Ew Eh].
  pose proof (get_index_sides self r) as Hs. cbv zeta in Hs. rewrite Hidx in Hs.
  pose proof (get_index_range self r) as Hr. cbv zeta in Hr. rewrite Hidx in Hr.
  pose proof (get_index_sides self q) as Hsq. cbv zeta in Hsq.
  pose proof (get_index_range self q) as Hrq'. cbv zeta in Hrq'.
  apply colliderect_true in Hbq, Hrq. rewrite colliderect_true.
  unfold Rect.left, Rect.right, Rect.top, Rect.bottom in Hs, Hsq.
  rewrite Hvm, Hhm in Hs, Hsq.
  set (w2 := Rect.width (bounds self) / 2) in *.
  set (h2 := Rect.height (bounds self) / 2) in *.
  destruct Hs as (S0 & S1 & S2 & S3). destruct Hsq as (Q0 & Q1 & Q2 & Q3).
  clear Ha Heven Hl Hvm Hhm Hidx.
  assert (match i with
          | 0 => Rect.x (bounds self) + w2 <= Rect.x r
                 /\ Rect.y r + Rect.height r <= Rect.y (bounds self) + h2
          | 1 => Rect.x r + Rect.width r <= Rect.x (bounds self) + w2
                 /\ Rect.y r + Rect.height r <= Rect.y (bounds self) + h2
          | 2 => Rect.x r + Rect.width r <= Rect.x (bounds self) + w2
                 /\ Rect.y (bounds self) + h2 <= Rect.y r
          | _ => Rect.x (bounds self) + w2 <= Rect.x r
                 /\ Rect.y (bounds self) + h2 <= Rect.y r
          end) as Si
    by (destruct Hr as [?|[->|[->|[->| ->]]]]; [contradiction | auto ..]).
  clear S0 S1 S2 S3.
  split.
  - clear Q0 Q1 Q2 Q3 Hrq'.
    destruct Hr as [?|[->|[->|[->| ->]]]]; [contradiction | ..];
      unfold quadrant; fold w2 h2; cbn; lia.
  - destruct Hrq' as [E|[E|[E|[E|E]]]]; [left; exact E | ..]; rewrite E in *; right;
      [pose proof (Q0 eq_refl) as Qi | pose proof (Q1 eq_refl) as Qi
       | pose proof (Q2 eq_refl) as Qi | pose proof (Q3 eq_refl) as Qi];
      clear Q0 Q1 Q2 Q3 E;
      destruct Hr as [?|[->|[->|[->| ->]]]]; try contradiction; try reflexivity; exfalso; lia.
Qed.

Lemma retains_refl bounding self : retains bounding self self.
Proof. intros obj r q _ _ _ _ H. exact H. Qed.

Lemma retains_trans bounding a b c :
  retains bounding a b -> retains bounding b c -> retains bounding a c.
Proof. intros Hab Hbc obj r q E Hr Hq Hc H. eauto. Qed.

Lemma retains_more_objects bounding self objs :
  well_formed self = true -> objects self ⊆ objs ->
  retains bounding self (set_objects self objs).
Proof.
  intros Hwf Hsub obj r q _ _ _ _ Hin.
  apply elem_of_retrieve in Hin; [| assumption].
  apply elem_of_retrieve; [rewrite well_formed_set_objects; assumption |].
  destruct self; cbn in *. destruct Hin as [Hc [Hin|Hin]]; (split; [assumption |]).
  - left. set_solver.
  - right. exact Hin.
Qed.

Lemma retains_split bounding self :
  well_formed self = true -> node0 self = None -> level self < max_levels self ->
  retains bounding self (split self).
Proof.
  intros Hwf Hleaf Hl obj r q _ _ _ _ Hin.
  apply elem_of_retrieve in Hin; [| assumption].
  apply elem_of_retrieve; [apply well_formed_split; assumption |].
  destruct Hin as [Hc [Hin|(i & node & _ & Hnode & _)]].
  - split; [exact Hc | left; exact Hin].
  - rewrite (well_formed_leaf _ Hwf Hleaf) in Hnode. discriminate.
Qed.

Lemma set_objects_fields self objs :
  objects (set_objects self objs) = objs
  /\ bounds (set_objects self objs) = bounds self
  /\ (forall j, node_at (set_objects self objs) j = node_at self j)
  /\ (forall r, get_index (set_objects self objs) r = get_index self r).
Proof. destruct self. repeat split. Qed.

Lemma set_node_fields self i node :
  objects (set_node self i node) = objects self
  /\ bounds (set_node self i node) = bounds self
  /\ (forall r, get_index (set_node self i node) r = get_index self r).
Proof. destruct self. repeat split. Qed.

Lemma node_at_set_node self i j node c :
  0 <= i <= 3 -> 0 <= j <= 3 ->
  node_at (set_node self i node) j = Some c ->
  (j = i /\ c = node) \/ (j <> i /\ node_at self j = Some c).
Proof.
  intros Hi Hj H. destruct (Z.eq_dec j i) as [->|Hne].
  - rewrite node_at_set_node_same in H by assumption. left. split; congruence.
  - rewrite node_at_set_node_other in H by (assumption || congruence). right. auto.
Qed.

Lemma tidy_update bounding self i node objs :
  tidy bounding self -> 0 <= i <= 3 -> tidy bounding node ->
  (forall o, o ∈ objs ->
     exists r, bounding o = Some r /\ Rect.colliderect (bounds self) r = true) ->
  tidy bounding (set_objects (set_node self i node) objs).
Proof.
  intros Ht Hi Hn Hl. apply tidy_unfold in Ht as [_ Hk]. apply tidy_unfold.
  destruct (set_objects_fields (set_node self i node) objs) as (-> & -> & Hna & _).
  destruct (set_node_fields self i node) as (_ & -> & _).
  split; [exact Hl |].
  intros j c Hj Hc. rewrite Hna in Hc.
  destruct (node_at_set_node _ _ _ _ _ Hi Hj Hc) as [[_ ->]|[_ Hc']];
    [exact Hn | exact (Hk j c Hj Hc')].
Qed.

Lemma tidy_set_objects bounding self objs :
  tidy bounding self ->
  (forall o, o ∈ objs ->
     exists r, bounding o = Some r /\ Rect.colliderect (bounds self) r = true) ->
  tidy bounding (set_objects self objs).
Proof.
  intros Ht Hl. apply tidy_unfold in Ht as [_ Hk]. apply tidy_unfold.
  destruct (set_objects_fields self objs) as (-> & -> & Hna & _).
  split; [exact Hl |]. intros j c Hj Hc. rewrite Hna in Hc. exact (Hk j c Hj Hc).
Qed.

Lemma tidy_split bounding self : tidy bounding self -> tidy bounding (split self).
Proof.
  destruct self as [b mo ml l objs n0 n1 n2 n3 vm hm]. cbn.
  intros (Hl & _). split; [exact Hl |]. repeat split; intros o Ho; set_solver.
Qed.

Lemma all_objects_update self i node objs :
  0 <= i <= 3 ->
  forall o, o ∈ all_objects (set_objects (set_node self i node) objs) ->
    o ∈ objs \/ o ∈ all_objects node
    \/ exists j c, 0 <= j <= 3 /\ j <> i /\ node_at self j = Some c /\ o ∈ all_objects c.
Proof.
  intros Hi o Ho. apply elem_of_all_objects in Ho.
  destruct (set_objects_fields (set_node self i node) objs) as (Eo & _ & Hna & _).
  rewrite Eo in Ho. destruct Ho as [Ho|(j & c & Hj & Hc & Ho)]; [left; exact Ho |].
  rewrite Hna in Hc.
  destruct (node_at_set_node _ _ _ _ _ Hi Hj Hc) as [[_ ->]|[Hne Hc']]; [auto |].
  right. right. exists j, c. auto.
Qed.

Lemma all_objects_split self : node0 self = None -> all_objects (split self) ⊆ all_objects self.
Proof.
  destruct self as [b mo ml l objs n0 n1 n2 n3 vm hm]. cbn. intros ->. set_solver.
Qed.

Lemma retains_replace_child bounding self obj rect i node node' objs' :
  well_formed self = true -> has_children self -> aligned self = true ->
  bounding obj = Some rect ->
  Rect.colliderect (bounds self) rect = true ->
  get_index self rect = i -> 0 <= i <= 3 ->
  node_at self i = Some node ->
  same_frame node node' -> well_formed node' = true ->
  answers bounding node' obj ->
  retains bounding node node' ->
  (forall o, o ∈ objects self -> o <> obj -> o ∈ objs') ->
  retains bounding self (set_objects (set_node self i node') objs').
Proof.
  intros Hwf Hch Hal Hb Hcr Hidx Hi Hnode Hframe Hwf' Hanswers Hretains Hobjs.
  destruct (well_formed_children _ Hwf Hch) as (Hl & Hvm & Hhm & Hkids).
  destruct (Hkids i Hi) as (node_ & Hnode_ & Hok & Hwfn).
  rewrite Hnode in Hnode_. injection Hnode_ as <-.
  assert (child_ok (bounds self) (max_objects self) (max_levels self) (level self) i node'
          = true) as Hok'.
  { destruct Hframe as (E1 & E2 & E3 & E4). unfold child_ok in *.
    rewrite <- E1, <- E2, <- E3, <- E4. exact Hok. }
  destruct (well_formed_set_node _ _ _ Hwf Hch Hi Hok' Hwf') as [Hwf2 Hch2].
  destruct (child_ok_fields _ _ _ _ _ _ Hok') as (Eb' & _).
  intros o r q Ho Hpr Hpq Hrq Hin.
  apply elem_of_retrieve in Hin; [| assumption].
  apply elem_of_retrieve; [rewrite well_formed_set_objects; assumption |].
  destruct Hin as [Hc Hin].
  destruct (set_objects_fields (set_node self i node') objs') as (Eobj & Ebs & Ena & Egi).
  destruct (set_node_fields self i node') as (_ & Ebn & Egn).
  rewrite Ebs, Ebn, Eobj. split; [exact Hc |].
  destruct Hin as [Hin|(j & c & Hj & Hc' & Hgj & Hin)].
  - destruct (decide (o = obj)) as [->|Hne]; [| left; auto].
    right. rewrite Hb in Ho. injection Ho as <-.
    destruct (query_reaches_child self rect q i Hal Hl Hvm Hhm Hpr Hpq Hc Hrq Hidx
                ltac:(lia)) as [Hcq Hgq].
    exists i, node'. split; [assumption |].
    split; [rewrite Ena; apply node_at_set_node_same; assumption |].
    split; [rewrite Egi, Egn; exact Hgq |].
    apply (Hanswers rect q); try assumption.
    + rewrite Eb'. destruct Hpr as (? & ? & _). apply (child_collides self rect i); try assumption. lia.
    + rewrite Eb'. exact Hcq.
  - right. destruct (decide (j = i)) as [->|Hne].
    + rewrite Hnode in Hc'. injection Hc' as <-.
      exists i, node'. split; [assumption |].
      split; [rewrite Ena; apply node_at_set_node_same; assumption |].
      split; [rewrite Egi, Egn; assumption |].
      apply (Hretains o r q); assumption.
    + exists j, c. split; [assumption |].
      split; [rewrite Ena, node_at_set_node_other; auto |].
      split; [rewrite Egi, Egn; assumption | assumption].
Qed.

Section InsertCover.
Variable bounding : ObjRef -> option Rect.t.

Lemma redistribute_covers (depth : nat) (IH : insert_covers bounding depth)
    (snapshot : list ObjRef) :
  forall self,
    well_formed self = true -> has_children self -> aligned self = true ->
    tidy bounding self ->
    (Z.to_nat (max_levels self - level self) <= depth)%nat ->
    NoDup snapshot -> (forall o, o ∈ snapshot -> o ∈ objects self) ->
    exists self',
      redistribute bounding (insert_within bounding depth) self snapshot = Ok self'
      /\ same_frame self self' /\ well_formed self' = true
      /\ tidy bounding self'
      /\ retains bounding self self'
      /\ all_objects self' ⊆ all_objects self.
Proof.
  induction snapshot as [|obj rest IHrest]; intros self Hwf Hch Hal Htidy Hd Hnd Hsub.
  - exists self. cbn. auto 7 using same_frame_refl, retains_refl.
  - apply NoDup_cons in Hnd as [Hnotin Hnd].
    assert (forall o, o ∈ rest -> o ∈ objects self) as Hsub'
      by (intros o Ho; apply Hsub; right; exact Ho).
    cbn [redistribute].
    destruct (bounding obj) as [obj_rect|] eqn:Hb; [| apply IHrest; assumption].
    destruct (Z.eqb_spec (get_index self obj_rect) (-1)) as [|Hidx];
      [apply IHrest; assumption |].
    destruct (node_at self (get_index self obj_rect)) as [node|] eqn:Hnode;
      [| apply IHrest; assumption].
    set (i := get_index self obj_rect) in *.
    assert (0 <= i <= 3) as Hi
      by (pose proof (get_index_range self obj_rect) as Hr; cbv zeta in Hr; fold i in Hr; lia).
    destruct (well_formed_children _ Hwf Hch) as (Hl & Hvm & Hhm & Hkids).
    destruct (Hkids i Hi) as (node_ & Hnode_ & Hok & Hwfn).
    rewrite Hnode in Hnode_. injection Hnode_ as <-.
    destruct (child_ok_fields _ _ _ _ _ _ Hok) as (Eb & Emo & Eml & El).
    pose proof (proj1 (tidy_unfold bounding self) Htidy) as [Hlocal Hkidst].
    destruct (IH node obj Hwfn (aligned_child _ _ _ Hal Hl Hi Hok) (Hkidst i node Hi Hnode)) as
      (node' & Hins & Hframe & Hwf' & Htidy' & Hanswers & Hretains & Hall);
      [rewrite Eml, El; lia |].
    rewrite Hins. cbn [bind].
    assert (obj ∈ objects self) as Hobj by (apply Hsub; left).
    rewrite bool_decide_eq_true_2 by exact Hobj.
    destruct (Hlocal obj Hobj) as (r0 & Hr0 & Hcr). rewrite Hb in Hr0. injection Hr0 as <-.
    set (self2 := set_objects (set_node self i node') (objects self ∖ {[obj]})).
    assert (child_ok (bounds self) (max_objects self) (max_levels self) (level self) i node'
            = true) as Hok'.
    { destruct Hframe as (E1 & E2 & E3 & E4). unfold child_ok in *.
      rewrite <- E1, <- E2, <- E3, <- E4. exact Hok. }
    destruct (well_formed_set_node _ _ _ Hwf Hch Hi Hok' Hwf') as [Hwf2 Hch2].
    pose proof (same_frame_update self i node' (objects self ∖ {[obj]})) as Hsf.
    fold self2 in Hsf.
    assert (all_objects self2 ⊆ all_objects self) as Hall2.
    { intros o Ho. apply all_objects_update in Ho; [| exact Hi].
      apply elem_of_all_objects.
      destruct Ho as [Ho|[Ho|(j & c & Hj & _ & Hc & Ho)]].
      - left. set_solver.
      - apply Hall in Ho. apply elem_of_union in Ho as [Ho|Ho].
        + apply elem_of_singleton in Ho as ->. left. exact Hobj.
        + right. exists i, node. auto.
      - right. exists j, c. auto. }
    destruct (IHrest self2) as (self' & Hred & Hframe' & Hwf'' & Htidy'' & Hretains' & Hall').
    + unfold self2. rewrite well_formed_set_objects. exact Hwf2.
    + unfold self2, has_children in *. destruct self; exact Hch2.
    + rewrite <- (aligned_same_frame _ _ Hsf). exact Hal.
    + apply tidy_update; try assumption.
      intros o Ho. apply Hlocal. set_solver.
    + destruct Hsf as (_ & _ & <- & <-). exact Hd.
    + exact Hnd.
    + intros o Ho. unfold self2. destruct self; cbn in *.
      apply elem_of_difference. split; [apply Hsub'; exact Ho |].
      intros ->%elem_of_singleton. contradiction.
    + exists self'. split; [exact Hred |].
      split; [exact (same_frame_trans _ _ _ Hsf Hframe') |].
      split; [exact Hwf'' |]. split; [exact Htidy'' |].
      split; [| set_solver].
      eapply retains_trans; [| exact Hretains'].
      apply (retains_replace_child bounding self obj obj_rect i node node'); try assumption.
      * reflexivity.
      * intros o Ho Hne. set_solver.
Qed.

Lemma store_locally_covers (depth : nat) (IH : insert_covers bounding depth) self obj rect :
  well_formed self = true -> aligned self = true -> tidy bounding self ->
  (Z.to_nat (max_levels self - level self) < S depth)%nat ->
  bounding obj = Some rect ->
  Rect.colliderect (bounds self) rect = true ->
  exists self',
    (let self1 := set_objects self ({[obj]} ∪ objects self) in
     if (max_objects self1 <? Z.of_nat (size (objects self1)))
        && (level self1 <? max_levels self1)
     then
       let self2 := match node0 self1 with
                    | None => split self1
                    | Some _ => self1
                    end in
       redistribute bounding (insert_within bounding depth) self2 (elements (objects self2))
     else Ok self1) = Ok self'
    /\ same_frame self self' /\ well_formed self' = true
    /\ tidy bounding self'
    /\ answers bounding self' obj
    /\ retains bounding self self'
    /\ all_objects self' ⊆ {[obj]} ∪ all_objects self.
Proof.
  intros Hwf Hal Htidy Hd Hb Hc. cbv zeta.
  set (self1 := set_objects self ({[obj]} ∪ objects self)).
  assert (well_formed self1 = true) as Hwf1
    by (unfold self1; rewrite well_formed_set_objects; exact Hwf).
  assert (same_frame self self1) as Hsf1 by (unfold self1; destruct self; repeat split).
  assert (retains bounding self self1) as Hk1
    by (apply retains_more_objects; [exact Hwf | set_solver]).
  assert (obj ∈ objects self1) as Hobj by (unfold self1; destruct self; cbn; set_solver).
  pose proof (proj1 (tidy_unfold bounding self) Htidy) as [Hlocal0 _].
  assert (tidy bounding self1) as Htidy1.
  { apply tidy_set_objects; [exact Htidy |].
    intros o Ho. apply elem_of_union in Ho as [Ho|Ho]; [| auto].
    apply elem_of_singleton in Ho as ->. eauto. }
  assert (all_objects self1 ⊆ {[obj]} ∪ all_objects self) as Hall1.
  { intros o Ho. apply elem_of_all_objects in Ho.
    destruct (set_objects_fields self ({[obj]} ∪ objects self)) as (Eo & _ & Hna & _).
    fold self1 in Eo, Hna. rewrite Eo in Ho.
    destruct Ho as [Ho|(j & c & Hj & Hcj & Ho)].
    - apply elem_of_union in Ho as [Ho|Ho]; [set_solver |].
      apply elem_of_union_r, elem_of_all_objects. left. exact Ho.
    - rewrite Hna in Hcj. apply elem_of_union_r, elem_of_all_objects.
      right. exists j, c. auto. }
  assert (forall s, well_formed s = true -> same_frame self s -> obj ∈ objects s ->
                    answers bounding s obj) as Hlocal.
  { intros s Hwfs (Ebs & _) Hin r q _ _ _ _ Hcq _.
    apply elem_of_retrieve; [exact Hwfs |]. auto. }
  destruct ((max_objects self1 <? Z.of_nat (size (objects self1)))
            && (level self1 <? max_levels self1)) eqn:Hcond.
  2:{ exists self1. split; [reflexivity |]. split; [exact Hsf1 |].
      split; [exact Hwf1 |]. split; [exact Htidy1 |].
      split; [apply Hlocal; assumption |]. split; assumption. }
  apply andb_prop in Hcond as [_ Hlvl]. apply Z.ltb_lt in Hlvl.
  set (self2 := match node0 self1 with None => split self1 | Some _ => self1 end).
  assert (well_formed self2 = true /\ has_children self2 /\ same_frame self1 self2
          /\ retains bounding self1 self2 /\ obj ∈ objects self2
          /\ tidy bounding self2 /\ all_objects self2 ⊆ all_objects self1)
    as (Hwf2 & Hch2 & Hsf2 & Hk2 & Hobj2 & Htidy2 & Hall2).
  { unfold self2. destruct (node0 self1) eqn:Hn0.
    - split; [exact Hwf1 |]. split; [unfold has_children; congruence |].
      split; [apply same_frame_refl |]. split; [apply retains_refl |].
      split; [exact Hobj |]. split; [exact Htidy1 | reflexivity].
    - destruct (well_formed_split _ Hwf1 Hn0 Hlvl) as [? ?].
      split; [assumption |]. split; [assumption |].
      split; [destruct self1; repeat split |].
      split; [apply retains_split; assumption |].
      split; [destruct self1; exact Hobj |].
      split; [apply tidy_split; exact Htidy1 | apply all_objects_split; exact Hn0]. }
  pose proof (same_frame_trans _ _ _ Hsf1 Hsf2) as Hsf.
  destruct (redistribute_covers depth IH (elements (objects self2)) self2)
    as (self' & Hred & Hframe & Hwf' & Htidy' & Hretains & Hall'); try assumption.
  - rewrite <- (aligned_same_frame _ _ Hsf). exact Hal.
  - destruct Hsf as (_ & _ & <- & <-). destruct Hsf1 as (_ & _ & E3 & E4).
    rewrite <- E3, <- E4 in Hlvl. lia.
  - apply NoDup_elements.
  - intros o Ho. apply elem_of_elements. exact Ho.
  - exists self'. split; [exact Hred |].
    split; [exact (same_frame_trans _ _ _ Hsf Hframe) |].
    split; [exact Hwf' |]. split; [exact Htidy' |]. split; [| split].
    + intros r q Hr Hpr Hpq Hcr Hcq Hrq. apply (Hretains obj r q Hr Hpr Hpq Hrq).
      destruct Hframe as (Ebf & _). rewrite <- Ebf in Hcr, Hcq.
      exact (Hlocal self2 Hwf2 Hsf Hobj2 r q Hr Hpr Hpq Hcr Hcq Hrq).
    + eapply retains_trans; [exact Hk1 |]. eapply retains_trans; [exact Hk2 | exact Hretains].
    + set_solver.
Qed.

Lemma insert_within_covers (depth : nat) : insert_covers bounding depth.
Proof.
  induction depth as [|depth IH]; intros self obj Hwf Hal Htidy Hd; [lia |].
  cbn [insert_within].
  destruct (bounding obj) as [obj_rect|] eqn:Hb.
  2:{ exists self. split; [reflexivity |]. split; [apply same_frame_refl |].
      split; [exact Hwf |]. split; [exact Htidy |]. split; [| split].
      - intros r q Hr. congruence.
      - apply retains_refl.
      - set_solver. }
  destruct (Rect.colliderect (bounds self) obj_rect) eqn:Hc; cbn [negb].
  2:{ exists self. split; [reflexivity |]. split; [apply same_frame_refl |].
      split; [exact Hwf |]. split; [exact Htidy |]. split; [| split].
      - intros r q Hr _ _ Hcr. rewrite Hb in Hr. injection Hr as <-. congruence.
      - apply retains_refl.
      - set_solver. }
  pose proof (store_locally_covers depth IH self obj obj_rect Hwf Hal Htidy Hd Hb Hc) as Htail.
  destruct (node0 self) as [c|] eqn:Hn0; [| exact Htail].
  destruct (Z.eqb_spec (get_index self obj_rect) (-1)) as [|Hidx]; [exact Htail |].
  assert (has_children self) as Hch by (unfold has_children; congruence).
  set (i := get_index self obj_rect) in *.
  assert (0 <= i <= 3) as Hi
    by (pose proof (get_index_range self obj_rect) as Hr; cbv zeta in Hr; fold i in Hr; lia).
  destruct (well_formed_children _ Hwf Hch) as (Hl & Hvm & Hhm & Hkids).
  destruct (Hkids i Hi) as (node & Hnode & Hok & Hwfn).
  rewrite Hnode.
  destruct (child_ok_fields _ _ _ _ _ _ Hok) as (Eb & Emo & Eml & El).
  pose proof (proj1 (tidy_unfold bounding self) Htidy) as [Hlocal Hkidst].
  destruct (IH node obj Hwfn (aligned_child _ _ _ Hal Hl Hi Hok) (Hkidst i node Hi Hnode)) as
    (node' & Hins & Hframe & Hwf' & Htidy' & Hanswers & Hretains & Hall);
    [rewrite Eml, El; lia |].
  rewrite Hins. cbn [bind].
  assert (child_ok (bounds self) (max_objects self) (max_levels self) (level self) i node'
          = true) as Hok'.
  { destruct Hframe as (E1 & E2 & E3 & E4). unfold child_ok in *.
    rewrite <- E1, <- E2, <- E3, <- E4. exact Hok. }
  destruct (child_ok_fields _ _ _ _ _ _ Hok') as (Eb' & _).
  destruct (well_formed_set_node _ _ _ Hwf Hch Hi Hok' Hwf') as [Hwf2 Hch2].
  pose proof (retains_replace_child bounding self obj obj_rect i node node' (objects self)
                Hwf Hch Hal Hb Hc eq_refl Hi Hnode Hframe Hwf' Hanswers Hretains
                ltac:(auto)) as Hk.
  assert (set_objects (set_node self i node') (objects self) = set_node self i node') as E
    by (destruct self; reflexivity).
  rewrite E in Hk.
  exists (set_node self i node'). split; [reflexivity |].
  split; [destruct self; repeat split |]. split; [exact Hwf2 |].
  split; [rewrite <- E; apply tidy_update; auto |].
  split; [| split; [exact Hk |]].
  - intros r q Hr Hpr Hpq Hcr Hcq Hrq. rewrite Hb in Hr. injection Hr as <-.
    destruct (set_node_fields self i node') as (_ & Ebn & Egn). rewrite Ebn in Hcr, Hcq.
    destruct (query_reaches_child self obj_rect q i Hal Hl Hvm Hhm Hpr Hpq Hcq Hrq eq_refl
                ltac:(lia)) as [Hcq' Hgq].
    apply elem_of_retrieve; [exact Hwf2 |].
    split; [rewrite Ebn; exact Hcq |]. right.
    exists i, node'. split; [exact Hi |].
    split; [apply node_at_set_node_same; exact Hi |].
    split; [rewrite Egn; exact Hgq |].
    apply (Hanswers obj_rect q); try assumption.
    + rewrite Eb'. destruct Hpr as (? & ? & _).
      apply (child_collides self obj_rect i); try assumption; reflexivity.
    + rewrite Eb'. exact Hcq'.
  - intros o Ho. rewrite <- E in Ho. apply all_objects_update in Ho; [| exact Hi].
    destruct Ho as [Ho|[Ho|(j & c' & Hj & _ & Hc' & Ho)]].
    + apply elem_of_union_r, elem_of_all_objects. left. exact Ho.
    + apply Hall in Ho. apply elem_of_union in Ho as [Ho|Ho]; [set_solver |].
      apply elem_of_union_r, elem_of_all_objects. right. exists i, node. auto.
    + apply elem_of_union_r, elem_of_all_objects. right. exists j, c'. auto.
Qed.
End InsertCover.

Lemma node_has_children self i node :
  well_formed self = true -> node_at self i = Some node -> has_children self.
Proof.
  intros Hwf Hnode Hn0. rewrite (well_formed_leaf _ Hwf Hn0) in Hnode. discriminate.
Qed.

(** What is known about child [i] of a well-formed, aligned, tidy node. *)
Lemma child_invariants bounding self i node :
  well_formed self = true -> aligned self = true -> tidy bounding self ->
  0 <= i <= 3 -> node_at self i = Some node ->
  well_formed node = true /\ aligned node = true /\ tidy bounding node
  /\ bounds node = quadrant (bounds self) i.
Proof.
  intros Hwf Hal Htidy Hi Hnode.
  pose proof (node_has_children _ _ _ Hwf Hnode) as Hch.
  destruct (well_formed_children _ Hwf Hch) as (Hl & _ & _ & Hkids).
  destruct (Hkids i Hi) as (node_ & Hnode_ & Hok & Hwfn).
  rewrite Hnode in Hnode_. injection Hnode_ as <-.
  destruct (child_ok_fields _ _ _ _ _ _ Hok) as (Eb & _).
  split; [exact Hwfn |]. split; [exact (aligned_child _ _ _ Hal Hl Hi Hok) |].
  split; [| exact Eb].
  apply tidy_unfold in Htidy as [_ Hk]. exact (Hk i node Hi Hnode).
Qed.

(** In a tidy index every stored object has a bounding rectangle, and
    it meets the region of the index. *)
Lemma stored_meets_region bounding obj :
  forall self,
    well_formed self = true -> aligned self = true -> tidy bounding self ->
    obj ∈ all_objects self ->
    exists r, bounding obj = Some r /\ Rect.colliderect (bounds self) r = true.
Proof.
  apply (index_ind (fun self =>
    well_formed self = true -> aligned self = true -> tidy bounding self ->
    obj ∈ all_objects self ->
    exists r, bounding obj = Some r /\ Rect.colliderect (bounds self) r = true)).
  intros self IH Hwf Hal Htidy Hin.
  apply elem_of_all_objects in Hin as [Hin|(i & node & Hi & Hnode & Hin)].
  - apply tidy_unfold in Htidy as [Hl _]. exact (Hl obj Hin).
  - destruct (child_invariants bounding self i node Hwf Hal Htidy Hi Hnode)
      as (Hwfn & Haln & Htn & Eb).
    destruct (IH i node Hi Hnode Hwfn Haln Htn Hin) as (r & Hr & Hc).
    exists r. split; [exact Hr |].
    destruct (aligned_fields _ Hal) as (Hw & Hh & _).
    rewrite Eb in Hc. exact (quadrant_within _ _ _ Hw Hh Hc).
Qed.

Lemma remove_recursive_miss self obj r :
  Rect.colliderect (bounds self) r = false -> _remove_recursive self obj r = self.
Proof. destruct self. cbn. intros ->. reflexivity. Qed.

Lemma remove_recursive_fields self obj r :
  well_formed self = true ->
  Rect.colliderect (bounds self) r = true ->
  objects (_remove_recursive self obj r) = objects self ∖ {[obj]}
  /\ forall j, node_at (_remove_recursive self obj r) j
               = option_map (fun n => _remove_recursive n obj r) (node_at self j).
Proof.
  destruct self as [b mo ml l objs n0 n1 n2 n3 vm hm]. cbn [bounds well_formed].
  intros Hwf Hc. cbn [_remove_recursive]. rewrite Hc. cbn [negb].
  destruct n0 as [c0|].
  - split; [reflexivity |]. intros j. unfold node_at. cbn.
    repeat destruct (_ =? _); reflexivity.
  - destruct n1, n2, n3; try discriminate. split; [reflexivity |].
    intros j. unfold node_at. cbn. repeat destruct (_ =? _); reflexivity.
Qed.

(** [_remove_recursive] takes the object out of every node of a tidy
    index. *)
Lemma remove_recursive_gone bounding obj r :
  bounding obj = Some r ->
  forall self,
    well_formed self = true -> aligned self = true -> tidy bounding self ->
    obj ∉ all_objects (_remove_recursive self obj r).
Proof.
  intros Hb.
  apply (index_ind (fun self =>
    well_formed self = true -> aligned self = true -> tidy bounding self ->
    obj ∉ all_objects (_remove_recursive self obj r))).
  intros self IH Hwf Hal Htidy Hin.
  destruct (Rect.colliderect (bounds self) r) eqn:Hc.
  - destruct (remove_recursive_fields self obj r Hwf Hc) as [Eo Ena].
    apply elem_of_all_objects in Hin as [Hin|(i & node' & Hi & Hnode' & Hin)].
    + rewrite Eo in Hin. set_solver.
    + rewrite Ena in Hnode'. destruct (node_at self i) as [node|] eqn:Hnode; [| discriminate].
      injection Hnode' as <-.
      destruct (child_invariants bounding self i node Hwf Hal Htidy Hi Hnode)
        as (Hwfn & Haln & Htn & _).
      exact (IH i node Hi Hnode Hwfn Haln Htn Hin).
  - rewrite (remove_recursive_miss _ _ _ Hc) in Hin.
    destruct (stored_meets_region bounding obj self Hwf Hal Htidy Hin) as (r' & Hr' & Hc').
    congruence.
Qed.

(** [_remove_recursive] leaves the other objects where they are. *)
Lemma remove_recursive_others obj r o :
  o <> obj ->
  forall self,
    well_formed self = true ->
    (o ∈ all_objects (_remove_recursive self obj r) <-> o ∈ all_objects self)
    /\ forall q, o ∈ retrieve (_remove_recursive self obj r) q <-> o ∈ retrieve self q.
Proof.
  intros Hne.
  apply (index_ind (fun self =>
    well_formed self = true ->
    (o ∈ all_objects (_remove_recursive self obj r) <-> o ∈ all_objects self)
    /\ forall q, o ∈ retrieve (_remove_recursive self obj r) q <-> o ∈ retrieve self q)).
  intros self IH Hwf.
  destruct (Rect.colliderect (bounds self) r) eqn:Hc;
    [| rewrite (remove_recursive_miss _ _ _ Hc); tauto].
  destruct (remove_recursive_fields self obj r Hwf Hc) as [Eo Ena].
  destruct (remove_recursive_shape obj r self Hwf) as [Hwf' (Eb & _)].
  assert (forall q, get_index (_remove_recursive self obj r) q = get_index self q) as Egi.
  { intros q. destruct self as [b mo ml l objs n0 n1 n2 n3 vm hm]. cbn [_remove_recursive].
    cbn in Hc. rewrite Hc. cbn [negb]. destruct n0; reflexivity. }
  assert (forall i node, 0 <= i <= 3 -> node_at self i = Some node -> well_formed node = true)
    as Hwfk.
  { intros i node Hi Hnode.
    pose proof (node_has_children _ _ _ Hwf Hnode) as Hch.
    destruct (well_formed_children _ Hwf Hch) as (_ & _ & _ & Hkids).
    destruct (Hkids i Hi) as (node_ & Hnode_ & _ & Hwfn). congruence. }
  split.
  - rewrite !elem_of_all_objects, Eo. split.
    + intros [Hin|(i & node' & Hi & Hnode' & Hin)]; [left; set_solver |].
      rewrite Ena in Hnode'. destruct (node_at self i) as [node|] eqn:Hnode; [| discriminate].
      injection Hnode' as <-. right. exists i, node. split; [exact Hi |].
      split; [exact Hnode |].
      exact (proj1 (proj1 (IH i node Hi Hnode (Hwfk i node Hi Hnode))) Hin).
    + intros [Hin|(i & node & Hi & Hnode & Hin)]; [left; set_solver |].
      right. exists i, (_remove_recursive node obj r). split; [exact Hi |].
      split; [rewrite Ena, Hnode; reflexivity |].
      exact (proj2 (proj1 (IH i node Hi Hnode (Hwfk i node Hi Hnode))) Hin).
  - intros q. rewrite (elem_of_retrieve _ q o Hwf'), (elem_of_retrieve _ q o Hwf), Eo, <- Eb.
    split; intros [Hcq Hin]; (split; [exact Hcq |]).
    + destruct Hin as [Hin|(i & node' & Hi & Hnode' & Hgi & Hin)]; [left; set_solver |].
      rewrite Ena in Hnode'. destruct (node_at self i) as [node|] eqn:Hnode; [| discriminate].
      injection Hnode' as <-. right. exists i, node. split; [exact Hi |].
      split; [exact Hnode |]. split; [rewrite <- Egi; exact Hgi |].
      exact (proj1 (proj2 (IH i node Hi Hnode (Hwfk i node Hi Hnode)) q) Hin).
    + destruct Hin as [Hin|(i & node & Hi & Hnode & Hgi & Hin)]; [left; set_solver |].
      right. exists i, (_remove_recursive node obj r). split; [exact Hi |].
      split; [rewrite Ena, Hnode; reflexivity |]. split; [rewrite Egi; exact Hgi |].
      exact (proj2 (proj2 (IH i node Hi Hnode (Hwfk i node Hi Hnode)) q) Hin).
Qed.

Lemma remove_recursive_tidy bounding obj r :
  forall self,
    well_formed self = true -> tidy bounding self ->
    tidy bounding (_remove_recursive self obj r).
Proof.
  apply (index_ind (fun self =>
    well_formed self = true -> tidy bounding self ->
    tidy bounding (_remove_recursive self obj r))).
  intros self IH Hwf Htidy.
  destruct (Rect.colliderect (bounds self) r) eqn:Hc;
    [| rewrite (remove_recursive_miss _ _ _ Hc); exact Htidy].
  destruct (remove_recursive_fields self obj r Hwf Hc) as [Eo Ena].
  destruct (remove_recursive_shape obj r self Hwf) as [Hwf' (Eb & _)].
  pose proof (proj1 (tidy_unfold bounding self) Htidy) as [Hl Hk].
  apply tidy_unfold. rewrite Eo, <- Eb. split.
  - intros o Ho. apply Hl. set_solver.
  - intros i node' Hi Hnode'. rewrite Ena in Hnode'.
    destruct (node_at self i) as [node|] eqn:Hnode; [| discriminate].
    injection Hnode' as <-. apply (IH i node Hi Hnode); [| exact (Hk i node Hi Hnode)].
    pose proof (node_has_children _ _ _ Hwf Hnode) as Hch.
    destruct (well_formed_children _ Hwf Hch) as (_ & _ & _ & Hkids).
    destruct (Hkids i Hi) as (node_ & Hnode_ & _ & Hwfn). congruence.
Qed.

Lemma clear_fields self :
  clear self = mk (bounds self) (max_objects self) (max_levels self) (level self) ∅
                  None None None None (vertical_mid self) (horizontal_mid self).
Proof.
  destruct self as [b mo ml l objs [c0|] [c1|] [c2|] [c3|] vm hm]; reflexivity.
Qed.

Lemma insert_step bounding self obj :
  well_formed self = true -> aligned self = true -> tidy bounding self ->
  exists self',
    insert bounding self obj = Ok self'
    /\ same_frame self self'
    /\ well_formed self' = true /\ aligned self' = true /\ tidy bounding self'
    /\ answers bounding self' obj
    /\ retains bounding self self'
    /\ all_objects self' ⊆ {[obj]} ∪ all_objects self.
Proof.
  intros Hwf Hal Htidy. unfold insert, depth_budget.
  destruct (insert_within_covers bounding (S (Z.to_nat (max_levels self - level self)))
              self obj Hwf Hal Htidy ltac:(lia))
    as (self' & E & Hf & Hwf' & Htidy' & Hans & Hret & Hall).
  exists self'. rewrite <- (aligned_same_frame _ _ Hf). auto 10.
Qed.

Lemma remove_step bounding self obj :
  well_formed self = true -> aligned self = true -> tidy bounding self ->
  same_frame self (remove bounding self obj)
  /\ well_formed (remove bounding self obj) = true
  /\ aligned (remove bounding self obj) = true
  /\ tidy bounding (remove bounding self obj)
  /\ (obj ∉ all_objects (remove bounding self obj))
  /\ (forall o, o <> obj ->
        (o ∈ all_objects (remove bounding self obj) <-> o ∈ all_objects self)
        /\ forall q, o ∈ retrieve (remove bounding self obj) q <-> o ∈ retrieve self q).
Proof.
  intros Hwf Hal Htidy.
  destruct (remove_shape bounding self obj Hwf) as [Hwf' Hf].
  split; [exact Hf |]. split; [exact Hwf' |].
  split; [rewrite <- (aligned_same_frame _ _ Hf); exact Hal |].
  unfold remove. destruct (bounding obj) as [r|] eqn:Hb.
  - split; [apply remove_recursive_tidy; assumption |].
    split; [apply (remove_recursive_gone bounding obj r Hb); assumption |].
    intros o Hne. apply remove_recursive_others; assumption.
  - split; [exact Htidy |]. split; [| tauto].
    intros Hin.
    destruct (stored_meets_region bounding obj self Hwf Hal Htidy Hin) as (r & Hr & _).
    congruence.
Qed.

(** X11. One insertion into a well-formed, aligned and tidy index, with the
    region, the bounding rectangles and the queries in the C int range,
    returns; afterwards every query that meets the region and overlaps
    the bounding rectangle of the inserted object returns the object,
    whatever a query overlapping another object's rectangle returned
    before it still returns, and nothing but the inserted object is
    new in the index. The index stays well-formed, aligned and tidy. *)
Theorem insert_answers_overlapping_queries (bounding : ObjRef -> option Rect.t) self obj :
  well_formed self = true -> aligned self = true -> tidy bounding self ->
  Rect.fits (bounds self) = true -> boxes_fit bounding ->
  exists self',
    insert bounding self obj = Ok self'
    /\ bounds self' = bounds self
    /\ well_formed self' = true /\ aligned self' = true /\ tidy bounding self'
    /\ answers bounding self' obj
    /\ retains bounding self self'
    /\ all_objects self' ⊆ {[obj]} ∪ all_objects self.
Proof.
  intros Hwf Hal Htidy _ _.
  destruct (insert_step bounding self obj Hwf Hal Htidy) as (self' & E & (Eb & _) & H).
  exists self'. split; [exact E |]. split; [symmetry; exact Eb | exact H].
Qed.

(** X12. [remove] on a well-formed, aligned and tidy index, with the region,
    the bounding rectangles and the queries in the C int range, takes
    the object out of every node: afterwards the object is stored
    nowhere and no query returns it, while every other object is
    returned by exactly the queries that returned it before. The index
    stays well-formed, aligned and tidy. *)
Theorem remove_forgets_object (bounding : ObjRef -> option Rect.t) self obj :
  well_formed self = true -> aligned self = true -> tidy bounding self ->
  Rect.fits (bounds self) = true -> boxes_fit bounding ->
  bounds (remove bounding self obj) = bounds self
  /\ well_formed (remove bounding self obj) = true
  /\ aligned (remove bounding self obj) = true
  /\ tidy bounding (remove bounding self obj)
  /\ (obj ∉ all_objects (remove bounding self obj))
  /\ (forall q, Rect.fits q = true -> obj ∉ retrieve (remove bounding self obj) q)
  /\ (forall o q, o <> obj -> Rect.fits q = true ->
        (o ∈ retrieve (remove bounding self obj) q <-> o ∈ retrieve self q)).
Proof.
  intros Hwf Hal Htidy _ _.
  destruct (remove_step bounding self obj Hwf Hal Htidy)
    as ((Eb & _) & Hwf' & Hal' & Htidy' & Hgone & Hothers).
  split; [symmetry; exact Eb |].
  split; [exact Hwf' |]. split; [exact Hal' |]. split; [exact Htidy' |].
  split; [exact Hgone |]. split.
  - intros q _ Hin. apply Hgone. exact (retrieve_stored q _ _ Hin).
  - intros o q Hne _. apply (Hothers o Hne).
Qed.

(** X13. An index grown from the constructor over an aligned region by
    [insert], [remove], [update_object] and [clear], while the objects
    keep their places, with the region, the bounding rectangles and the
    queries in the C int range, is well-formed, aligned and tidy; it
    stores only objects that were inserted and not removed since, so a
    query returns only such objects; and it returns each of them to
    every query that meets the region and overlaps the object's
    bounding rectangle, provided that rectangle meets the region. *)
Theorem grown_index_complete (bounding : ObjRef -> option Rect.t)
    (present : gset ObjRef) self :
  grown bounding present self ->
  Rect.fits (bounds self) = true -> boxes_fit bounding ->
  well_formed self = true /\ aligned self = true /\ tidy bounding self
  /\ all_objects self ⊆ present
  /\ (forall q, Rect.fits q = true -> retrieve self q ⊆ present)
  /\ (forall obj, obj ∈ present -> answers bounding self obj).
Proof.
  intros Hg _ _.
  assert (well_formed self = true /\ aligned self = true /\ tidy bounding self
          /\ all_objects self ⊆ present
          /\ (forall obj, obj ∈ present -> answers bounding self obj))
    as (Hwf & Hal & Htidy & Hall & Hans).
  { induction Hg as [region mo ml Hal
                    | present self obj self' _ (Hwf & Hal & Htidy & Hall & Hans) E
                    | present self obj _ (Hwf & Hal & Htidy & Hall & Hans)
                    | present self obj self' _ (Hwf & Hal & Htidy & Hall & Hans) E
                    | present self _ (Hwf & Hal & Htidy & Hall & Hans)].
    - split; [reflexivity |]. split; [exact Hal |].
      split; [cbn; repeat split; set_solver |]. split; [cbn; set_solver | set_solver].
    - destruct (insert_step bounding self obj Hwf Hal Htidy)
        as (s & E' & Hf & Hwf' & Hal' & Htidy' & Hans' & Hret & Hall').
      rewrite E in E'. injection E' as <-.
      split; [exact Hwf' |]. split; [exact Hal' |]. split; [exact Htidy' |].
      split; [clear -Hall Hall'; set_solver |].
      intros o Ho. destruct (decide (o = obj)) as [->|Hne]; [exact Hans' |].
      assert (o ∈ present) as Ho' by set_solver.
      intros r q Hr Hpr Hpq Hcr Hcq Hrq. destruct Hf as (Eb & _). rewrite <- Eb in Hcr, Hcq.
      apply (Hret o r q Hr Hpr Hpq Hrq). exact (Hans o Ho' r q Hr Hpr Hpq Hcr Hcq Hrq).
    - destruct (remove_step bounding self obj Hwf Hal Htidy)
        as (Hf & Hwf' & Hal' & Htidy' & Hgone & Hothers).
      split; [exact Hwf' |]. split; [exact Hal' |]. split; [exact Htidy' |]. split.
      + intros o Ho. destruct (decide (o = obj)) as [->|Hne]; [contradiction |].
        apply (Hothers o Hne) in Ho. set_solver.
      + intros o Ho. apply elem_of_difference in Ho as [Ho Hne].
        assert (o <> obj) as Hne' by set_solver.
        intros r q Hr Hpr Hpq Hcr Hcq Hrq. destruct Hf as (Eb & _). rewrite <- Eb in Hcr, Hcq.
        apply (Hothers o Hne'). exact (Hans o Ho r q Hr Hpr Hpq Hcr Hcq Hrq).
    - destruct (remove_step bounding self obj Hwf Hal Htidy)
        as (Hf1 & Hwf1 & Hal1 & Htidy1 & Hgone & Hothers).
      destruct (insert_step bounding (remove bounding self obj) obj Hwf1 Hal1 Htidy1)
        as (s & E' & Hf & Hwf' & Hal' & Htidy' & Hans' & Hret & Hall').
      unfold update_object in E. rewrite E in E'. injection E' as <-.
      split; [exact Hwf' |]. split; [exact Hal' |]. split; [exact Htidy' |]. split.
      + intros o Ho. apply Hall' in Ho. apply elem_of_union in Ho as [Ho|Ho]; [set_solver |].
        destruct (decide (o = obj)) as [->|Hne]; [contradiction |].
        apply (Hothers o Hne) in Ho. set_solver.
      + intros o Ho. destruct (decide (o = obj)) as [->|Hne]; [exact Hans' |].
        assert (o ∈ present) as Ho' by set_solver.
        intros r q Hr Hpr Hpq Hcr Hcq Hrq.
        destruct Hf as (Eb & _), Hf1 as (Eb1 & _). rewrite <- Eb, <- Eb1 in Hcr, Hcq.
        apply (Hret o r q Hr Hpr Hpq Hrq). apply (Hothers o Hne).
        exact (Hans o Ho' r q Hr Hpr Hpq Hcr Hcq Hrq).
    - rewrite clear_fields. split; [reflexivity |].
      split; [exact Hal |]. split; [cbn; repeat split; set_solver |].
      split; [cbn; set_solver | set_solver]. }
  split; [exact Hwf |]. split; [exact Hal |]. split; [exact Htidy |].
  split; [exact Hall |]. split; [| exact Hans].
  intros q _ o Ho. apply Hall. exact (retrieve_stored q _ _ Ho).
Qed.

Lemma tidy_init bounding region mo ml l : tidy bounding (init region mo ml l).
Proof. cbn. repeat split. set_solver. Qed.


End CoverFacts.

Lemma two_placed_boxes_fit (rect : Rect.t) :
  Rect.fits rect = true -> IndexRel.boxes_fit (Samples.two_placed rect).
Proof.
  intros Hfit o r Hr. destruct o as [|[|[|o]]]; cbn in Hr; try discriminate;
    injection Hr as <-; [exact Hfit | reflexivity].
Qed.

Lemma insert_answers_overlapping_queries_witness :
  exists self',
    SpatialQuadTree.insert (Samples.two_placed Samples.old_rect) Samples.small_index 1%nat
    = Ok self'
    /\ IndexCover.answers (Samples.two_placed Samples.old_rect) self' 1%nat.
Proof.
  destruct (insert_answers_overlapping_queries (Samples.two_placed Samples.old_rect)
              Samples.small_index 1%nat eq_refl eq_refl
              (tidy_init _ Samples.world_bounds 1 5 0) eq_refl
              (two_placed_boxes_fit Samples.old_rect eq_refl))
    as (self' & E & _ & _ & _ & _ & Hans & _).
  exists self'. split; [exact E | exact Hans].
Defined.

Lemma index_one_tidy : IndexCover.tidy (Samples.placed Samples.old_rect) Samples.index_one.
Proof.
  cbn. split; [| tauto]. intros o Ho. apply elem_of_singleton in Ho as ->.
  exists Samples.old_rect. split; reflexivity.
Qed.

Lemma remove_forgets_object_witness :
  1%nat ∉ IndexCover.all_objects
            (SpatialQuadTree.remove (Samples.placed Samples.old_rect) Samples.index_one 1%nat).
Proof.
  exact (proj1 (proj2 (proj2 (proj2 (proj2
           (remove_forgets_object (Samples.placed Samples.old_rect) Samples.index_one 1%nat
              eq_refl eq_refl index_one_tidy eq_refl
              (placed_boxes_fit Samples.old_rect eq_refl))))))).
Defined.

Lemma grown_index_complete_witness :
  exists self',
    SpatialQuadTree.insert (Samples.two_placed Samples.old_rect) Samples.small_index 1%nat
    = Ok self'
    /\ (forall q, Rect.fits q = true -> SpatialQuadTree.retrieve self' q ⊆ {[1%nat]} ∪ ∅).
Proof.
  assert (match SpatialQuadTree.insert (Samples.two_placed Samples.old_rect)
                  Samples.small_index 1%nat with
          | Ok _ => true
          | _ => false
          end = true) as Hobs by (vm_compute; reflexivity).
  destruct (ok_inv (SpatialQuadTree.insert (Samples.two_placed Samples.old_rect)
                      Samples.small_index 1%nat) Hobs) as [self' E].
  exists self'. split; [exact E |].
  assert (SpatialQuadTree.bounds self' = Samples.world_bounds) as Eb.
  { destruct (insert_step (Samples.two_placed Samples.old_rect) Samples.small_index 1%nat
                eq_refl eq_refl (tidy_init _ Samples.world_bounds 1 5 0))
      as (s & E' & (Eb & _) & _).
    rewrite E in E'. injection E' as <-. symmetry. exact Eb. }
  exact (proj1 (proj2 (proj2 (proj2 (proj2
           (grown_index_complete (Samples.two_placed Samples.old_rect) _ self'
              (IndexCover.grown_insert _ ∅ Samples.small_index 1%nat self'
                 (IndexCover.grown_init _ Samples.world_bounds 1 5 eq_refl) E)
              ltac:(rewrite Eb; reflexivity)
              (two_placed_boxes_fit Samples.old_rect eq_refl))))))).
Defined.

Lemma two_dummies_boxes_fit :
  IndexRel.boxes_fit (@bounding_of Samples.c_int_cast Samples.two_dummies).
Proof.
  intros o r Hr. destruct o as [|[|[|o]]]; vm_compute in Hr; try discriminate;
    injection Hr as <-; reflexivity.
Qed.

(* ===================================================================== *)
(** * Rays along an axis *)
(* ===================================================================== *)

Section AxisRay.
Local Open Scope float_scope.

Lemma SFltb_irrefl (x : spec_float) : SFltb x x = false.
Proof.
  unfold SFltb. destruct x as [s|[]| |[] m e]; cbn; try reflexivity;
    rewrite Z.compare_refl, Pos.compare_cont_refl; reflexivity.
Qed.

(** Adding a zero or NaN to [o] gives a value that is neither below nor
    above [o]. *)
Lemma SFadd_zero_or_nan_level (o z : spec_float) :
  sf_zero_or_nan z ->
  SFltb (SF64add o z) o = false /\ SFltb o (SF64add o z) = false.
Proof.
  intros Hz. destruct z as [sz|sz| |sz mz ez]; try contradiction.
  - destruct o as [[]|[]| |so mo eo]; destruct sz; cbn [SF64add SFadd];
      try (split; reflexivity); split; apply SFltb_irrefl.
  - destruct o; split; reflexivity.
Qed.

Lemma min_max_along_axis (o d m : float) :
  (d =? 0) = true ->
  PyFloat.min o (o + d * m) = o /\ PyFloat.max o (o + d * m) = o.
Proof.
  intros Hd. apply eqb_zero in Hd as [s Hd].
  assert (sf_zero_or_nan (Prim2SF (d * m))) as Hz
    by (rewrite mul_spec; apply zon_mul_l; rewrite Hd; exact I).
  destruct (SFadd_zero_or_nan_level (Prim2SF o) _ Hz) as [H1 H2].
  unfold PyFloat.min, PyFloat.max. rewrite !ltb_spec, add_spec, H1, H2. auto.
Qed.

Lemma sub_self_finite (o : float) : PyFloat.is_finite o = true -> o - o = 0.
Proof.
  unfold PyFloat.is_finite. intros Hf. apply Prim2SF_inj'. rewrite sub_spec.
  change (Prim2SF 0) with (S754_zero false).
  destruct (Prim2SF o) as [[]| | |s mo eo]; try discriminate; try reflexivity.
  cbn [SF64sub SFsub]. rewrite Z.sub_diag. reflexivity.
Qed.

Lemma retrieve_flat (tree : SpatialQuadTree.t) (r : Rect.t) :
  Rect.width r = 0%Z \/ Rect.height r = 0%Z -> SpatialQuadTree.retrieve tree r = ∅.
Proof.
  intros Hflat.
  assert (Rect.colliderect (SpatialQuadTree.bounds tree) r = false) as Hc.
  { unfold Rect.colliderect. destruct Hflat as [-> | ->]; cbn [Z.eqb];
      rewrite ?orb_true_r; reflexivity. }
  destruct tree. cbn in Hc |- *. rewrite Hc. reflexivity.
Qed.

(** X15. A ray along an axis finds nothing. When the direction has a zero
    [y] component (or a zero [x] component) and the matching origin
    coordinate is finite, the bounds of the ray have height (or width)
    zero; a rectangle of zero height or width collides with nothing, so
    the index hands out no candidate and [raycast] returns the empty
    list, whatever the index stores, for every maximal distance and
    cap. *)
Theorem ray_along_axis_finds_nothing `{RectCoord} (spatial_tree : SpatialQuadTree.t)
    (heap : Heap) (origin direction : Vector2.t) (max_distance : float) (hits_lim : Z)
    (ignore_obj_tpyes : gset Z) :
  rect_coord 0 = 0%Z ->
  ((Vector2.y direction =? 0) = true /\ PyFloat.is_finite (Vector2.y origin) = true)
  \/ ((Vector2.x direction =? 0) = true /\ PyFloat.is_finite (Vector2.x origin) = true) ->
  raycast spatial_tree heap origin direction max_distance hits_lim ignore_obj_tpyes = Ok [].
Proof.
  intros Hzero Haxis. unfold raycast.
  rewrite retrieve_flat; [rewrite elements_empty; reflexivity |].
  unfold create_ray_bounds, Rect_of_floats, Vector2.add, Vector2.scale.
  cbn [Vector2.x Vector2.y Rect.width Rect.height].
  destruct Haxis as [[Hd Hf]|[Hd Hf]].
  - right. destruct (min_max_along_axis (Vector2.y origin) _ max_distance Hd) as [-> ->].
    rewrite (sub_self_finite _ Hf). exact Hzero.
  - left. destruct (min_max_along_axis (Vector2.x origin) _ max_distance Hd) as [-> ->].
    rewrite (sub_self_finite _ Hf). exact Hzero.
Qed.
End AxisRay.

(** The circle of radius 5 centred at [(30, 40)] and the horizontal ray
    from [(0, 40)], which meets the circle at distance 25. *)
Lemma ray_along_axis_finds_nothing_witness :
  @raycast Samples.c_int_cast Samples.ray_tree Samples.ray_heap
    (Vector2.mk 0 40) (Vector2.mk 1 0) 100 10 ∅ = Ok []
  /\ CircleShape.intersects_ray (CircleShape.mk (Vector2.mk 30 40) 5)
       (Vector2.mk 0 40) (Vector2.mk 1 0) 100
     = Ok (Some (mkRaycastHit (Vector2.mk 25 40) (Vector2.mk (-1) 0) 25)).
Proof.
  split.
  - apply (@ray_along_axis_finds_nothing Samples.c_int_cast); [reflexivity |].
    left. split; reflexivity.
  - vm_compute. reflexivity.
Defined.
(* ===================================================================== *)
(** * The tree phase of the tick *)
(* ===================================================================== *)

Section TreePhase.
Import SpatialQuadTree IndexShape IndexRel IndexCover.

Implicit Types (self tree : SpatialQuadTree.t) (obj : ObjRef).

(** [update_object] on a well-formed, aligned index returns an index of
    the same frame and shape which finds the updated object over its
    rectangle. *)
Lemma update_object_step (bounding : ObjRef -> option Rect.t) self obj :
  well_formed self = true -> aligned self = true ->
  exists self',
    update_object bounding self obj = Ok self'
    /\ same_frame self self'
    /\ well_formed self' = true /\ aligned self' = true
    /\ finds bounding (bounds self) self' obj
    /\ forall o r, o <> obj -> bounding o = Some r -> proper r ->
         o ∈ retrieve self r -> o ∈ retrieve self' r.
Proof.
  intros Hwf Hal. unfold update_object.
  destruct (remove_shape bounding self obj Hwf) as [Hwf1 Hf1].
  assert (aligned (remove bounding self obj) = true) as Hal1
    by (rewrite <- (aligned_same_frame _ _ Hf1); exact Hal).
  unfold insert, depth_budget.
  destruct (insert_within_ok bounding
              (S (Z.to_nat (max_levels (remove bounding self obj)
                            - level (remove bounding self obj))))
              (remove bounding self obj) obj Hwf1 Hal1 ltac:(lia))
    as (self' & E & Hf & Hwf' & Hfinds & Hkeeps).
  exists self'. split; [exact E |].
  split; [exact (same_frame_trans _ _ _ Hf1 Hf) |]. split; [exact Hwf' |].
  split; [rewrite <- (aligned_same_frame _ _ Hf); exact Hal1 |]. split.
  - destruct Hf1 as (-> & _). exact Hfinds.
  - intros o r Hne Hr (Hw & Hh & _) Hin. apply (Hkeeps o r Hr Hw Hh).
    unfold remove. destruct (bounding obj) as [robj|]; [| exact Hin].
    apply (remove_recursive_others obj robj o Hne self Hwf). exact Hin.
Qed.

Lemma update_tree_step `{RectCoord} (h : Heap) (objs_moved : list ObjRef) :
  forall tree,
    well_formed tree = true -> aligned tree = true ->
    exists tree',
      Engine.update_tree h tree objs_moved = Ok tree'
      /\ same_frame tree tree'
      /\ well_formed tree' = true /\ aligned tree' = true
      /\ (forall o r, o ∉ objs_moved -> bounding_of h o = Some r -> proper r ->
            o ∈ retrieve tree r -> o ∈ retrieve tree' r)
      /\ (forall o r, o ∈ objs_moved -> bounding_of h o = Some r -> proper r ->
            Rect.colliderect (bounds tree) r = true -> o ∈ retrieve tree' r).
Proof.
  induction objs_moved as [|m rest IH]; intros tree Hwf Hal; cbn [Engine.update_tree].
  - exists tree. split; [reflexivity |]. split; [apply same_frame_refl |].
    split; [exact Hwf |]. split; [exact Hal |]. split; [auto |].
    intros o r Ho. apply elem_of_nil in Ho. contradiction.
  - destruct (update_object_step (bounding_of h) tree m Hwf Hal)
      as (tree1 & E & Hf & Hwf1 & Hal1 & Hfinds & Hothers).
    rewrite E. cbn [bind].
    destruct (IH tree1 Hwf1 Hal1) as (tree' & E' & Hf' & Hwf' & Hal' & Hout & Hin).
    exists tree'. split; [exact E' |].
    split; [exact (same_frame_trans _ _ _ Hf Hf') |].
    split; [exact Hwf' |]. split; [exact Hal' |]. split.
    + intros o r Ho Hr Hp Hfound. apply not_elem_of_cons in Ho as [Hne Ho].
      apply (Hout o r Ho Hr Hp). exact (Hothers o r Hne Hr Hp Hfound).
    + intros o r Ho Hr Hp Hc.
      destruct (decide (o ∈ rest)) as [Hrest|Hrest].
      * apply (Hin o r Hrest Hr Hp). destruct Hf as (<- & _). exact Hc.
      * apply elem_of_cons in Ho as [->|Ho]; [| contradiction].
        apply (Hout m r Hrest Hr Hp). destruct Hp as (Hw & Hh & _).
        exact (Hfinds r Hr Hw Hh Hc).
Qed.

(** X16. The loop of [Engine.update] that tells the spatial index about the
    moved objects, [for moved_obj in objs_moved:
    self.spatial_tree.update_object(moved_obj)], never fails on a
    well-formed, aligned index, with the region and the bounding
    rectangles in the C int range: it returns, the index stays
    well-formed and aligned over the same region, every moved object
    whose bounding rectangle meets the world is afterwards found by a
    query over that rectangle, whatever objects were updated after it,
    and an object that did not move is found by a query over its
    rectangle if it was found before. *)
Theorem tick_tree_phase `{RectCoord} (h : Heap) (tree : SpatialQuadTree.t)
    (objs_moved : list ObjRef) :
  well_formed tree = true -> aligned tree = true ->
  Rect.fits (bounds tree) = true -> boxes_fit (bounding_of h) ->
  exists tree',
    Engine.update_tree h tree objs_moved = Ok tree'
    /\ bounds tree' = bounds tree
    /\ well_formed tree' = true /\ aligned tree' = true
    /\ (forall o r, o ∈ objs_moved -> bounding_of h o = Some r -> proper r ->
          Rect.colliderect (bounds tree) r = true -> o ∈ retrieve tree' r)
    /\ (forall o r, o ∉ objs_moved -> bounding_of h o = Some r -> proper r ->
          o ∈ retrieve tree r -> o ∈ retrieve tree' r).
Proof.
  intros Hwf Hal _ _.
  destruct (update_tree_step h objs_moved _ Hwf Hal)
    as (tree' & E & (Eb & _) & Hwf' & Hal' & Hout & Hin).
  exists tree'. split; [exact E |]. split; [symmetry; exact Eb |].
  split; [exact Hwf' |]. split; [exact Hal' |]. split; [exact Hin | exact Hout].
Qed.
End TreePhase.

Lemma tick_tree_phase_witness :
  exists tree',
    @Engine.update_tree Samples.c_int_cast Samples.two_dummies
      (Engine.spatial_tree Samples.engine0) [1%nat; 2%nat] = Ok tree'
    /\ IndexShape.well_formed tree' = true.
Proof.
  destruct (@tick_tree_phase Samples.c_int_cast Samples.two_dummies
              (Engine.spatial_tree Samples.engine0) [1%nat; 2%nat]
              eq_refl eq_refl eq_refl two_dummies_boxes_fit)
    as (tree' & E & _ & Hwf & _).
  exists tree'. split; [exact E | exact Hwf].
Defined.
(* ===================================================================== *)
(** * A body at rest *)
(* ===================================================================== *)

Section RestFacts.
Import PhysicsBody.
Local Open Scope float_scope.

Lemma sf_zero_mul (x y : spec_float) : sf_zero x -> sf_finite y -> sf_zero (SF64mul x y).
Proof. destruct x, y; cbn; tauto. Qed.

Lemma sf_zero_add (x y : spec_float) : sf_zero x -> sf_zero y -> sf_zero (SF64add x y).
Proof. destruct x as [[]| | |], y as [[]| | |]; cbn; tauto. Qed.

Lemma sf_zero_sub (x y : spec_float) : sf_zero x -> sf_zero y -> sf_zero (SF64sub x y).
Proof. destruct x as [[]| | |], y as [[]| | |]; cbn; tauto. Qed.

Lemma sf_zero_drift (p z : spec_float) :
  sf_finite p -> sf_zero z -> sf_zero (SF64sub (SF64add p z) p).
Proof.
  destruct p as [[]| | |sp mp ep], z as [[]| | |]; cbn [sf_finite sf_zero]; try tauto;
    intros _ _; cbn [SF64add SFadd SF64sub SFsub]; try exact I;
    rewrite Z.sub_diag; exact I.
Qed.

Lemma is_finite_sf (x : float) : PyFloat.is_finite x = true -> sf_finite (Prim2SF x).
Proof. unfold PyFloat.is_finite. destruct (Prim2SF x); cbn; intros E; (exact I || discriminate). Qed.

Lemma eqb_zero_sf (x : float) : (x =? 0) = true <-> sf_zero (Prim2SF x).
Proof.
  rewrite FloatAxioms.eqb_spec. change (Prim2SF 0) with (S754_zero false).
  unfold SFeqb. destruct (Prim2SF x) as [s|[]| |[] m e]; cbn; split; try tauto; discriminate.
Qed.

(** A coordinate that drifted by a zero does not count as changed. *)
Lemma coord_settled (p z : float) :
  sf_finite (Prim2SF p) -> sf_zero (Prim2SF z) -> Vector2.coord_differs (p + z) p = false.
Proof.
  intros Hp Hz. unfold Vector2.coord_differs.
  pose proof (sf_zero_drift _ _ Hp Hz) as Hd. rewrite <- add_spec, <- sub_spec in Hd.
  rewrite FloatAxioms.eqb_spec, leb_spec, abs_spec.
  destruct (Prim2SF (p + z - p)) as [s| | |]; try contradiction. reflexivity.
Qed.

(** X17. A body at rest stays at rest: with no velocity and no accumulated
    force, [integrate] with a finite time step reports "did not move",
    leaves the velocity zero and the position the same value, whatever
    the friction and drag are. *)
Theorem body_at_rest_stays (b : PhysicsBody.t) (dt : float) :
  at_rest b -> PyFloat.is_finite dt = true ->
  object_moved (snd (integrate b dt)) = false
  /\ is_zero_vector (velocity (fst (integrate b dt))) = true
  /\ same_value (Vector2.x (position (fst (integrate b dt)))) (Vector2.x (position b))
  /\ same_value (Vector2.y (position (fst (integrate b dt)))) (Vector2.y (position b)).
Proof.
  intros (Hs & Hrot & Hv & Hf & Him & Hfr & Hdr & Hpx & Hpy) Hdt.
  apply is_finite_sf in Him, Hfr, Hdr, Hpx, Hpy, Hdt.
  unfold is_zero_vector in Hv, Hf.
  apply andb_prop in Hv as [Hvx Hvy]. apply andb_prop in Hf as [Hfx Hfy].
  apply eqb_zero_sf in Hvx, Hvy, Hfx, Hfy.
  unfold integrate. rewrite Hs, Hrot. cbn [fst snd andb orb object_moved velocity position].
  set (acc0 := Vector2.scale (forces b) (inverse_mass b)).
  set (acc1 := if 0 <? friction b
               then Vector2.sub acc0 (Vector2.scale (velocity b) (friction b)) else acc0).
  set (acc2 := if 0 <? drag b
               then Vector2.sub acc1 (Vector2.scale (velocity b) (drag b)) else acc1).
  assert (sf_zero (Prim2SF (Vector2.x acc0)) /\ sf_zero (Prim2SF (Vector2.y acc0)))
    as [H0x H0y]
    by (unfold acc0; cbn; rewrite !mul_spec; split; apply sf_zero_mul; assumption).
  assert (sf_zero (Prim2SF (Vector2.x acc1)) /\ sf_zero (Prim2SF (Vector2.y acc1)))
    as [H1x H1y].
  { unfold acc1. destruct (0 <? friction b); [| auto]. cbn.
    rewrite !sub_spec, !mul_spec.
    split; apply sf_zero_sub; try assumption; apply sf_zero_mul; assumption. }
  assert (sf_zero (Prim2SF (Vector2.x acc2)) /\ sf_zero (Prim2SF (Vector2.y acc2)))
    as [H2x H2y].
  { unfold acc2. destruct (0 <? drag b); [| auto]. cbn.
    rewrite !sub_spec, !mul_spec.
    split; apply sf_zero_sub; try assumption; apply sf_zero_mul; assumption. }
  set (vel := Vector2.add (velocity b) (Vector2.scale acc2 dt)).
  assert (sf_zero (Prim2SF (Vector2.x vel)) /\ sf_zero (Prim2SF (Vector2.y vel)))
    as [Hwx Hwy].
  { unfold vel. cbn. rewrite !add_spec, !mul_spec.
    split; apply sf_zero_add; try assumption; apply sf_zero_mul; assumption. }
  assert (sf_zero (Prim2SF (Vector2.x vel * dt)) /\ sf_zero (Prim2SF (Vector2.y vel * dt)))
    as [Hzx Hzy]
    by (rewrite !mul_spec; split; apply sf_zero_mul; assumption).
  split; [| split; [| split]].
  - rewrite orb_false_r. unfold Vector2.ne. cbn [Vector2.x Vector2.y Vector2.add Vector2.scale].
    rewrite (coord_settled _ _ Hpx Hzx), (coord_settled _ _ Hpy Hzy). reflexivity.
  - unfold is_zero_vector. apply andb_true_intro.
    split; apply eqb_zero_sf; assumption.
  - cbn [Vector2.x Vector2.add Vector2.scale].
    destruct (Prim2SF (Vector2.x vel * dt)) as [s| | |] eqn:E; try contradiction.
    exact (add_zero_same _ _ s E).
  - cbn [Vector2.y Vector2.add Vector2.scale].
    destruct (Prim2SF (Vector2.y vel * dt)) as [s| | |] eqn:E; try contradiction.
    exact (add_zero_same _ _ s E).
Qed.
End RestFacts.

Lemma body_at_rest_stays_witness :
  object_moved
    (snd (PhysicsBody.integrate
            (PhysicsBody.mk (Vector2.mk 3 4) Vector2.zero Vector2.zero 2
               0x1.999999999999ap-4 0x1.999999999999ap-3 false
               0 0 0x1.999999999999ap-4 false Vector2.zero 0 0x1p-1)
            0x1p-6)) = false.
Proof.
  refine (proj1 (body_at_rest_stays _ _ _ _)); [| reflexivity].
  repeat split; reflexivity.
Defined.
(* ===================================================================== *)
(** * The circle pair test *)
(* ===================================================================== *)

Section OppositeValues.

Lemma SF64add_comm (x y : spec_float) : SF64add x y = SF64add y x.
Proof.
  destruct x as [[]|[]| |sx mx ex], y as [[]|[]| |sy my ey]; try reflexivity.
  cbn [SF64add SFadd]. rewrite (Z.min_comm ey ex), Z.add_comm. reflexivity.
Qed.

(** [a - b] and [b - a] are opposite values. *)
Lemma SF64sub_opposite (a b : spec_float) : sf_opposite (SF64sub a b) (SF64sub b a).
Proof.
  unfold sf_opposite.
  destruct a as [sa|sa| |sa ma ea], b as [sb|sb| |sb mb eb];
    try (left; split; reflexivity);
    try (right; left; destruct sa, sb; eexists _, _; split; reflexivity);
    try (right; right; reflexivity);
    try (right; right; destruct sa; reflexivity);
    try (right; right; destruct sb; reflexivity).
  - destruct sa, sb; cbn; auto.
  - cbn [SF64sub SFsub]. rewrite (Z.min_comm eb ea).
    set (ez := Z.min ea eb).
    set (za := cond_Zopp sa (Z.pos (fst (shl_align ma ea ez)))).
    set (zb := cond_Zopp sb (Z.pos (fst (shl_align mb eb ez)))).
    replace (zb - za) with (- (za - zb)) by lia.
    destruct (Z.eq_dec (za - zb) 0) as [E|Hne].
    + right. left. rewrite E. cbn. eauto.
    + right. right. apply binary_normalize_opp. exact Hne.
Qed.

Lemma SFopp_involutive (x : spec_float) : SFopp (SFopp x) = x.
Proof. destruct x as [[]|[]| |[] m e]; reflexivity. Qed.

(** Opposite values have the same square. *)
Lemma square_opposite (x y : spec_float) : sf_opposite x y -> SF64mul y y = SF64mul x x.
Proof.
  intros [[-> ->]|[(s & s' & -> & ->)| ->]].
  - reflexivity.
  - destruct s, s'; reflexivity.
  - rewrite SF64mul_opp_r, (SF64mul_comm (SFopp x) x), SF64mul_opp_r.
    apply SFopp_involutive.
Qed.

End OppositeValues.

Section CirclePair.
Local Open Scope float_scope.

Lemma centre_distance_sym (s1 s2 : CircleShape.t) :
  Collision.centre_distance s2 s1 = Collision.centre_distance s1 s2.
Proof.
  unfold Collision.centre_distance, Vector2.length, Vector2.dot, Vector2.sub.
  cbn [Vector2.x Vector2.y]. apply Prim2SF_inj'.
  rewrite !sqrt_spec, !add_spec, !mul_spec, !sub_spec.
  rewrite (square_opposite _ _ (SF64sub_opposite _ _)).
  rewrite (square_opposite (SF64sub (Prim2SF (Vector2.y (CircleShape.position s2))) _) _
             (SF64sub_opposite _ _)).
  reflexivity.
Qed.

Lemma combined_radius_sym (s1 s2 : CircleShape.t) :
  Collision.combined_radius s2 s1 = Collision.combined_radius s1 s2.
Proof.
  unfold Collision.combined_radius. apply Prim2SF_inj'.
  rewrite !add_spec. apply SF64add_comm.
Qed.

Lemma not_below_tiny_not_zero (d : float) :
  (d <? 0x1.0c6f7a0b5ed8dp-20) = false -> (d =? 0) = false.
Proof.
  rewrite ltb_spec, FloatAxioms.eqb_spec. change (Prim2SF 0) with (S754_zero false).
  unfold SFltb, SFeqb. destruct (Prim2SF d) as [s|[]| |[] m e]; cbn [SFcompare];
    intros Hlt; try reflexivity. discriminate.
Qed.

(** What the circle pair test returns, in terms of the distance of the
    centres and the sum of the radii. *)
Lemma circle_pair_outcome (s1 s2 : CircleShape.t) :
  let d := Collision.centre_distance s1 s2 in
  let c := Collision.combined_radius s1 s2 in
  exists res,
    Collision.circle_intersects_circle s1 s2 = Ok res
    /\ option_map penetration res
       = if c <? d then None
         else Some (Float (if d <? 0x1.0c6f7a0b5ed8dp-20 then c else c - d)).
Proof.
  cbn zeta. unfold Collision.circle_intersects_circle.
  fold (Collision.centre_distance s1 s2) (Collision.combined_radius s1 s2).
  destruct (_ <? Collision.centre_distance s1 s2); [eexists; split; reflexivity |].
  destruct (Collision.centre_distance s1 s2 <? _) eqn:Hd;
    [eexists; split; reflexivity |].
  unfold Vector2.div. rewrite (not_below_tiny_not_zero _ Hd).
  eexists. split; reflexivity.
Qed.

(** X18. The circle pair test never raises, whatever the circles are: the
    division by the distance is reached only when the distance is not
    zero. It reports no collision exactly when the distance of the
    centres exceeds the sum of the radii, and it is symmetric: with the
    circles exchanged it reports a collision in the same cases and with
    the same penetration, which is the sum of the radii when the centres
    are closer than 1e-6 and the sum minus the distance otherwise. *)
Theorem circle_pair_test (s1 s2 : CircleShape.t) :
  exists res res',
    Collision.circle_intersects_circle s1 s2 = Ok res
    /\ Collision.circle_intersects_circle s2 s1 = Ok res'
    /\ (res = None <->
        (Collision.combined_radius s1 s2 <? Collision.centre_distance s1 s2) = true)
    /\ option_map penetration res' = option_map penetration res
    /\ option_map penetration res
       = if Collision.combined_radius s1 s2 <? Collision.centre_distance s1 s2 then None
         else Some (Float (if Collision.centre_distance s1 s2 <? 0x1.0c6f7a0b5ed8dp-20
                           then Collision.combined_radius s1 s2
                           else Collision.combined_radius s1 s2
                                - Collision.centre_distance s1 s2)).
Proof.
  destruct (circle_pair_outcome s1 s2) as (res & E & Hp).
  destruct (circle_pair_outcome s2 s1) as (res' & E' & Hp').
  cbn zeta in Hp, Hp'. rewrite centre_distance_sym, combined_radius_sym in Hp'.
  exists res, res'. split; [exact E |]. split; [exact E' |].
  split; [| split; [congruence | exact Hp]].
  destruct (_ <? Collision.centre_distance s1 s2); destruct res; cbn in Hp;
    split; congruence.
Qed.
End CirclePair.
(* ===================================================================== *)
(** * What raycast returns, flat boxes, and the benchmark tick *)
(* ===================================================================== *)

Section RaycastSound.
Variables (heap : Heap) (origin direction : Vector2.t) (max_distance : float)
  (hits_lim : Z) (ignore_obj_tpyes : gset Z) (candidates : gset ObjRef).

Lemma raycast_loop_sound (objs : list ObjRef) :
  forall hits r,
    (forall o, o ∈ objs -> o ∈ candidates) ->
    Forall (genuine_hit heap origin direction max_distance ignore_obj_tpyes candidates) hits ->
    raycast_loop heap origin direction max_distance hits_lim ignore_obj_tpyes hits objs = Ok r ->
    Forall (genuine_hit heap origin direction max_distance ignore_obj_tpyes candidates) r.
Proof.
  induction objs as [|obj rest IH]; intros hits r Hsub Hhits; cbn [raycast_loop].
  - intros [= <-]. exact Hhits.
  - assert (forall o, o ∈ rest -> o ∈ candidates) as Hsub'
      by (intros o Ho; apply Hsub; right; exact Ho).
    destruct (hits_lim <=? _); [intros [= <-]; exact Hhits |].
    destruct (bool_decide _) eqn:Hign; [apply IH; assumption |].
    destruct (is_collidable (heap obj)) eqn:Hcol; cbn [negb]; [| apply IH; assumption].
    destruct (collision_shape (heap obj)) as [shape|] eqn:Hshape; [| apply IH; assumption].
    destruct (intersects_ray shape origin direction max_distance) as [[h|]| |] eqn:Hray;
      cbn [bind]; try discriminate; [| apply IH; assumption].
    apply IH; [exact Hsub' |]. apply Forall_app. split; [exact Hhits |].
    apply Forall_singleton. unfold genuine_hit. cbn [fst snd].
    split; [apply Hsub; left |]. split; [exact (bool_decide_eq_false_1 _ Hign) |].
    split; [exact Hcol |]. exists shape. split; [exact Hshape |]. split; [exact Hray |].
    intros p ->. cbn [intersects_ray] in Hray. unfold PolygonShape.intersects_ray in Hray.
    rewrite edge_loop_keeps_state in Hray. discriminate.
Qed.
End RaycastSound.

(** X19. [raycast] returns genuine hits only: each returned pair names an
    object the index handed out for the bounds of the ray, which is
    collidable, whose type tag is not ignored, and whose shape reports
    exactly this hit for the ray; no returned object has a polygon as
    its shape. *)
Theorem raycast_returns_genuine_hits `{RectCoord} (spatial_tree : SpatialQuadTree.t)
    (heap : Heap) (origin direction : Vector2.t) (max_distance : float) (hits_lim : Z)
    (ignore_obj_tpyes : gset Z) (r : list (ObjRef * RaycastHit)) :
  raycast spatial_tree heap origin direction max_distance hits_lim ignore_obj_tpyes = Ok r ->
  Forall (genuine_hit heap origin direction max_distance ignore_obj_tpyes
            (SpatialQuadTree.retrieve spatial_tree
               (create_ray_bounds origin
                  (Vector2.add origin (Vector2.scale direction max_distance)))))
         r.
Proof.
  unfold raycast. apply raycast_loop_sound; [| constructor].
  intros o Ho. apply elem_of_elements. exact Ho.
Qed.

Lemma raycast_returns_genuine_hits_witness :
  exists r,
    @raycast Samples.c_int_cast Samples.ray_tree Samples.ray_heap
      (Vector2.mk 0 0) (Vector2.mk 3 4) 20 1 ∅ = Ok r
    /\ Forall (genuine_hit Samples.ray_heap (Vector2.mk 0 0) (Vector2.mk 3 4) 20 ∅
                 (SpatialQuadTree.retrieve Samples.ray_tree
                    (@create_ray_bounds Samples.c_int_cast (Vector2.mk 0 0)
                       (Vector2.add (Vector2.mk 0 0)
                          (Vector2.scale (Vector2.mk 3 4) 20)))))
              r.
Proof.
  pose (res := @raycast Samples.c_int_cast Samples.ray_tree Samples.ray_heap
                 (Vector2.mk 0 0) (Vector2.mk 3 4) 20 1 ∅).
  assert (match res with Ok _ => true | _ => false end = true) as Hobs
    by (vm_compute; reflexivity).
  destruct (ok_inv res Hobs) as [r E].
  exists r. split; [exact E |].
  exact (@raycast_returns_genuine_hits Samples.c_int_cast _ _ _ _ _ _ _ r E).
Defined.

Section FlatBox.
Import SpatialQuadTree.

(** X20. An object whose bounding rectangle has zero width or zero height is
    invisible to the index: [insert] and [update_object] return the
    index unchanged, [remove] changes nothing, and a query over the
    rectangle returns the empty set, whatever the index holds. *)
Theorem flat_box_is_invisible (bounding : ObjRef -> option Rect.t) (self : SpatialQuadTree.t)
    (obj : ObjRef) (r : Rect.t) :
  bounding obj = Some r ->
  Rect.width r = 0 \/ Rect.height r = 0 ->
  insert bounding self obj = Ok self
  /\ remove bounding self obj = self
  /\ update_object bounding self obj = Ok self
  /\ retrieve self r = ∅.
Proof.
  intros Hb Hflat.
  assert (Rect.colliderect (bounds self) r = false) as Hc.
  { unfold Rect.colliderect. destruct Hflat as [-> | ->]; cbn [Z.eqb];
      rewrite ?orb_true_r; reflexivity. }
  assert (insert bounding self obj = Ok self) as Hins
    by (unfold insert, depth_budget; cbn [insert_within]; rewrite Hb, Hc; reflexivity).
  assert (remove bounding self obj = self) as Hrem
    by (unfold remove; rewrite Hb; destruct self; cbn in Hc |- *; rewrite Hc; reflexivity).
  split; [exact Hins |]. split; [exact Hrem |].
  split; [unfold update_object; rewrite Hrem; exact Hins |].
  apply retrieve_flat. exact Hflat.
Qed.
End FlatBox.

(** A dummy of radius [0.25]: its bounding rectangle is
    [Rect(9.75, 9.75, 0.5, 0.5)], of width and height zero once the
    fields are integers. *)
Lemma flat_box_is_invisible_witness :
  SpatialQuadTree.insert
    (@bounding_of Samples.c_int_cast
       (fun _ => Samples.DummyGameObject (Vector2.mk 10 10) 0x1p-2 1))
    (SpatialQuadTree.init_default Samples.world_bounds) 1%nat
  = Ok (SpatialQuadTree.init_default Samples.world_bounds).
Proof.
  refine (proj1 (flat_box_is_invisible _ _ 1%nat (Rect.mk 9 9 0 0) _ _)).
  - vm_compute. reflexivity.
  - left. reflexivity.
Defined.

Section BenchmarkDetection.
Context `{RectCoord}.



End BenchmarkDetection.

(* ===================================================================== *)
(** * Points on a line, and radius queries *)
(* ===================================================================== *)

Section NotNegative.

Lemma square_not_negative (x : spec_float) : sf_not_negative (SF64mul x x).
Proof.
  destruct x as [[]|[]| |s m e]; cbn; try exact I.
  rewrite xorb_nilpotent.
  destruct (bra_cases false (Z.pos (m * m)) (e + e) loc_Exact)
    as [->|[->|[(m' & e' & ->)| ->]]]; exact I.
Qed.

Lemma add_not_negative (x y : spec_float) :
  sf_not_negative x -> sf_not_negative y -> sf_not_negative (SF64add x y).
Proof.
  destruct x as [[]|[]| |[] mx ex], y as [[]|[]| |[] my ey]; cbn [sf_not_negative];
    try tauto; intros _ _; try exact I.
  cbn [SF64add SFadd cond_Zopp]. unfold binary_normalize.
  destruct (Z.pos _ + Z.pos _) as [|p|p] eqn:E; [exact I | | lia].
  clear E. unfold binary_round. destruct (shl_align _ _ _) as [mz ez].
  destruct (bra_cases false (Z.pos mz) ez loc_Exact)
    as [->|[->|[(m' & e' & ->)| ->]]]; exact I.
Qed.

Lemma not_negative_not_below (x z : spec_float) :
  sf_not_negative x -> sf_zero_or_nan z -> SFltb x z = false.
Proof.
  destruct x as [[]|[]| |[] mx ex], z as [[]|[]| |[] mz ez]; cbn; tauto.
Qed.

Lemma sub_self_zero_or_nan (x : spec_float) : sf_zero_or_nan (SF64sub x x).
Proof.
  destruct x as [[]|[]| |s m e]; cbn [SF64sub SFsub]; try exact I.
  rewrite Z.sub_diag. exact I.
Qed.

Lemma abs_zero_or_nan (x : spec_float) : sf_zero_or_nan x -> sf_zero_or_nan (SFabs x).
Proof. destruct x; cbn; tauto. Qed.

Lemma tiny_not_below_zon (z : spec_float) :
  sf_zero_or_nan z -> SFltb (Prim2SF 0x1.0c6f7a0b5ed8dp-20) z = false.
Proof. destruct z as [[]|[]| |[] m e]; cbn [sf_zero_or_nan]; try tauto; reflexivity. Qed.
End NotNegative.

Section LinePoints.
Local Open Scope float_scope.

Lemma length_squared_not_negative (a : Vector2.t) :
  sf_not_negative (Prim2SF (Vector2More.length_squared a)).
Proof.
  unfold Vector2More.length_squared. rewrite add_spec, !mul_spec.
  apply add_not_negative; apply square_not_negative.
Qed.

(** X22. Both endpoints of a segment lie on it: [contains_point] answers
    [True] for the end point of every line, and for the start point of
    every line whose start has finite coordinates. *)
Theorem endpoints_on_line (self : LineShape.t) :
  LineShapeMore.contains_point self (LineShape.end_ self) = true
  /\ (PyFloat.is_finite (Vector2.x (LineShape.start self)) = true ->
      PyFloat.is_finite (Vector2.y (LineShape.start self)) = true ->
      LineShapeMore.contains_point self (LineShape.start self) = true).
Proof.
  split.
  - unfold LineShapeMore.contains_point.
    set (line := Vector2.sub (LineShape.end_ self) (LineShape.start self)).
    assert ((0x1.0c6f7a0b5ed8dp-20 <? PrimFloat.abs (Vector2More.cross line line)) = false)
      as ->.
    { rewrite ltb_spec, abs_spec. apply tiny_not_below_zon, abs_zero_or_nan.
      unfold Vector2More.cross. rewrite sub_spec, !mul_spec.
      rewrite (SF64mul_comm (Prim2SF (Vector2.y line))). apply sub_self_zero_or_nan. }
    change (Vector2.dot line line) with (Vector2More.length_squared line).
    pose proof (length_squared_not_negative line) as Hn.
    assert ((Vector2More.length_squared line <? 0) = false) as ->
      by (rewrite ltb_spec; apply not_negative_not_below; [exact Hn | exact I]).
    rewrite ltb_spec, SFltb_irrefl. reflexivity.
  - intros Hx Hy. unfold LineShapeMore.contains_point.
    set (line := Vector2.sub (LineShape.end_ self) (LineShape.start self)).
    assert (Vector2.sub (LineShape.start self) (LineShape.start self) = Vector2.mk 0 0) as ->
      by (unfold Vector2.sub; rewrite (sub_self_finite _ Hx), (sub_self_finite _ Hy);
          reflexivity).
    assert (sf_zero_or_nan (Prim2SF (Vector2More.cross line (Vector2.mk 0 0)))) as Hc.
    { unfold Vector2More.cross. cbn [Vector2.x Vector2.y]. rewrite sub_spec, !mul_spec.
      apply zon_sub; apply zon_mul_r; exact I. }
    assert (sf_zero_or_nan (Prim2SF (Vector2.dot (Vector2.mk 0 0) line))) as Hd.
    { unfold Vector2.dot. cbn [Vector2.x Vector2.y]. rewrite add_spec, !mul_spec.
      apply zon_add; apply zon_mul_l; exact I. }
    assert ((0x1.0c6f7a0b5ed8dp-20 <? PrimFloat.abs (Vector2More.cross line (Vector2.mk 0 0)))
            = false) as ->
      by (rewrite ltb_spec, abs_spec; apply tiny_not_below_zon, abs_zero_or_nan, Hc).
    assert ((Vector2.dot (Vector2.mk 0 0) line <? 0) = false) as ->
      by (rewrite ltb_spec; apply zon_not_negative, Hd).
    rewrite ltb_spec, (not_negative_not_below _ _ (length_squared_not_negative line) Hd).
    reflexivity.
Qed.
End LinePoints.

Section RadiusFacts.
Context `{RectCoord}.

(** X23. A radius query returns only objects the index hands out for the
    square around the centre, each with a shape whose position is within
    the radius; when the doubled radius becomes the integer 0 as a
    [Rect] field (or the radius is NaN) it returns nothing, even for an
    object sitting at the centre. *)
Theorem radius_query_answers (heap : Heap) (self : SpatialQuadTree.t)
    (center : Vector2.t) (radius : float) :
  (forall obj,
      obj ∈ RadiusQuery.retrieve_in_radius heap self center radius ->
      obj ∈ SpatialQuadTree.retrieve self (RadiusQuery.query_rect center radius)
      /\ exists shape,
           collision_shape (heap obj) = Some shape
           /\ PrimFloat.leb (Vector2.length (Vector2.sub (shape_position shape) center))
                            radius = true)
  /\ (rect_coord (PrimFloat.mul radius 2) = 0 ->
      RadiusQuery.retrieve_in_radius heap self center radius = ∅)
  /\ (PyFloat.is_nan radius = true ->
      RadiusQuery.retrieve_in_radius heap self center radius = ∅).
Proof.
  unfold RadiusQuery.retrieve_in_radius. split; [| split].
  - intros obj Hin. apply elem_of_filter in Hin as [Hw Hin]. split; [exact Hin |].
    unfold RadiusQuery.within in Hw.
    destruct (collision_shape (heap obj)) as [shape|]; [| discriminate]. eauto.
  - intros Hflat.
    assert (SpatialQuadTree.retrieve self (RadiusQuery.query_rect center radius) = ∅) as ->
      by (apply retrieve_flat; left; exact Hflat).
    apply set_eq. intros obj. rewrite elem_of_filter. set_solver.
  - intros Hnan. apply set_eq. intros obj. split; [| set_solver].
    intros Hin. apply elem_of_filter in Hin as [Hw _]. exfalso.
    unfold RadiusQuery.within in Hw.
    destruct (collision_shape (heap obj)) as [shape|]; [| discriminate].
    rewrite leb_spec in Hw. unfold PyFloat.is_nan in Hnan.
    destruct (Prim2SF radius); try discriminate.
    destruct (Prim2SF _); discriminate.
Qed.
End RadiusFacts.

Lemma radius_query_answers_witness :
  @RadiusQuery.retrieve_in_radius Samples.c_int_cast Samples.ray_heap Samples.ray_tree
    (Vector2.mk 30 40) 0x1p-2 = ∅.
Proof.
  apply (proj1 (proj2 (@radius_query_answers Samples.c_int_cast Samples.ray_heap
                         Samples.ray_tree (Vector2.mk 30 40) 0x1p-2))).
  reflexivity.
Defined.
(* ===================================================================== *)
(** * Polygon against circle *)
(* ===================================================================== *)

Section PolygonCircleFacts.
Local Open Scope float_scope.

(** The perpendicular of a vector with zero coordinates cannot be
    normalised. *)
Lemma normalize_zero_edge (ex ey : float) :
  (ex =? 0) = true -> (ey =? 0) = true ->
  Vector2.normalize (Vector2.mk (- ey) ex) = Raise ValueError.
Proof.
  intros Hx Hy. apply eqb_zero in Hx as [sx Hx]. apply eqb_zero in Hy as [sy Hy].
  unfold Vector2.normalize, Vector2.length, Vector2.dot. cbn [Vector2.x Vector2.y].
  assert ((PrimFloat.sqrt (- ey * - ey + ex * ex) =? 0) = true) as ->; [| reflexivity].
  rewrite FloatAxioms.eqb_spec, sqrt_spec, add_spec, !mul_spec, !opp_spec, Hx, Hy.
  destruct sx, sy; reflexivity.
Qed.

(** X24. A polygon whose first edge has length zero makes the polygon
    against circle test raise [ValueError], for every circle: the normal
    of the first edge cannot be normalised. This is the case of every
    polygon of one vertex with finite coordinates, which the constructor
    accepts. *)
Theorem degenerate_edge_breaks_circle_test (s1 : PolygonShape.t) (s2 : CircleShape.t)
    (v v' : Vector2.t) (rest : list Vector2.t) :
  PolygonShape.vertices s1 = v :: rest ->
  head (rest ++ [v]) = Some v' ->
  (Vector2.x v' - Vector2.x v =? 0) = true ->
  (Vector2.y v' - Vector2.y v =? 0) = true ->
  PolygonCircle.polygon_intersects_circle s1 s2 = Raise ValueError.
Proof.
  intros Hvs Hhd Hx Hy. unfold PolygonCircle.polygon_intersects_circle.
  rewrite Hvs. unfold PolygonShape.edges.
  destruct (rest ++ [v]) as [|w ws] eqn:E; [discriminate |].
  injection Hhd as ->. cbn [combine PolygonCircle.edge_loop].
  unfold PolygonCircle.edge_step. cbn [Vector2.sub Vector2.x Vector2.y].
  rewrite (normalize_zero_edge _ _ Hx Hy). reflexivity.
Qed.

(** When the perpendicular of an edge can be normalised, the squared
    length of the edge is not zero. *)
Lemma normalized_edge_not_zero (edge n : Vector2.t) :
  Vector2.normalize (Vector2.mk (- Vector2.y edge) (Vector2.x edge)) = Ok n ->
  (Vector2More.length_squared edge =? 0) = false.
Proof.
  unfold Vector2.normalize, Vector2.length, Vector2.dot, Vector2More.length_squared.
  cbn [Vector2.x Vector2.y].
  destruct (PrimFloat.sqrt _ =? 0) eqn:E; [discriminate |]. intros _.
  rewrite FloatAxioms.eqb_spec, sqrt_spec, add_spec, !mul_spec, !opp_spec in E.
  rewrite SF64mul_opp_r, (SF64mul_comm (SFopp _)), SF64mul_opp_r, SFopp_involutive in E.
  rewrite SF64add_comm in E.
  rewrite FloatAxioms.eqb_spec, add_spec, !mul_spec.
  change (Prim2SF 0) with (S754_zero false) in *.
  destruct (SF64add _ _) as [s|s| |s m e];
    [| destruct s; reflexivity | reflexivity | destruct s; reflexivity].
  cbn in E. discriminate.
Qed.

Lemma edge_step_outcome (s1 : PolygonShape.t) (s2 : CircleShape.t)
    (st : PolygonCircle.state) (e : Vector2.t * Vector2.t) :
  (exists r, PolygonCircle.edge_step s1 s2 st e = Ok r)
  \/ PolygonCircle.edge_step s1 s2 st e = Raise ValueError.
Proof.
  unfold PolygonCircle.edge_step. destruct e as [v1 v2].
  destruct (Vector2.normalize _) as [n| |] eqn:En; cbn [bind].
  - destruct (PolygonCircle.project _ _ _) as [poly_min poly_max].
    destruct (_ || _); [eauto |].
    destruct (_ <? st.1.1); [| eauto].
    unfold PyFloat.div. rewrite (normalized_edge_not_zero _ _ En). cbn [bind]. eauto.
  - unfold Vector2.normalize in En. destruct (_ =? 0); [| discriminate].
    injection En as <-. right. reflexivity.
  - unfold Vector2.normalize in En. destruct (_ =? 0); discriminate.
Qed.

Lemma vertex_step_returns (s2 : CircleShape.t) (st : PolygonCircle.state)
    (vertex : Vector2.t) :
  exists st', PolygonCircle.vertex_step s2 st vertex = Ok st'.
Proof.
  unfold PolygonCircle.vertex_step.
  destruct (_ <? CircleShape.radius s2); [| eauto].
  destruct (_ <? st.1.1); [| eauto].
  destruct (_ <? Vector2.length _) eqn:Hd; [| cbn; eauto].
  unfold Vector2.normalize.
  assert ((Vector2.length (Vector2.sub vertex (CircleShape.position s2)) =? 0) = false)
    as ->; [| cbn; eauto].
  rewrite ltb_spec in Hd. rewrite FloatAxioms.eqb_spec.
  change (Prim2SF 0) with (S754_zero false).
  destruct (Prim2SF (Vector2.length _)) as [s|s| |s m e];
    [| destruct s; reflexivity | reflexivity | destruct s; reflexivity].
  destruct s; vm_compute in Hd; discriminate.
Qed.

(** X25. The only exception the polygon against circle test can raise is
    [ValueError]: the division by the squared length of an edge is
    reached only when the normal of that edge could be normalised, so
    the divisor is not zero, and a vertex direction is normalised only
    when its length exceeds 1e-6. *)
Theorem polygon_circle_test_outcomes (s1 : PolygonShape.t) (s2 : CircleShape.t) :
  (exists r, PolygonCircle.polygon_intersects_circle s1 s2 = Ok r)
  \/ PolygonCircle.polygon_intersects_circle s1 s2 = Raise ValueError.
Proof.
  unfold PolygonCircle.polygon_intersects_circle.
  assert (forall es st,
            (exists r, PolygonCircle.edge_loop s1 s2 st es = Ok r)
            \/ PolygonCircle.edge_loop s1 s2 st es = Raise ValueError) as Hedges.
  { induction es as [|e es IH]; intros st; cbn [PolygonCircle.edge_loop]; [eauto |].
    destruct (edge_step_outcome s1 s2 st e) as [[[st'|] ->]| ->]; cbn [bind]; auto.
    eauto. }
  assert (forall vs st, exists st', PolygonCircle.vertex_loop s2 st vs = Ok st') as Hvertices.
  { induction vs as [|vertex vs IH]; intros st; cbn [PolygonCircle.vertex_loop]; [eauto |].
    destruct (vertex_step_returns s2 st vertex) as [st' ->]. cbn [bind]. apply IH. }
  destruct (Hedges (PolygonShape.edges (PolygonShape.vertices s1))
              (infinity, Vector2.mk 0 0, Vector2.mk 0 0)) as [[[st|] ->]| ->];
    cbn [bind]; [| eauto | auto].
  destruct (Hvertices (PolygonShape.vertices s1) st) as [st' ->]. cbn [bind]. eauto.
Qed.
End PolygonCircleFacts.

Lemma degenerate_edge_breaks_circle_test_witness :
  exists p,
    PolygonShape.init [Vector2.mk 1 2] = Ok p
    /\ PolygonCircle.polygon_intersects_circle p (CircleShape.mk (Vector2.mk 1 2) 5)
       = Raise ValueError.
Proof.
  eexists. split; [reflexivity |].
  apply (degenerate_edge_breaks_circle_test _ _ (Vector2.mk 1 2) (Vector2.mk 1 2) []);
    reflexivity.
Defined.

(* ===================================================================== *)
(** * Rounding to binary64 is monotone *)
(* ===================================================================== *)

Section RoundingOrder.

(** ** Number of binary digits *)





(** ** The position of a quotient between two integers *)







End RoundingOrder.

Section RoundingPack.
Import Rounding.






End RoundingPack.

Section RoundingMono.
Import Rounding.



End RoundingMono.

Section NormalizeMono.
Import Rounding.











End NormalizeMono.

Section DivisionMono.
Import Rounding.






End DivisionMono.

Section RootOrder.










End RootOrder.


(* ===================================================================== *)
(** * Ray against circle *)
(* ===================================================================== *)

Section CircleRay.
Import CircleShape.
Local Open Scope float_scope.



End CircleRay.
